(** * Fan monitor: per-fan tach sensor fault detection

    A shallow embedding of [phosphor::fan::monitor::Fan] (src/monitor/fan.cpp,
    the MONITOR_USE_JSON build) and of the part of its collaborators that the
    fan calls into.  The fan object is a record that is threaded through a
    small state-and-output monad: every member function of the C++ class
    becomes a computation that may read and update the fan (and the tach
    sensors it owns) and that appends to a trace of the calls made to the
    outside world (inventory, coordinator, loggers). *)

From Stdlib Require Import Strings.Ascii.
From stdpp Require Import base option list numbers strings.

Local Open Scope N_scope.

(** ** Tach sensors *)

Inductive MethodMode := timebased | count.
Inductive TimerMode := func | nonfunc.

#[global] Instance MethodMode_eq_dec : EqDecision MethodMode.
Proof. solve_decision. Defined.
#[global] Instance TimerMode_eq_dec : EqDecision TimerMode.
Proof. solve_decision. Defined.

Module TachSensor.

(** Modelled from the spec: the [TachSensor] class (tach_sensor.hpp and
    tach_sensor.cpp are not part of the sources): current input, current
    target, functional flag, optional running timer, fault counter, method
    and threshold, with the getters that fan.cpp calls.  [tachInput] is the
    reading as the fan uses it, that is after [static_cast<uint64_t>];
    [timer] is the debounce timer: [None] when it is not running, [Some m]
    when it runs in mode [m]. *)
Record t := mk {
  name : string;
  method : MethodMode;
  threshold : N;
  hasTarget : bool;
  tachInput : N;
  tachTarget : N;
  functional : bool;
  counter : N;
  timer : option TimerMode;
}.

#[global] Instance inhabited : Inhabited t :=
  populate (mk "" timebased 0 false 0 0 true 0 None).

Definition getMethod := method.
Definition getThreshold := threshold.
Definition getCounter := counter.
Definition getInput := tachInput.
Definition getTarget := tachTarget.

(** Modelled from the spec: [TachSensor::timerRunning]. *)
Definition timerRunning (s : t) : bool := bool_decide (is_Some (timer s)).

(** Modelled from the spec: [TachSensor::setFunctional] (tach_sensor.cpp is
    not part of the sources).  The sensor owns its functional flag; a
    transition is reported upward by the fan, the sensor never touches the
    inventory of the fan. *)
Definition setFunctional (b : bool) (s : t) : t :=
  mk (name s) (method s) (threshold s) (hasTarget s) (tachInput s)
     (tachTarget s) b (counter s) (timer s).

(** Modelled from the spec: [TachSensor::setCounter].  The fault counter is
    bounded to [0, threshold]: [true] increments it, saturating at the
    threshold, [false] decrements it toward 0; the step is 1. *)
Definition setCounter (up : bool) (s : t) : t :=
  let c :=
    if up then (if counter s <? threshold s then counter s + 1 else counter s)
    else (if 0 <? counter s then counter s - 1 else counter s) in
  mk (name s) (method s) (threshold s) (hasTarget s) (tachInput s)
     (tachTarget s) (functional s) c (timer s).

(** Modelled from the spec: [TachSensor::resetMethod], as used at power on
    for a sensor of the count method (the caller's comment: the counters are
    set back to zero).  The caller never invokes it for another method. *)
Definition resetMethod (s : t) : t :=
  match method s with
  | count =>
      mk (name s) (method s) (threshold s) (hasTarget s) (tachInput s)
         (tachTarget s) (functional s) 0 (timer s)
  | timebased => s
  end.

Definition set_timer (tm : option TimerMode) (s : t) : t :=
  mk (name s) (method s) (threshold s) (hasTarget s) (tachInput s)
     (tachTarget s) (functional s) (counter s) tm.

(** Modelled from the spec: [TachSensor::startTimer].  Starting the timer
    in the mode it is already pending in is a no-op; otherwise the (single)
    timer of the sensor is started in the requested mode. *)
Definition startTimer (m : TimerMode) (s : t) : t :=
  if bool_decide (timer s = Some m) then s else set_timer (Some m) s.

(** Modelled from the spec: [TachSensor::stopTimer]; stopping is
    idempotent. *)
Definition stopTimer (s : t) : t := set_timer None s.

(** Modelled from the spec: the result of [TachSensor::updateTachAndTarget]
    when both properties could be read. *)
Definition setTachAndTarget (input target : N) (s : t) : t :=
  mk (name s) (method s) (threshold s) (hasTarget s) input target
     (functional s) (counter s) (timer s).

End TachSensor.

(** ** The outside world *)

(** What a member function of the fan finds outside the fan object while it
    runs. *)
Record Env := {
  (** [System::isPowerOn]. *)
  isPowerOn : bool;
  (** [trust::Manager::active] and [trust::Manager::checkTrust]: an opaque
      boolean gate. *)
  trustActive : bool;
  checkTrust : TachSensor.t → bool;
  (** [TachSensor::getRange], which is not defined under src/: the allowed
      (min, max) of a sensor for a deviation.  Taken as a parameter. *)
  getRange : TachSensor.t → N → N * N;
  (** The synchronous read of a sensor's input and target, by sensor name;
      [None] when the property is not on D-Bus ([DBusServiceError]). *)
  getProperty : string → option (N * N);
  (** [response.is_method_error()] of the inventory Notify call. *)
  notifyError : bool;
}.

(** Calls made to the outside world, in the order they are made. *)
Inductive Output :=
  | Notify (fan : string) (functional : bool)
      (** the inventory manager's Notify method, Functional property *)
  | LogErr
      (** [log<level::ERR>] *)
  | LogEvent
      (** [getLogger().log] *)
  | FanStatusChange (fan : string) (skipRulesCheck : bool)
      (** [System::fanStatusChange] *)
  | SensorErrorTimerExpired (fan sensor : string)
      (** [System::sensorErrorTimerExpired] *).

#[global] Instance Output_eq_dec : EqDecision Output.
Proof. solve_decision. Defined.

(** ** The fan object *)

Module Fan.

(** The members of [Fan] that fan.cpp reads and writes (fan.hpp is not part
    of the sources).  Timers are kept as their enabled flag; [countTimer]
    and [fanMissingErrorTimer] are [std::unique_ptr]s that may be null. *)
Record t := mk {
  name : string;
  deviation : N;
  numSensorFailsForNonFunc : N;
  sensors : list TachSensor.t;
  present : bool;
  functional : bool;
  monitorReady : bool;
  monitorTimer : bool;
  countTimer : option bool;
  fanMissingErrorDelay : option N;
  fanMissingErrorTimer : option bool;
}.

Definition set_sensors (l : list TachSensor.t) (f : t) : t :=
  mk (name f) (deviation f) (numSensorFailsForNonFunc f) l (present f)
     (functional f) (monitorReady f) (monitorTimer f) (countTimer f)
     (fanMissingErrorDelay f) (fanMissingErrorTimer f).
Definition set_present (b : bool) (f : t) : t :=
  mk (name f) (deviation f) (numSensorFailsForNonFunc f) (sensors f) b
     (functional f) (monitorReady f) (monitorTimer f) (countTimer f)
     (fanMissingErrorDelay f) (fanMissingErrorTimer f).
Definition set_functional (b : bool) (f : t) : t :=
  mk (name f) (deviation f) (numSensorFailsForNonFunc f) (sensors f)
     (present f) b (monitorReady f) (monitorTimer f) (countTimer f)
     (fanMissingErrorDelay f) (fanMissingErrorTimer f).
Definition set_monitorReady (b : bool) (f : t) : t :=
  mk (name f) (deviation f) (numSensorFailsForNonFunc f) (sensors f)
     (present f) (functional f) b (monitorTimer f) (countTimer f)
     (fanMissingErrorDelay f) (fanMissingErrorTimer f).
Definition set_monitorTimer (b : bool) (f : t) : t :=
  mk (name f) (deviation f) (numSensorFailsForNonFunc f) (sensors f)
     (present f) (functional f) (monitorReady f) b (countTimer f)
     (fanMissingErrorDelay f) (fanMissingErrorTimer f).
Definition set_countTimer (c : option bool) (f : t) : t :=
  mk (name f) (deviation f) (numSensorFailsForNonFunc f) (sensors f)
     (present f) (functional f) (monitorReady f) (monitorTimer f) c
     (fanMissingErrorDelay f) (fanMissingErrorTimer f).
Definition set_fanMissingErrorTimer (c : option bool) (f : t) : t :=
  mk (name f) (deviation f) (numSensorFailsForNonFunc f) (sensors f)
     (present f) (functional f) (monitorReady f) (monitorTimer f)
     (countTimer f) (fanMissingErrorDelay f) c.

End Fan.

(** ** The monad of member functions

    A computation takes the fan object and returns a result, the updated fan
    object and the calls it made. *)

Definition M (A : Type) : Type := Fan.t → A * Fan.t * list Output.

#[global] Instance M_ret : MRet M := λ A x f, (x, f, []).
#[global] Instance M_bind : MBind M := λ A B k m f,
  let r := m f in
  let r' := k r.1.1 r.1.2 in
  (r'.1.1, r'.1.2, r.2 ++ r'.2).

Definition get : M Fan.t := λ f, (f, f, []).
Definition modify (g : Fan.t → Fan.t) : M unit := λ f, (tt, g f, []).
Definition emit (o : Output) : M unit := λ f, (tt, f, [o]).
Definition when (b : bool) (m : M unit) : M unit := if b then m else mret tt.

(** The fan after a computation, and the calls the computation made. *)
Definition exec {A} (m : M A) (f : Fan.t) : Fan.t := (m f).1.2.
Definition trace {A} (m : M A) (f : Fan.t) : list Output := (m f).2.

Fixpoint for_each {A} (l : list A) (body : A → M unit) : M unit :=
  match l with
  | [] => mret tt
  | x :: l' => body x ;; for_each l' body
  end.

(** A [TachSensor&] handed to a member function always refers to an element
    of [_sensors]; it is kept as the index of that element. *)
Definition sensor (i : nat) : M TachSensor.t :=
  f ← get; mret (Fan.sensors f !!! i).
Definition modifySensor (i : nat) (g : TachSensor.t → TachSensor.t) : M unit :=
  modify (λ f, Fan.set_sensors (alter g i (Fan.sensors f)) f).

(** [std::for_each(_sensors.begin(), _sensors.end(), ...)] and the range-for
    over [_sensors]. *)
Definition for_each_sensor (body : nat → M unit) : M unit :=
  f ← get; for_each (seq 0 (length (Fan.sensors f))) body.

(** ** Member functions of [Fan] (src/monitor/fan.cpp) *)

(** [Fan::countNonFunctionalSensors]. *)
Definition countNonFunctionalSensors (f : Fan.t) : N :=
  N.of_nat (length (filter (λ s, TachSensor.functional s = false) (Fan.sensors f))).

(** [Fan::outOfRange]. *)
Definition outOfRange (e : Env) (f : Fan.t) (s : TachSensor.t) : bool :=
  let actual := TachSensor.getInput s in
  let range := getRange e s (Fan.deviation f) in
  (actual <? range.1) || (range.2 <? actual).

(** [Fan::findTargetSpeed]. *)
Definition findTargetSpeed (f : Fan.t) : N :=
  match List.find TachSensor.hasTarget (Fan.sensors f) with
  | Some s => TachSensor.getTarget s
  | None => 0
  end.

(** [Fan::updateInventory]: the assignment to [_functional] comes after the
    early return on a method error. *)
Definition updateInventory (e : Env) (functional : bool) : M unit :=
  f ← get;
  emit (Notify (Fan.name f) functional);;
  if notifyError e then emit LogErr
  else modify (Fan.set_functional functional).

(** The block of [Fan::updateState] under [if (_numSensorFailsForNonFunc)]:
    the fan-level aggregation over the functional flags of the sensors.
    [_functional] is read again for the second test. *)
Definition updateState_fan (e : Env) : M unit :=
  f ← get;
  when (bool_decide (Fan.numSensorFailsForNonFunc f ≠ 0)) (
    let numNonFuncSensors := countNonFunctionalSensors f in
    when (negb (Fan.functional f) &&
          negb (Fan.numSensorFailsForNonFunc f <=? numNonFuncSensors))
         (emit LogEvent;; updateInventory e true);;
    f' ← get;
    when (Fan.functional f' &&
          (Fan.numSensorFailsForNonFunc f' <=? numNonFuncSensors))
         (emit LogEvent;; updateInventory e false)).

(** [sensor.setFunctional(!sensor.functional())]. *)
Definition toggle (s : TachSensor.t) : TachSensor.t :=
  TachSensor.setFunctional (negb (TachSensor.functional s)) s.

(** [Fan::updateState]. *)
Definition updateState (e : Env) (i : nat) : M unit :=
  if negb (isPowerOn e) then mret tt
  else
    modifySensor i toggle;;
    emit LogEvent;;
    updateState_fan e;;
    f ← get;
    emit (FanStatusChange (Fan.name f) false).

(** [Fan::process]. *)
Definition process (e : Env) (i : nat) : M unit :=
  f ← get;
  s ← sensor i;
  if outOfRange e f s then
    if TachSensor.functional s then
      match TachSensor.getMethod s with
      | timebased => modifySensor i (TachSensor.startTimer nonfunc)
      | count =>
          modifySensor i (TachSensor.setCounter true);;
          s' ← sensor i;
          when (TachSensor.getThreshold s' <=? TachSensor.getCounter s')
               (updateState e i)
      end
    else mret tt
  else
    match TachSensor.getMethod s with
    | timebased =>
        if TachSensor.functional s then
          when (TachSensor.timerRunning s) (modifySensor i TachSensor.stopTimer)
        else modifySensor i (TachSensor.startTimer func)
    | count =>
        modifySensor i (TachSensor.setCounter false);;
        s' ← sensor i;
        when (negb (TachSensor.functional s') && (TachSensor.getCounter s' =? 0))
             (updateState e i)
    end.

(** [Fan::tachChanged(TachSensor&)]. *)
Definition tachChanged (e : Env) (i : nat) : M unit :=
  f ← get;
  if negb (isPowerOn e) || negb (Fan.monitorReady f) then mret tt
  else
    s ← sensor i;
    if trustActive e && negb (checkTrust e s) then mret tt
    else when (bool_decide (TachSensor.getMethod s = timebased)) (process e i).

(** [Fan::tachChanged()]. *)
Definition tachChanged_all (e : Env) : M unit :=
  f ← get;
  when (Fan.monitorReady f) (for_each_sensor (tachChanged e)).

(** The body of the loop of [Fan::countTimerExpired]. *)
Definition countTimerExpired_each (e : Env) (i : nat) : M unit :=
  s ← sensor i;
  if trustActive e && negb (checkTrust e s) then mret tt
  else process e i.

(** [Fan::countTimerExpired]. *)
Definition countTimerExpired (e : Env) : M unit :=
  for_each_sensor (countTimerExpired_each e).

(** [Timer::restartOnce], [Timer::setEnabled(false)] and [Timer::isEnabled]
    through a pointer that may be null; the source dereferences a null
    pointer nowhere, so the null case is never reached. *)
Definition restartOnce (tm : option bool) : option bool := (λ _, true) <$> tm.
Definition disable (tm : option bool) : option bool := (λ _, false) <$> tm.
Definition isEnabled (tm : option bool) : bool := bool_decide (tm = Some true).

(** The lambda that [Fan::startMonitor] applies to every sensor; the [catch]
    branch is the one taken when [updateTachAndTarget] finds no property. *)
Definition startMonitor_each (e : Env) (i : nat) : M unit :=
  f ← get;
  when (Fan.present f) (
    s ← sensor i;
    match getProperty e (TachSensor.name s) with
    | Some (input, target) =>
        modifySensor i (TachSensor.setTachAndTarget input target);;
        tachChanged e i
    | None =>
        emit LogEvent;;
        modifySensor i (TachSensor.setFunctional false);;
        f' ← get;
        when (bool_decide (Fan.numSensorFailsForNonFunc f' ≠ 0))
             (when (Fan.functional f' &&
                    (Fan.numSensorFailsForNonFunc f' <=? countNonFunctionalSensors f'))
                   (updateInventory e false));;
        emit (FanStatusChange (Fan.name f') false)
    end).

(** [Fan::startMonitor]. *)
Definition startMonitor (e : Env) : M unit :=
  modify (Fan.set_monitorReady true);;
  f ← get;
  when (bool_decide (is_Some (Fan.countTimer f)))
       (modify (Fan.set_countTimer (Some true)));;
  for_each_sensor (startMonitor_each e).

(** [Fan::presenceChanged]; the argument is the Present entry of the
    message's property map, if it has one. *)
Definition presenceChanged (e : Env) (presentProp : option bool) : M unit :=
  match presentProp with
  | None => mret tt
  | Some p =>
      modify (Fan.set_present p);;
      emit LogEvent;;
      f ← get;
      emit (FanStatusChange (Fan.name f) false);;
      when (bool_decide (is_Some (Fan.fanMissingErrorDelay f))) (
        if negb (Fan.present f) && isPowerOn e then
          modify (Fan.set_fanMissingErrorTimer (restartOnce (Fan.fanMissingErrorTimer f)))
        else
          when (Fan.present f && isEnabled (Fan.fanMissingErrorTimer f))
               (modify (Fan.set_fanMissingErrorTimer (disable (Fan.fanMissingErrorTimer f)))))
  end.

(** [Fan::presenceIfaceAdded]; the argument is the Present property of the
    inventory item interface of the message, if it has both. *)
Definition presenceIfaceAdded (e : Env) (presentProp : option bool) : M unit :=
  match presentProp with
  | None => mret tt
  | Some p =>
      modify (Fan.set_present p);;
      f ← get;
      when (negb (Fan.present f)) (
        emit LogEvent;;
        when (isPowerOn e && bool_decide (is_Some (Fan.fanMissingErrorTimer f)))
          (modify (Fan.set_fanMissingErrorTimer (restartOnce (Fan.fanMissingErrorTimer f)))));;
      emit (FanStatusChange (Fan.name f) false)
  end.

(** [Fan::sensorErrorTimerExpired]. *)
Definition sensorErrorTimerExpired (e : Env) (i : nat) : M unit :=
  f ← get;
  s ← sensor i;
  when (Fan.present f && isPowerOn e)
       (emit (SensorErrorTimerExpired (Fan.name f) (TachSensor.name s))).

(** The lambda that [Fan::powerStateChanged] applies to every sensor at
    power on. *)
Definition powerOn_each (e : Env) (i : nat) : M unit :=
  f ← get;
  s ← sensor i;
  match getProperty e (TachSensor.name s) with
  | Some (input, target) =>
      modifySensor i (TachSensor.setTachAndTarget input target);;
      s' ← sensor i;
      when (negb (TachSensor.functional s')) (
        modifySensor i (TachSensor.setFunctional true);;
        emit (FanStatusChange (Fan.name f) true));;
      s'' ← sensor i;
      when (bool_decide (TachSensor.getMethod s'' = count))
           (modifySensor i TachSensor.resetMethod)
  | None => emit LogEvent
  end.

(** The lambda that [Fan::powerStateChanged] applies to every sensor at
    power off. *)
Definition powerOff_each (i : nat) : M unit :=
  s ← sensor i;
  when (TachSensor.timerRunning s) (modifySensor i TachSensor.stopTimer).

(** [Fan::powerStateChanged]. *)
Definition powerStateChanged (e : Env) (powerStateOn : bool) : M unit :=
  if powerStateOn then
    modify (Fan.set_monitorTimer true);;
    f ← get;
    if Fan.present f then
      for_each_sensor (powerOn_each e);;
      f' ← get;
      when (bool_decide (Fan.numSensorFailsForNonFunc f' ≠ 0))
           (when (negb (Fan.functional f') &&
                  (countNonFunctionalSensors f' <? Fan.numSensorFailsForNonFunc f'))
                 (updateInventory e true))
    else
      emit LogEvent;;
      when (bool_decide (is_Some (Fan.fanMissingErrorTimer f)))
           (modify (Fan.set_fanMissingErrorTimer (restartOnce (Fan.fanMissingErrorTimer f))))
  else
    modify (Fan.set_monitorReady false);;
    f ← get;
    when (Fan.monitorTimer f) (modify (Fan.set_monitorTimer false));;
    when (bool_decide (is_Some (Fan.fanMissingErrorTimer f)) &&
          isEnabled (Fan.fanMissingErrorTimer f))
         (modify (Fan.set_fanMissingErrorTimer (disable (Fan.fanMissingErrorTimer f))));;
    for_each_sensor powerOff_each;;
    when (bool_decide (is_Some (Fan.countTimer f)))
         (modify (Fan.set_countTimer (Some false))).

(** ** The event loop *)

(** Modelled from the spec: the events of the single event loop that
    delivers the callbacks to the fan (sdeventplus timers, D-Bus matches,
    [System] and [TachSensor] are not part of the sources).  Callbacks are
    delivered one at a time.  A change of a sensor's input or target updates
    the sensor and then calls [Fan::tachChanged]; the expiry of a sensor's
    debounce timer ([TachSensor::timerExpired]) leads to [Fan::updateState];
    the expiry of the monitor-start timer calls [Fan::startMonitor]. *)
Inductive Event :=
  | TachChanged (i : nat) (input target : N)
  | CountTimerExpired
  | SensorTimerExpired (i : nat)
  | MonitorTimerExpired
  | PresenceChanged (presentProp : option bool)
  | PresenceIfaceAdded (presentProp : option bool)
  | SensorErrorTimerFired (i : nat)
  | PowerStateChanged (powerStateOn : bool).

(** Modelled from the spec: whether the loop can deliver an event to the
    fan.  The shared count timer fires only while it is enabled and the
    debounce timer of a sensor only while it runs; a sensor callback comes
    from a sensor of the fan.  The expiry of the monitor-start timer is
    delivered whatever the state of its timer: a callback that was already
    queued when the timer was cancelled can still run, and
    [Fan::startMonitor] has no test of its own. *)
Definition deliverable (f : Fan.t) (ev : Event) : bool :=
  match ev with
  | CountTimerExpired => isEnabled (Fan.countTimer f)
  | SensorTimerExpired i =>
      bool_decide (i < length (Fan.sensors f))%nat &&
      TachSensor.timerRunning (Fan.sensors f !!! i)
  | TachChanged i _ _ => bool_decide (i < length (Fan.sensors f))%nat
  | SensorErrorTimerFired i => bool_decide (i < length (Fan.sensors f))%nat
  | _ => true
  end.

(** Modelled from the spec: the callback an event runs.  A one-shot timer
    is no longer enabled when its callback runs. *)
Definition handle (e : Env) (ev : Event) : M unit :=
  match ev with
  | TachChanged i input target =>
      modifySensor i (TachSensor.setTachAndTarget input target);;
      tachChanged e i
  | CountTimerExpired => countTimerExpired e
  | SensorTimerExpired i =>
      modifySensor i TachSensor.stopTimer;;
      updateState e i
  | MonitorTimerExpired =>
      modify (Fan.set_monitorTimer false);;
      startMonitor e
  | PresenceChanged p => presenceChanged e p
  | PresenceIfaceAdded p => presenceIfaceAdded e p
  | SensorErrorTimerFired i => sensorErrorTimerExpired e i
  | PowerStateChanged on => powerStateChanged e on
  end.

(** Modelled from the spec: the chassis power state, held by the
    coordinator, and the fan. *)
Record World := { power : bool; fan : Fan.t }.

Definition withPower (p : bool) (e : Env) : Env :=
  {| isPowerOn := p; trustActive := trustActive e; checkTrust := checkTrust e;
     getRange := getRange e; getProperty := getProperty e;
     notifyError := notifyError e |}.

(** Modelled from the spec: one turn of the loop, for an event and what the
    outside world answers during its callback (the power state of [e] is
    overridden by the one the coordinator holds).  The coordinator records
    the new power state before it calls [Fan::powerStateChanged].  An event
    that cannot be delivered is dropped. *)
Definition step (w : World) (x : Env * Event) : World :=
  let '(e, ev) := x in
  if deliverable (fan w) ev then
    let p := match ev with PowerStateChanged on => on | _ => power w end in
    {| power := p; fan := exec (handle (withPower p e) ev) (fan w) |}
  else w.

Definition run (w : World) (evs : list (Env * Event)) : World :=
  foldl step w evs.

(** ** Weakest preconditions *)

Definition result {A} (m : M A) (f : Fan.t) : A := (m f).1.1.

(** [wp m Q f]: running [m] on [f] ends with a result, a fan and calls that
    satisfy [Q]. *)
Definition wp {A} (m : M A) (Q : A → Fan.t → list Output → Prop) (f : Fan.t) : Prop :=
  Q (result m f) (exec m f) (trace m f).


(** ** Notions used in the statements *)

(** The functional flags of the sensors, in the order of [_sensors]. *)
Definition sensorFlags (f : Fan.t) : list bool :=
  TachSensor.functional <$> Fan.sensors f.

(** The fan-level flag disagrees with what the sensors say: the fan is
    recorded functional while the number of non-functional sensors is at the
    threshold, or non-functional while it is below. *)
Definition crossing (f : Fan.t) : bool :=
  bool_decide (Fan.numSensorFailsForNonFunc f ≠ 0) &&
  eqb (Fan.functional f)
      (Fan.numSensorFailsForNonFunc f <=? countNonFunctionalSensors f).

(** The fan-level flag agrees with the sensors. *)
Definition consistent (f : Fan.t) : Prop :=
  Fan.functional f = false ↔
  Fan.numSensorFailsForNonFunc f ≤ countNonFunctionalSensors f.

Definition isNotify (o : Output) : bool :=
  match o with Notify _ _ => true | _ => false end.

(** The inventory notifications among the calls made. *)
Definition notifications (o : list Output) : list Output :=
  List.filter isNotify o.

(** The aggregation block of [Fan::updateState] in closed form (see
    [updateState_fan_eq]): the fan it leaves and the calls it makes. *)
Definition aggregated (e : Env) (f : Fan.t) : Fan.t :=
  if crossing f && negb (notifyError e)
  then Fan.set_functional (negb (Fan.functional f)) f else f.

Definition aggregated_calls (e : Env) (f : Fan.t) : list Output :=
  if crossing f
  then LogEvent :: Notify (Fan.name f) (negb (Fan.functional f)) ::
       (if notifyError e then [LogErr] else [])
  else [].

(** What [Fan::process] does to the sensor it is given, as a function of
    that sensor (see [process_sensors]). *)
Definition process_sensor (e : Env) (f : Fan.t) (s : TachSensor.t) : TachSensor.t :=
  if outOfRange e f s then
    if TachSensor.functional s then
      match TachSensor.method s with
      | timebased => TachSensor.startTimer nonfunc s
      | count =>
          let s' := TachSensor.setCounter true s in
          if (TachSensor.threshold s' <=? TachSensor.counter s') && isPowerOn e
          then toggle s' else s'
      end
    else s
  else
    match TachSensor.method s with
    | timebased =>
        if TachSensor.functional s
        then (if TachSensor.timerRunning s then TachSensor.stopTimer s else s)
        else TachSensor.startTimer func s
    | count =>
        let s' := TachSensor.setCounter false s in
        if negb (TachSensor.functional s') && (TachSensor.counter s' =? 0) && isPowerOn e
        then toggle s' else s'
    end.

(** What a tick of the count timer does to one sensor. *)
Definition tick_sensor (e : Env) (f : Fan.t) (s : TachSensor.t) : TachSensor.t :=
  if trustActive e && negb (checkTrust e s) then s else process_sensor e f s.

(** [Fan::process] changes the functional flag of the sensor exactly when
    it reaches [Fan::updateState] with power on. *)
Definition flips (e : Env) (f : Fan.t) (s : TachSensor.t) : bool :=
  negb (eqb (TachSensor.functional s) (TachSensor.functional (process_sensor e f s))).

(** The fan with one sensor replaced by what [g] makes of it. *)
Definition alterSensor (g : TachSensor.t → TachSensor.t) (i : nat) (f : Fan.t) : Fan.t :=
  Fan.set_sensors (alter g i (Fan.sensors f)) f.

(** ** Concrete inputs

    A fan "fan0" with two rotors, deviation 10 (percent) and a fan-level
    threshold of 2, as in the scenarios of the specification. *)

(** A range of [target] plus or minus [deviation] percent. *)
Definition percentRange (s : TachSensor.t) (deviation : N) : N * N :=
  (TachSensor.tachTarget s * (100 - deviation) / 100,
   TachSensor.tachTarget s * (100 + deviation) / 100).

(** Power as given, the trust manager inactive, every sensor on D-Bus with
    input 1000 and target 1000, the inventory answering as given. *)
Definition onBus (powerOn notifyFails : bool) : Env :=
  {| isPowerOn := powerOn; trustActive := false; checkTrust := λ _, true;
     getRange := percentRange; getProperty := λ _, Some (1000, 1000);
     notifyError := notifyFails |}.

(** The same with an active trust manager that trusts no sensor. *)
Definition distrusting (powerOn : bool) : Env :=
  {| isPowerOn := powerOn; trustActive := true; checkTrust := λ _, false;
     getRange := percentRange; getProperty := λ _, Some (1000, 1000);
     notifyError := false |}.

(** The same as [onBus] but every sensor reads 600 against a target of
    1000. *)
Definition lowBus (powerOn notifyFails : bool) : Env :=
  {| isPowerOn := powerOn; trustActive := false; checkTrust := λ _, true;
     getRange := percentRange; getProperty := λ _, Some (600, 1000);
     notifyError := notifyFails |}.

(** The same as [onBus] but with no sensor on D-Bus. *)
Definition offBus (powerOn notifyFails : bool) : Env :=
  {| isPowerOn := powerOn; trustActive := false; checkTrust := λ _, true;
     getRange := percentRange; getProperty := λ _, None;
     notifyError := notifyFails |}.

Definition rotor (name : string) (m : MethodMode) (input : N) (functional : bool)
    (counter : N) (timer : option TimerMode) : TachSensor.t :=
  TachSensor.mk name m 3 true input 1000 functional counter timer.

Definition fan0 (sensors : list TachSensor.t) (threshold : N)
    (present functional monitorReady : bool) (countTimer : option bool) : Fan.t :=
  Fan.mk "fan0" 10 threshold sensors present functional monitorReady false
         countTimer None None.

(** The sensors [l0] and the sensors of [f] are related one by one. *)
Definition rel (R : TachSensor.t → TachSensor.t → Prop)
    (l0 : list TachSensor.t) (f : Fan.t) : Prop :=
  Forall2 R l0 (Fan.sensors f).

(** The fault counter of a sensor is within its threshold. *)
Definition bounded (s : TachSensor.t) : Prop :=
  TachSensor.counter s ≤ TachSensor.threshold s.

(** A step of a sensor that keeps its counter within the threshold. *)
Definition keepsBound (x y : TachSensor.t) : Prop := bounded x → bounded y.

(** The fan as [Fan::startMonitor] has it before it visits the sensors. *)
Definition startMonitor_armed (f : Fan.t) : Fan.t :=
  let f1 := Fan.set_monitorReady true f in
  if bool_decide (is_Some (Fan.countTimer f1))
  then Fan.set_countTimer (Some true) f1 else f1.

(** The fan as [Fan::powerStateChanged(false)] leaves it (see
    [powerOff_eq]): not ready to monitor, every timer disabled or stopped,
    everything else as it was. *)
Definition poweredOff (f : Fan.t) : Fan.t :=
  Fan.mk (Fan.name f) (Fan.deviation f) (Fan.numSensorFailsForNonFunc f)
         (TachSensor.stopTimer <$> Fan.sensors f) (Fan.present f)
         (Fan.functional f) false false (disable (Fan.countTimer f))
         (Fan.fanMissingErrorDelay f) (disable (Fan.fanMissingErrorTimer f)).

(** All of the fan but its sensors. *)
Definition shell (f : Fan.t) : Fan.t := Fan.set_sensors [] f.

(** The shared timers run only while the chassis is powered: an enabled
    count timer means power on and monitor-ready, an armed monitor-start
    timer means power on.  The constructor leaves the fan so: it disables
    the count timer it creates and arms the monitor-start timer only if the
    power is on. *)
Definition gated (w : World) : Prop :=
  (Fan.countTimer (fan w) = Some true →
     power w = true ∧ Fan.monitorReady (fan w) = true) ∧
  (Fan.monitorTimer (fan w) = true → power w = true).



(** Every expiry of the monitor-start timer in the sequence is delivered
    while the chassis power is on. *)
Fixpoint startsPowered (w : World) (evs : list (Env * Event)) : bool :=
  match evs with
  | [] => true
  | x :: evs' =>
      match x.2 with MonitorTimerExpired => power w | _ => true end &&
      startsPowered (step w x) evs'
  end.

(** A step of a sensor that keeps its functional flag. *)
Definition keepsFlag (x y : TachSensor.t) : Prop :=
  TachSensor.functional y = TachSensor.functional x.

(** The functional states of [f'] are those of [f]: every sensor's flag and
    the fan-level flag. *)
Definition sameFlags (f f' : Fan.t) : Prop :=
  sensorFlags f' = sensorFlags f ∧ Fan.functional f' = Fan.functional f.

(** The monitor-ready flag and the shared timers of the fan. *)
Definition timers (f : Fan.t) : bool * bool * option bool :=
  (Fan.monitorReady f, Fan.monitorTimer f, Fan.countTimer f).

(** What [Fan::tachChanged(TachSensor&)] does to the sensor it is given
    (see [tachChanged_eq]). *)
Definition tachChanged_sensor (e : Env) (f : Fan.t) (s : TachSensor.t) : TachSensor.t :=
  if negb (isPowerOn e) || negb (Fan.monitorReady f) then s
  else if trustActive e && negb (checkTrust e s) then s
  else if bool_decide (TachSensor.method s = timebased) then process_sensor e f s
  else s.

(** What the force-evaluation of [Fan::startMonitor] does to a sensor of a
    fan that is present (see [startMonitor_each_eq]). *)
Definition startMonitor_sensor (e : Env) (f : Fan.t) (s : TachSensor.t) : TachSensor.t :=
  match getProperty e (TachSensor.name s) with
  | Some (input, target) =>
      tachChanged_sensor e f (TachSensor.setTachAndTarget input target s)
  | None => TachSensor.setFunctional false s
  end.

(** Whether the [catch] branch of [Fan::startMonitor] updates the inventory,
    [f] being the fan after the sensor was set non-functional. *)
Definition startMonitor_fires (f : Fan.t) : bool :=
  bool_decide (Fan.numSensorFailsForNonFunc f ≠ 0) &&
  (Fan.functional f && (Fan.numSensorFailsForNonFunc f <=? countNonFunctionalSensors f)).

(** What the power-on reset does to a sensor that is on D-Bus (see
    [powerOn_each_eq]). *)
Definition powerOn_sensor (input target : N) (s : TachSensor.t) : TachSensor.t :=
  let s1 := TachSensor.setTachAndTarget input target s in
  let s2 := if TachSensor.functional s1 then s1 else TachSensor.setFunctional true s1 in
  if bool_decide (TachSensor.method s2 = count) then TachSensor.resetMethod s2 else s2.

(** What the power-on reset does to a sensor. *)
Definition reset_sensor (e : Env) (s : TachSensor.t) : TachSensor.t :=
  match getProperty e (TachSensor.name s) with
  | Some (input, target) => powerOn_sensor input target s
  | None => s
  end.

(** Whether the power-on reset updates the inventory, [f] being the fan
    after its sensors were reset. *)
Definition powerOn_fires (f : Fan.t) : bool :=
  bool_decide (Fan.numSensorFailsForNonFunc f ≠ 0) &&
  (negb (Fan.functional f) &&
   (countNonFunctionalSensors f <? Fan.numSensorFailsForNonFunc f)).

(** The fan as the power-on reset leaves it before the fan-level flag is
    looked at: the monitor-start timer armed, the sensors reset. *)
Definition poweredOn (e : Env) (f : Fan.t) : Fan.t :=
  Fan.set_sensors (reset_sensor e <$> Fan.sensors f) (Fan.set_monitorTimer true f).

(** ** Notions used in further statements *)

Definition isStatusChange (o : Output) : bool :=
  match o with FanStatusChange _ _ => true | _ => false end.

(** The status-change notifications to the coordinator among the calls
    made. *)
Definition statusChanges (o : list Output) : list Output :=
  List.filter isStatusChange o.

(** What the definition of the fan fixes: name, deviation, fan-level
    threshold and fan-missing delay. *)
Definition config (f : Fan.t) : string * N * N * option N :=
  (Fan.name f, Fan.deviation f, Fan.numSensorFailsForNonFunc f,
   Fan.fanMissingErrorDelay f).

(** What the definition of a sensor fixes. *)
Definition sensorConfig (s : TachSensor.t) : string * MethodMode * N * bool :=
  (TachSensor.name s, TachSensor.method s, TachSensor.threshold s,
   TachSensor.hasTarget s).

(** A step of a sensor that keeps what its definition fixes. *)
Definition keepsConfig (x y : TachSensor.t) : Prop :=
  sensorConfig y = sensorConfig x.

(** A step of a sensor that does not make it functional. *)
Definition staysFailed (x y : TachSensor.t) : Prop :=
  TachSensor.functional x = false → TachSensor.functional y = false.

(** A step of a sensor that does not make it non-functional. *)
Definition staysGood (x y : TachSensor.t) : Prop :=
  TachSensor.functional x = true → TachSensor.functional y = true.

(** The fan is functional and its sensor-failure threshold is greater than
    the number of its sensors. *)
Definition aboveSensors (f : Fan.t) : Prop :=
  Fan.functional f = true ∧
  N.of_nat (length (Fan.sensors f)) < Fan.numSensorFailsForNonFunc f.

(** ** Construction *)

(** The loop of the constructor over the sensor definitions: each sensor is
    appended to [_sensors], and the local [enableCountTimer] is set when the
    sensor just appended uses the count method; the result is
    [enableCountTimer].  The sensors are taken as [TachSensor]'s constructor
    returns them. *)
Fixpoint construct_sensors (l : list TachSensor.t) (enableCountTimer : bool) : M bool :=
  match l with
  | [] => mret enableCountTimer
  | s :: l' =>
      modify (λ f, Fan.set_sensors (Fan.sensors f ++ [s]) f);;
      construct_sensors l'
        (if bool_decide (TachSensor.getMethod s = count) then true else enableCountTimer)
  end.

(** The body of the constructor [Fan::Fan] (the MONITOR_USE_JSON build), run
    on the object as the member initialisers leave it.  [presentProp] is
    what the read of the Present property returns, [None] when it throws
    [DBusServiceError].  A timer that is created without an interval is not
    enabled. *)
Definition construct (e : Env) (sensors : list TachSensor.t)
    (presentProp : option bool) : M unit :=
  updateInventory e true;;
  enableCountTimer ← construct_sensors sensors false;
  when enableCountTimer (modify (Fan.set_countTimer (Some false)));;
  when (isPowerOn e) (modify (Fan.set_monitorTimer true));;
  f ← get;
  when (bool_decide (is_Some (Fan.fanMissingErrorDelay f)))
       (modify (Fan.set_fanMissingErrorTimer (Some false)));;
  match presentProp with
  | Some p =>
      modify (Fan.set_present p);;
      when (negb p) (
        emit LogEvent;;
        f' ← get;
        when (isPowerOn e && bool_decide (is_Some (Fan.fanMissingErrorTimer f')))
             (modify (Fan.set_fanMissingErrorTimer
                        (restartOnce (Fan.fanMissingErrorTimer f')))))
  | None => mret tt
  end.

(** The object as the member initialisers of the constructor leave it: the
    name, the deviation, the threshold and the fan-missing delay of the
    definition, no sensor, the monitor-start timer created and not enabled,
    the two timer pointers null.  The in-class defaults of [_present],
    [_functional] and [_monitorReady] are in fan.hpp, which is not part of
    the sources: they are parameters. *)
Definition initialised (name : string) (deviation numSensorFailsForNonFunc : N)
    (fanMissingErrorDelay : option N) (present functional monitorReady : bool) : Fan.t :=
  Fan.mk name deviation numSensorFailsForNonFunc [] present functional monitorReady
         false None fanMissingErrorDelay None.

(** Whether a sensor of the list uses the count method. *)
Definition usesCount (l : list TachSensor.t) : bool :=
  existsb (λ s, bool_decide (TachSensor.method s = count)) l.

(** * Finding the configuration file (src/json_config.hpp)

    [phosphor::fan::JsonConfig], in the build without
    USE_IBM_COMPATIBLE_SYSTEM: the compatible property is the PrettyName
    string of the inventory item interface. *)

Module JsonConfig.

(** The static members of the class. *)
Record t := mk {
  confCompatValues : list string;
  validCompatValue : string;
}.

(** A [std::filesystem::path] built with [operator/] is kept as the list of
    its operands, the first one being the base; the empty list is the empty
    path.  The file system is the function that tells which paths exist. *)
Definition path := list string.

Inductive Exn :=
  | NoConfigFound (appName fileName : string)
  | OutOfRange.

(** A member function reads and updates the static members and returns a
    value or throws. *)
Definition J (A : Type) : Type := t → (A + Exn) * t.

Definition confOverridePath : string := "/etc/phosphor-fan-presence".
Definition confBasePath : string := "/usr/share/phosphor-fan-presence".

(** [std::find_if] over [_confCompatValues] with the lambda of
    [getConfFile]: every entry that is tried overwrites [confFile] and
    [_validCompatValue] before its file is looked for.  The result tells
    whether an entry was found, with [confFile] and [_validCompatValue] as
    the search leaves them. *)
Fixpoint find_if (exists_ : path → bool) (appName fileName : string)
    (values : list string) (confFile : path) (valid : string) : bool * path * string :=
  match values with
  | [] => (false, confFile, valid)
  | value :: values' =>
      let confFile' := [confBasePath; appName; value; fileName] in
      if exists_ confFile' then (true, confFile', value)
      else find_if exists_ appName fileName values' confFile' value
  end.

(** [JsonConfig::getConfFile]. *)
Definition getConfFile (exists_ : path → bool) (appName fileName : string)
    (isOptional : bool) : J path := λ c,
  let confFile := [confOverridePath; appName; fileName] in
  if exists_ confFile then (inl confFile, c)
  else
    let confFile := [confBasePath; appName; fileName] in
    if exists_ confFile then (inl confFile, c)
    else
      let r := find_if exists_ appName fileName (confCompatValues c) confFile
                       (validCompatValue c) in
      let confFile := if r.1.1 then r.1.2 else [] in
      let valid := if r.1.1 then r.2 else EmptyString in
      let c' := mk (confCompatValues c) valid in
      if bool_decide (confFile = []) && negb isOptional
      then (inr (NoConfigFound appName fileName), c')
      else (inl confFile, c').

(** [JsonConfig::compatIntfAdded].  [intfProps] is what the message holds
    for the compatible interface: [None] when the interface is not in the
    message, [Some None] when it is there without the compatible property
    (then [std::map::at] throws), [Some (Some v)] with the property. *)
Definition compatIntfAdded (loadFunc : J unit) (intfProps : option (option string)) :
    J unit := λ c,
  if negb (bool_decide (validCompatValue c = EmptyString)) then (inl tt, c)
  else
    match intfProps with
    | None => (inl tt, c)
    | Some None => (inr OutOfRange, c)
    | Some (Some propValue) =>
        loadFunc (mk (confCompatValues c ++ [propValue]) (validCompatValue c))
    end.

(** The loop of the constructor over the objects that implement the
    compatible interface: [props] holds, for each object, the compatible
    property, [None] when reading it throws [DBusError]. *)
Definition collect (props : list (option string)) (c : t) : t :=
  mk (confCompatValues c ++ omap id props) (validCompatValue c).

(** The constructor [JsonConfig::JsonConfig]: it collects the compatible
    values and calls the load function; [NoConfigFound] is caught. *)
Definition construct (loadFunc : J unit) (props : list (option string)) : J unit := λ c,
  let r := loadFunc (collect props c) in
  match r.1 with
  | inr (NoConfigFound _ _) => (inl tt, r.2)
  | _ => r
  end.

(** A load function as the fan applications have it: it asks for its
    configuration file and fails when there is none. *)
Definition loadWith (exists_ : path → bool) (appName fileName : string) : J unit := λ c,
  let r := getConfFile exists_ appName fileName false c in
  (match r.1 with inl _ => inl tt | inr x => inr x end, r.2).

(** The candidates of [getConfFile], in the order they are tried. *)
Definition candidates (appName fileName : string) (c : t) : list path :=
  [confOverridePath; appName; fileName] ::
  [confBasePath; appName; fileName] ::
  ((λ value, [confBasePath; appName; value; fileName]) <$> confCompatValues c).

End JsonConfig.

(** * The fan control command line (src/control/fanctl.cpp) *)

Module FanCtl.
Local Open Scope char_scope.

(** [std::string::rfind] of a one-character string: the position of the
    last occurrence, [None] for [npos]. *)
Fixpoint rfind (c : ascii) (s : string) : option nat :=
  match s with
  | EmptyString => None
  | String a s' =>
      match rfind c s' with
      | Some i => Some (S i)
      | None => if Ascii.eqb a c then Some 0%nat else None
      end
  end.

(** [std::string::substr(pos)]: the rest of the string from [pos]; it
    throws [std::out_of_range] ([None]) when [pos] is greater than the
    size. *)
Fixpoint substr (pos : nat) (s : string) : option string :=
  match pos with
  | O => Some s
  | S pos' =>
      match s with
      | EmptyString => None
      | String _ s' => substr pos' s'
      end
  end.

(** [std::string::substr(0, n)], [n] being a position or [npos]: the first
    [n] characters, the whole string when there are fewer. *)
Fixpoint substr0 (n : option nat) (s : string) : string :=
  match n, s with
  | None, _ => s
  | Some O, _ => EmptyString
  | Some (S n'), String a s' => String a (substr0 (Some n') s')
  | Some (S _), EmptyString => EmptyString
  end.

(** Whether [p] is at the start of [s]. *)
Fixpoint startsWith (p s : string) : bool :=
  match p, s with
  | EmptyString, _ => true
  | String a p', String b s' => Ascii.eqb a b && startsWith p' s'
  | String _ _, EmptyString => false
  end.

(** [std::string::find]: the position of the first occurrence of [p] in
    [s], [None] for [npos]. *)
Fixpoint find (p s : string) : option nat :=
  if startsWith p s then Some 0%nat
  else
    match s with
    | EmptyString => None
    | String _ s' => S <$> find p s'
    end.

(** [justFanName]; [None] when [substr] throws. *)
Definition justFanName (path : string) : option string :=
  match rfind "/" path with
  | Some itr =>
      if (itr <? String.length path)%nat then substr (1 + itr) path
      else Some EmptyString
  | None => Some EmptyString
  end.

(** The test of the inner loop of [getPathsFromIface]. *)
Definition selects (shortPath : bool) (fan path : string) : bool :=
  if shortPath then bool_decide (justFanName path = Some fan)
  else bool_decide (is_Some (find (fan +:+ "_") path)).

(** [dest[fan].push_back(path)]: the map is kept as the list of its
    entries, in the order in which the keys were inserted; a key that is not
    there yet gets an entry with an empty vector first. *)
Fixpoint push_back (fan path : string) (dest : list (string * list string)) :
    list (string * list string) :=
  match dest with
  | [] => [(fan, [path])]
  | kv :: dest' =>
      if bool_decide (kv.1 = fan) then (kv.1, kv.2 ++ [path]) :: dest'
      else kv :: push_back fan path dest'
  end.

(** The inner loop of [getPathsFromIface], over the fans. *)
Definition inner (shortPath : bool) (path : string) (fans : list string)
    (dest : list (string * list string)) : list (string * list string) :=
  foldl (λ dest fan, if selects shortPath fan path then push_back fan path dest else dest)
        dest fans.

(** [getPathsFromIface], from the paths that [getSubTreePathsRaw] returns. *)
Definition getPathsFromIface (subTreePaths fans : list string) (shortPath : bool) :
    list (string * list string) :=
  foldl (λ dest path, inner shortPath path fans dest) [] subTreePaths.

(** The entry of a key, if there is one. *)
Definition entry (fan : string) (dest : list (string * list string)) :
    option (list string) :=
  snd <$> List.find (λ kv, bool_decide (kv.1 = fan)) dest.

(** The paths that the loops push for a fan: each selected path, once for
    every occurrence of the fan in [fans]. *)
Definition pushed (subTreePaths fans : list string) (shortPath : bool) (fan : string) :
    list string :=
  flat_map (λ path,
              if selects shortPath fan path
              then replicate (length (filter (λ x, x = fan) fans)) path
              else [])
           subTreePaths.

(** The fan name that [status] takes from a tach sensor path: the last
    token up to its last underscore. *)
Definition fanOf (path : string) : option string :=
  fan ← justFanName path; Some (substr0 (rfind "_" fan) fan).

End FanCtl.

(** The fan-missing timer is armed only while the chassis is powered. *)
Definition missingGated (w : World) : Prop :=
  isEnabled (Fan.fanMissingErrorTimer (fan w)) = true → power w = true.
(** * Reasoning about member functions *)

Lemma wp_ret {A} (a : A) Q f : Q a f [] → wp (mret a) Q f.
Proof. exact id. Qed.

Lemma wp_bind {A B} (m : M A) (k : A → M B) Q f :
  wp m (λ a f1 o1, wp (k a) (λ b f2 o2, Q b f2 (o1 ++ o2)) f1) f →
  wp (m ≫= k) Q f.
Proof. exact id. Qed.

Lemma wp_get Q f : Q f f [] → wp get Q f.
Proof. exact id. Qed.

Lemma wp_modify g Q f : Q tt (g f) [] → wp (modify g) Q f.
Proof. exact id. Qed.

Lemma wp_emit o Q f : Q tt f [o] → wp (emit o) Q f.
Proof. exact id. Qed.

Lemma wp_sensor i Q f : Q (Fan.sensors f !!! i) f [] → wp (sensor i) Q f.
Proof. exact id. Qed.

Lemma wp_modifySensor i g Q f :
  Q tt (Fan.set_sensors (alter g i (Fan.sensors f)) f) [] → wp (modifySensor i g) Q f.
Proof. exact id. Qed.

Lemma wp_when (b : bool) m Q f :
  (b = true → wp m Q f) → (b = false → Q tt f []) → wp (when b m) Q f.
Proof. destruct b; unfold when; auto using wp_ret. Qed.

Lemma wp_mono {A} (m : M A) (Q Q' : A → Fan.t → list Output → Prop) f :
  wp m Q f → (∀ a f' o, Q a f' o → Q' a f' o) → wp m Q' f.
Proof. unfold wp; auto. Qed.

Lemma wp_exec {A} (m : M A) (P : Fan.t → Prop) f :
  wp m (λ _ f' _, P f') f → P (exec m f).
Proof. exact id. Qed.

Lemma wp_unit (m : M unit) Q f : Q tt (exec m f) (trace m f) → wp m Q f.
Proof. unfold wp. by destruct (result m f). Qed.

(** A loop keeps what every turn of its body keeps. *)
Lemma wp_for_each {A} (I : Fan.t → list Output → Prop) (l : list A) body :
  (∀ x f o, x ∈ l → I f o →
     wp (body x) (λ _ f' o', I f' (o ++ o')) f) →
  ∀ f o, I f o → wp (for_each l body) (λ _ f' o', I f' (o ++ o')) f.
Proof.
  induction l as [|x l IH]; intros Hbody f o HI; simpl.
  - apply wp_ret. by rewrite app_nil_r.
  - apply wp_bind. eapply wp_mono; [apply (Hbody x f o); [left|done]|].
    intros [] f1 o1 H1. cbn beta.
    eapply wp_mono; [apply (IH (λ y f2 o2 Hy, Hbody y f2 o2 (list_elem_of_further _ _ _ Hy)) f1 _ H1)|].
    intros [] f2 o2. by rewrite app_assoc.
Qed.

Lemma wp_for_each_sensor (I : Fan.t → list Output → Prop) body f :
  (∀ i f' o, (i < length (Fan.sensors f))%nat → I f' o →
     wp (body i) (λ _ f'' o', I f'' (o ++ o')) f') →
  I f [] → wp (for_each_sensor body) (λ _ f' o, I f' o) f.
Proof.
  intros Hbody HI. unfold for_each_sensor. apply wp_bind, wp_get. cbn beta.
  eapply wp_mono; [apply (wp_for_each I) with (o := []); [|done]|done].
  intros i f' o Hi. apply Hbody. apply elem_of_seq in Hi. lia.
Qed.

Ltac wp_step :=
  lazymatch goal with
  | |- wp (mret _) _ _ => apply wp_ret
  | |- wp (_ ≫= _) _ _ => apply wp_bind
  | |- wp get _ _ => apply wp_get
  | |- wp (modify _) _ _ => apply wp_modify
  | |- wp (emit _) _ _ => apply wp_emit
  | |- wp (sensor _) _ _ => apply wp_sensor
  | |- wp (modifySensor _ _) _ _ => apply wp_modifySensor
  | |- wp (when _ _) _ _ => apply wp_when; intros ?
  | |- wp (if ?b then _ else _) _ _ => destruct b eqn:?
  | |- wp (match ?x with timebased => _ | count => _ end) _ _ => destruct x eqn:?
  end; cbn beta.
Ltac wp_steps := repeat wp_step.

(** ** Inventory update and fan-level aggregation *)

Lemma updateInventory_eq e b f :
  updateInventory e b f =
    if notifyError e then (tt, f, [Notify (Fan.name f) b; LogErr])
    else (tt, Fan.set_functional b f, [Notify (Fan.name f) b]).
Proof.
  unfold updateInventory. cbv [mbind M_bind get emit modify fst snd].
  by destruct (notifyError e).
Qed.

Lemma wp_updateInventory e b Q f :
  (notifyError e = true → Q tt f [Notify (Fan.name f) b; LogErr]) →
  (notifyError e = false → Q tt (Fan.set_functional b f) [Notify (Fan.name f) b]) →
  wp (updateInventory e b) Q f.
Proof.
  intros H1 H2. unfold wp, result, exec, trace. rewrite updateInventory_eq.
  destruct (notifyError e); auto.
Qed.

Lemma set_functional_id f : Fan.set_functional (Fan.functional f) f = f.
Proof. by destruct f. Qed.

(** What the aggregation block does, in closed form: it acts only when the
    flag and the sensors disagree, then makes one Notify call with the
    opposite of the flag, and the flag changes when that call succeeds. *)
Lemma updateState_fan_spec e f :
  wp (updateState_fan e) (λ _ f' o,
    f' = (if crossing f && negb (notifyError e)
          then Fan.set_functional (negb (Fan.functional f)) f else f) ∧
    o = (if crossing f
         then LogEvent :: Notify (Fan.name f) (negb (Fan.functional f)) ::
              (if notifyError e then [LogErr] else [])
         else [])) f.
Proof.
  unfold updateState_fan, crossing.
  wp_step. wp_step. wp_step.
  2:{ by rewrite H. }
  rewrite H. cbn [andb].
  destruct (Fan.functional f) eqn:Hf;
    destruct (Fan.numSensorFailsForNonFunc f <=? countNonFunctionalSensors f) eqn:Hn;
    cbn [negb andb eqb].
  all: wp_steps; try discriminate.
  all: repeat match goal with
       | |- wp (updateInventory _ _) _ _ => apply wp_updateInventory; intros ?; cbn beta
       | H : _ = _ |- _ => rewrite H
       | _ => wp_step
       end; cbn; try done.
  all: cbn in *; rewrite ?Hf, ?Hn in *; cbn in *; discriminate.
Qed.

Lemma wp_eq {A} (m : M A) a f' o (Q : A → Fan.t → list Output → Prop) f :
  m f = (a, f', o) → Q a f' o → wp m Q f.
Proof. unfold wp, result, exec, trace. by intros ->. Qed.

Lemma wp_eq_run {A} (m : M A) r (Q : A → Fan.t → list Output → Prop) f :
  m f = r → Q r.1.1 r.1.2 r.2 → wp m Q f.
Proof. unfold wp, result, exec, trace. by intros ->. Qed.

Lemma run_eq (m : M unit) f : m f = (tt, exec m f, trace m f).
Proof. unfold exec, trace. by destruct (m f) as [[[] ?] ?]. Qed.

Lemma updateState_fan_eq e f :
  updateState_fan e f = (tt, aggregated e f, aggregated_calls e f).
Proof.
  rewrite (run_eq (updateState_fan e) f).
  by destruct (updateState_fan_spec e f) as [-> ->].
Qed.

Lemma updateState_off e i f :
  isPowerOn e = false → updateState e i f = (tt, f, []).
Proof. unfold updateState. by intros ->. Qed.

Lemma updateState_on e i f :
  isPowerOn e = true →
  updateState e i f =
    let f1 := Fan.set_sensors (alter toggle i (Fan.sensors f)) f in
    (tt, aggregated e f1,
     LogEvent :: aggregated_calls e f1 ++ [FanStatusChange (Fan.name f) false]).
Proof.
  intros Hp. unfold updateState. rewrite Hp. cbn [negb].
  cbv [mbind M_bind modifySensor modify emit get fst snd].
  rewrite updateState_fan_eq. cbn.
  unfold aggregated. by destruct (_ && _).
Qed.

(** ** [Fan::process] in closed form *)

Lemma lookup_total_Some (l : list TachSensor.t) i x : l !! i = Some x → l !!! i = x.
Proof. apply list_lookup_total_correct. Qed.

Lemma alterSensor_ext g h i f :
  (∀ x, Fan.sensors f !! i = Some x → g x = h x) → alterSensor g i f = alterSensor h i f.
Proof. intros H. unfold alterSensor. f_equal. by apply list_alter_ext. Qed.

Lemma alterSensor_alterSensor g h i f :
  alterSensor g i (alterSensor h i f) = alterSensor (g ∘ h) i f.
Proof. unfold alterSensor; cbn. by rewrite list_alter_alter_eq. Qed.

Lemma list_alter_fix (g : TachSensor.t → TachSensor.t) (i : nat) (l : list TachSensor.t) :
  (∀ x, l !! i = Some x → g x = x) → alter g i l = l.
Proof. intros H. by rewrite (list_alter_ext g id _ l i), list_alter_id. Qed.

Lemma alterSensor_id g i f :
  (∀ x, Fan.sensors f !! i = Some x → g x = x) → alterSensor g i f = f.
Proof. intros H. unfold alterSensor. rewrite list_alter_fix; by destruct f. Qed.

Lemma lookup_alterSensor g i f x :
  Fan.sensors f !! i = Some x → Fan.sensors (alterSensor g i f) !!! i = g x.
Proof.
  intros Hx. cbn. rewrite list_lookup_total_alter_eq by (by eapply lookup_lt_Some).
  by rewrite (lookup_total_Some _ _ _ Hx).
Qed.

Lemma process_eq e i f x :
  Fan.sensors f !! i = Some x →
  process e i f =
    let f1 := alterSensor (process_sensor e f) i f in
    if flips e f x
    then (tt, aggregated e f1,
          LogEvent :: aggregated_calls e f1 ++ [FanStatusChange (Fan.name f) false])
    else (tt, f1, []).
Proof.
  intros Hx. pose proof (lookup_total_Some _ _ _ Hx) as Hs.
  cbv zeta. set (f1 := alterSensor (process_sensor e f) i f).
  set (fl := flips e f x).
  assert (∀ g, g x = process_sensor e f x → alterSensor g i f = f1) as Hf1.
  { intros g Hg. apply alterSensor_ext. intros y Hy. congruence. }
  assert (∀ v, process_sensor e f x = v →
               fl = negb (eqb (TachSensor.functional x) (TachSensor.functional v))) as Hfl.
  { intros v <-. done. }
  clearbody f1 fl.
  rewrite (run_eq (process e i) f).
  enough (wp (process e i) (λ _ f' o,
    (f', o) = if fl
      then (aggregated e f1,
            LogEvent :: aggregated_calls e f1 ++ [FanStatusChange (Fan.name f) false])
      else (f1, [])) f) as Hwp.
  { unfold wp in Hwp. by destruct fl; apply (f_equal (λ p, (tt, p.1, p.2))) in Hwp. }
  pose proof (eq_refl (process_sensor e f x)) as Hps. unfold process_sensor at 1 in Hps.
  unfold process. wp_step. wp_step. wp_step. wp_step. rewrite Hs.
  unfold TachSensor.getMethod, TachSensor.getThreshold, TachSensor.getCounter.
  destruct (outOfRange e f x) eqn:Hout; [destruct (TachSensor.functional x) eqn:Hfx|];
    [destruct (TachSensor.method x) eqn:Hm| |destruct (TachSensor.method x) eqn:Hm].
  - wp_step. fold (alterSensor (TachSensor.startTimer nonfunc) i f).
    rewrite (Hfl _ (eq_sym Hps)), (Hf1 (TachSensor.startTimer nonfunc) Hps).
    unfold TachSensor.startTimer. by case_bool_decide; cbn; rewrite ?Hfx.
  - wp_step. wp_step. wp_step. wp_step.
    fold (alterSensor (TachSensor.setCounter true) i f).
    rewrite (lookup_alterSensor _ _ _ _ Hx).
    cbv zeta in Hps. set (s' := TachSensor.setCounter true x) in *.
    assert (TachSensor.functional s' = true) as Hfs' by done.
    destruct (TachSensor.threshold s' <=? TachSensor.counter s') eqn:Hc;
      [destruct (isPowerOn e) eqn:Hp|]; cbn [andb when] in *.
    + eapply wp_eq; [by apply updateState_on|]. cbv zeta.
      rewrite (Hfl _ (eq_sym Hps)).
      fold (alterSensor toggle i (alterSensor (TachSensor.setCounter true) i f)).
      rewrite alterSensor_alterSensor, (Hf1 (toggle ∘ TachSensor.setCounter true) Hps).
      by cbn; rewrite Hfx.
    + eapply wp_eq; [by apply updateState_off|].
      rewrite (Hfl _ (eq_sym Hps)), (Hf1 (TachSensor.setCounter true) Hps), Hfs'. by cbn.
    + wp_step.
      rewrite (Hfl _ (eq_sym Hps)), (Hf1 (TachSensor.setCounter true) Hps), Hfs'. by cbn.
  - wp_step. rewrite (Hfl _ (eq_sym Hps)), Hfx. cbn.
    by rewrite <- (Hf1 id Hps), alterSensor_id.
  - destruct (TachSensor.functional x) eqn:Hfx;
      [destruct (TachSensor.timerRunning x) eqn:Ht|]; cbn [when]; wp_step.
    + fold (alterSensor TachSensor.stopTimer i f).
      rewrite (Hfl _ (eq_sym Hps)), (Hf1 TachSensor.stopTimer Hps). by cbn; rewrite Hfx.
    + rewrite (Hfl _ (eq_sym Hps)), Hfx. cbn.
      by rewrite <- (Hf1 id Hps), alterSensor_id.
    + fold (alterSensor (TachSensor.startTimer func) i f).
      rewrite (Hfl _ (eq_sym Hps)), (Hf1 (TachSensor.startTimer func) Hps).
      unfold TachSensor.startTimer. case_bool_decide; cbn; by rewrite Hfx.
  - wp_step. wp_step. wp_step. wp_step.
    fold (alterSensor (TachSensor.setCounter false) i f).
    rewrite (lookup_alterSensor _ _ _ _ Hx).
    cbv zeta in Hps. set (s' := TachSensor.setCounter false x) in *.
    assert (TachSensor.functional s' = TachSensor.functional x) as Hfs' by done.
    destruct (negb (TachSensor.functional s') && (TachSensor.counter s' =? 0)) eqn:Hc;
      [destruct (isPowerOn e) eqn:Hp|]; cbn [andb when] in *.
    + eapply wp_eq; [by apply updateState_on|]. cbv zeta.
      rewrite (Hfl _ (eq_sym Hps)).
      fold (alterSensor toggle i (alterSensor (TachSensor.setCounter false) i f)).
      rewrite alterSensor_alterSensor, (Hf1 (toggle ∘ TachSensor.setCounter false) Hps).
      cbn. rewrite <- Hfs'. by destruct (TachSensor.functional s').
    + eapply wp_eq; [by apply updateState_off|].
      rewrite (Hfl _ (eq_sym Hps)), (Hf1 (TachSensor.setCounter false) Hps), Hfs'.
      by destruct (TachSensor.functional x).
    + wp_step.
      rewrite (Hfl _ (eq_sym Hps)), (Hf1 (TachSensor.setCounter false) Hps), Hfs'.
      by destruct (TachSensor.functional x).
Qed.

(** ** Counting non-functional sensors *)

Lemma count_flags f f' :
  sensorFlags f = sensorFlags f' →
  countNonFunctionalSensors f = countNonFunctionalSensors f'.
Proof.
  unfold sensorFlags, countNonFunctionalSensors.
  generalize (Fan.sensors f) (Fan.sensors f'). clear. intros l.
  induction l as [|x l IH]; intros [|y l'] H; try done.
  injection H as Hxy Hl. specialize (IH _ Hl).
  rewrite !filter_cons. rewrite Hxy.
  destruct (decide (TachSensor.functional y = false)); cbn; lia.
Qed.

Lemma count_alter_le (g : TachSensor.t → TachSensor.t) i f :
  (∀ x, TachSensor.functional (g x) = false → TachSensor.functional x = false) →
  countNonFunctionalSensors (alterSensor g i f) ≤ countNonFunctionalSensors f.
Proof.
  intros Hg. unfold countNonFunctionalSensors, alterSensor. cbn.
  generalize (Fan.sensors f). clear f. intros l. revert i.
  induction l as [|x l IH]; intros [|i]; try done.
  - change (alter g 0%nat (x :: l)) with (g x :: l). rewrite !filter_cons.
    destruct (decide (TachSensor.functional (g x) = false)) as [H|H];
      destruct (decide (TachSensor.functional x = false)) as [H'|H'];
      rewrite ?length_cons; try lia.
    by apply Hg in H.
  - change (alter g (S i) (x :: l)) with (x :: alter g i l).
    specialize (IH i). rewrite !filter_cons.
    destruct (decide (TachSensor.functional x = false)); rewrite ?length_cons; lia.
Qed.

Lemma count_alter_ge (g : TachSensor.t → TachSensor.t) i f :
  (∀ x, TachSensor.functional x = false → TachSensor.functional (g x) = false) →
  countNonFunctionalSensors f ≤ countNonFunctionalSensors (alterSensor g i f).
Proof.
  intros Hg. unfold countNonFunctionalSensors, alterSensor. cbn.
  generalize (Fan.sensors f). clear f. intros l. revert i.
  induction l as [|x l IH]; intros [|i]; try done.
  - change (alter g 0%nat (x :: l)) with (g x :: l). rewrite !filter_cons.
    destruct (decide (TachSensor.functional (g x) = false)) as [H|H];
      destruct (decide (TachSensor.functional x = false)) as [H'|H'];
      rewrite ?length_cons; try lia.
    by apply Hg in H'.
  - change (alter g (S i) (x :: l)) with (x :: alter g i l).
    specialize (IH i). rewrite !filter_cons.
    destruct (decide (TachSensor.functional x = false)); rewrite ?length_cons; lia.
Qed.

Lemma sensorFlags_alterSensor (g : TachSensor.t → TachSensor.t) i f :
  (∀ x, TachSensor.functional (g x) = TachSensor.functional x) →
  sensorFlags (alterSensor g i f) = sensorFlags f.
Proof.
  intros Hg. unfold sensorFlags, alterSensor. cbn.
  rewrite (list_fmap_alter _ g id); [by rewrite list_alter_id|].
  by apply Forall_forall.
Qed.

(** ** The aggregation in closed form *)

Lemma aggregated_cases e f : ∃ b, aggregated e f = Fan.set_functional b f.
Proof.
  unfold aggregated. destruct (_ && _); eauto.
  exists (Fan.functional f). by rewrite set_functional_id.
Qed.

Lemma sensors_aggregated e f : Fan.sensors (aggregated e f) = Fan.sensors f.
Proof. by destruct (aggregated_cases e f) as [b ->]. Qed.

Lemma sensorFlags_aggregated e f : sensorFlags (aggregated e f) = sensorFlags f.
Proof. unfold sensorFlags. by rewrite sensors_aggregated. Qed.

Lemma count_aggregated e f :
  countNonFunctionalSensors (aggregated e f) = countNonFunctionalSensors f.
Proof. apply count_flags, sensorFlags_aggregated. Qed.

Lemma crossing_false_consistent f :
  Fan.numSensorFailsForNonFunc f ≠ 0 → crossing f = false ↔ consistent f.
Proof.
  intros Hthr. unfold crossing, consistent.
  rewrite bool_decide_eq_true_2 by done. cbn [andb].
  destruct (Fan.functional f);
    destruct (N.leb_spec (Fan.numSensorFailsForNonFunc f) (countNonFunctionalSensors f));
    cbn; split; try done; try lia; intros [H1 H2]; try lia.
Qed.

Lemma crossing_zero f : Fan.numSensorFailsForNonFunc f = 0 → crossing f = false.
Proof. intros H. unfold crossing. by rewrite bool_decide_eq_false_2 by tauto. Qed.

Lemma aggregated_zero e f : Fan.numSensorFailsForNonFunc f = 0 → aggregated e f = f.
Proof. intros H. unfold aggregated. by rewrite crossing_zero. Qed.

Lemma aggregated_delivered e f :
  notifyError e = false → crossing (aggregated e f) = false.
Proof.
  intros He. unfold aggregated. rewrite He. cbn [negb]. rewrite andb_true_r.
  destruct (crossing f) eqn:Hc; [|done].
  unfold crossing in *. cbn.
  change (countNonFunctionalSensors (Fan.set_functional _ f))
    with (countNonFunctionalSensors f).
  destruct (bool_decide _); [|done]. cbn in *.
  by destruct (Fan.functional f), (_ <=? _).
Qed.

Lemma aggregated_consistent e f :
  notifyError e = false → Fan.numSensorFailsForNonFunc f ≠ 0 →
  consistent (aggregated e f).
Proof.
  intros He Hthr. apply crossing_false_consistent.
  - by destruct (aggregated_cases e f) as [b ->].
  - by apply aggregated_delivered.
Qed.

(** ** Loops over the sensors *)

Lemma exec_bind {A B} (m : M A) (k : A → M B) f :
  exec (m ≫= k) f = exec (k (result m f)) (exec m f).
Proof. done. Qed.

Lemma trace_bind {A B} (m : M A) (k : A → M B) f :
  trace (m ≫= k) f = trace m f ++ trace (k (result m f)) (exec m f).
Proof. done. Qed.

(** A loop whose body rewrites the sensor it visits by [g], and keeps [P],
    maps [g] over the sensors. *)
Lemma for_each_seq_lookup (P : Fan.t → Prop) (g : TachSensor.t → TachSensor.t) body :
  (∀ i f x, P f → Fan.sensors f !! i = Some x →
     Fan.sensors (exec (body i) f) = alter g i (Fan.sensors f) ∧ P (exec (body i) f)) →
  ∀ n k f, P f → (k + n ≤ length (Fan.sensors f))%nat →
    P (exec (for_each (seq k n) body) f) ∧
    ∀ j, Fan.sensors (exec (for_each (seq k n) body) f) !! j =
         if decide (k ≤ j < k + n)%nat then g <$> Fan.sensors f !! j
         else Fan.sensors f !! j.
Proof.
  intros Hbody. induction n as [|n IH]; intros k f HP Hlen.
  - split; [done|]. intros j. case_decide; [lia|done].
  - cbn [seq for_each]. rewrite exec_bind.
    destruct (lookup_lt_is_Some_2 (Fan.sensors f) k ltac:(lia)) as [x Hx].
    destruct (Hbody k f x HP Hx) as [Hs HP1].
    destruct (IH (S k) _ HP1) as [HP2 Hl].
    { rewrite Hs, length_alter. lia. }
    split; [done|]. intros j. rewrite Hl, Hs, list_lookup_alter.
    repeat case_decide; subst; try lia; done.
Qed.

Lemma for_each_sensor_fmap (P : Fan.t → Prop) (g : TachSensor.t → TachSensor.t) body f :
  (∀ i f x, P f → Fan.sensors f !! i = Some x →
     Fan.sensors (exec (body i) f) = alter g i (Fan.sensors f) ∧ P (exec (body i) f)) →
  P f →
  Fan.sensors (exec (for_each_sensor body) f) = g <$> Fan.sensors f ∧
  P (exec (for_each_sensor body) f).
Proof.
  intros Hbody HP.
  destruct (for_each_seq_lookup P g body Hbody (length (Fan.sensors f)) 0 f HP)
    as [HP' Hl]; [lia|].
  split; [|done]. apply list_eq. intros j.
  change (exec (for_each_sensor body) f)
    with (exec (for_each (seq 0 (length (Fan.sensors f))) body) f).
  rewrite Hl, list_lookup_fmap. case_decide; [done|].
  rewrite (lookup_ge_None_2 (Fan.sensors f) j) by lia. done.
Qed.

Lemma outOfRange_deviation e f f' s :
  Fan.deviation f = Fan.deviation f' → outOfRange e f s = outOfRange e f' s.
Proof. unfold outOfRange. by intros ->. Qed.

Lemma process_sensor_deviation e f f' s :
  Fan.deviation f = Fan.deviation f' → process_sensor e f s = process_sensor e f' s.
Proof.
  intros H. unfold process_sensor. by rewrite (outOfRange_deviation e f f' s H).
Qed.

Lemma deviation_aggregated e f : Fan.deviation (aggregated e f) = Fan.deviation f.
Proof. by destruct (aggregated_cases e f) as [b ->]. Qed.

Lemma exec_process e i f x :
  Fan.sensors f !! i = Some x →
  exec (process e i) f =
    if flips e f x then aggregated e (alterSensor (process_sensor e f) i f)
    else alterSensor (process_sensor e f) i f.
Proof. intros Hx. unfold exec. rewrite (process_eq e i f x Hx). by destruct (flips e f x). Qed.

Lemma sensors_process e i f x :
  Fan.sensors f !! i = Some x →
  Fan.sensors (exec (process e i) f) = alter (process_sensor e f) i (Fan.sensors f).
Proof.
  intros Hx. rewrite (exec_process e i f x Hx).
  destruct (flips e f x); by rewrite ?sensors_aggregated.
Qed.

Lemma deviation_process e i f x :
  Fan.sensors f !! i = Some x →
  Fan.deviation (exec (process e i) f) = Fan.deviation f.
Proof.
  intros Hx. rewrite (exec_process e i f x Hx).
  destruct (flips e f x); by rewrite ?deviation_aggregated.
Qed.

(** The count tick, sensor by sensor. *)
Lemma sensors_countTimerExpired e f :
  Fan.sensors (exec (countTimerExpired e) f) = tick_sensor e f <$> Fan.sensors f.
Proof.
  unfold countTimerExpired.
  apply (for_each_sensor_fmap (λ f', Fan.deviation f' = Fan.deviation f)); [|done].
  intros i f' x Hdev Hx. unfold countTimerExpired_each. rewrite exec_bind.
  change (result (sensor i) f') with (Fan.sensors f' !!! i).
  change (exec (sensor i) f') with f'.
  rewrite (lookup_total_Some _ _ _ Hx).
  destruct (trustActive e && negb (checkTrust e x)) eqn:Hg.
  - split; [|done]. change (exec (mret ()) f') with f'.
    rewrite list_alter_fix; [done|].
    intros y Hy. assert (y = x) as -> by congruence.
    unfold tick_sensor. by rewrite Hg.
  - rewrite (sensors_process e i f' x Hx), (deviation_process e i f' x Hx).
    split; [|done]. apply list_alter_ext; [|done].
    intros y Hy. assert (y = x) as -> by congruence.
    unfold tick_sensor. rewrite Hg. by apply process_sensor_deviation.
Qed.

Lemma alterSensor_insert g i f x :
  Fan.sensors f !! i = Some x →
  alterSensor g i f = Fan.set_sensors (<[i:=g x]> (Fan.sensors f)) f.
Proof.
  intros Hx. unfold alterSensor. f_equal. rewrite list_insert_alter.
  apply list_alter_ext; [|done]. congruence.
Qed.

Lemma set_sensors_id f : Fan.set_sensors (Fan.sensors f) f = f.
Proof. by destruct f. Qed.

Lemma insert_same f i x :
  Fan.sensors f !! i = Some x → Fan.set_sensors (<[i:=x]> (Fan.sensors f)) f = f.
Proof. intros Hx. by rewrite list_insert_id, set_sensors_id. Qed.

(** [Fan::process] on a sensor whose functional flag it leaves alone. *)
Lemma process_quiet e i f x :
  Fan.sensors f !! i = Some x →
  TachSensor.functional (process_sensor e f x) = TachSensor.functional x →
  process e i f =
    (tt, Fan.set_sensors (<[i:=process_sensor e f x]> (Fan.sensors f)) f, []).
Proof.
  intros Hx Hf. rewrite (process_eq e i f x Hx). cbv zeta.
  unfold flips. rewrite Hf, eqb_reflx. cbn [negb].
  by rewrite (alterSensor_insert _ _ _ _ Hx).
Qed.

(** * The time-based method *)

(** C5: for a time-based sensor handed to [Fan::process]: functional and out
    of range, the non-functional timer is started, which changes nothing when
    that timer is already pending; functional and in range, a running timer
    is stopped and the sensor stays functional; non-functional and in range,
    the functional (recovery) timer is started; non-functional and out of
    range, nothing is done.  No call is made in any of these cases. *)
Theorem process_timebased e i f s :
  Fan.sensors f !! i = Some s →
  TachSensor.method s = timebased →
  (TachSensor.functional s = true → outOfRange e f s = true →
     process e i f =
       (tt, Fan.set_sensors (<[i:=TachSensor.set_timer (Some nonfunc) s]> (Fan.sensors f)) f, []) ∧
     (TachSensor.timer s = Some nonfunc → process e i f = (tt, f, []))) ∧
  (TachSensor.functional s = true → outOfRange e f s = false →
     TachSensor.timerRunning s = true →
     process e i f =
       (tt, Fan.set_sensors (<[i:=TachSensor.set_timer None s]> (Fan.sensors f)) f, []) ∧
     TachSensor.functional (TachSensor.set_timer None s) = true) ∧
  (TachSensor.functional s = false → outOfRange e f s = false →
     process e i f =
       (tt, Fan.set_sensors (<[i:=TachSensor.set_timer (Some func) s]> (Fan.sensors f)) f, []) ∧
     (TachSensor.timer s = Some func → process e i f = (tt, f, []))) ∧
  (TachSensor.functional s = false → outOfRange e f s = true →
     process e i f = (tt, f, [])).
Proof.
  intros Hs Hm.
  assert (∀ m, TachSensor.timer s = Some m → TachSensor.set_timer (Some m) s = s) as Hsame.
  { intros m Ht. destruct s; cbn in *. by rewrite Ht. }
  assert (∀ m, TachSensor.startTimer m s = TachSensor.set_timer (Some m) s) as Hstart.
  { intros m. unfold TachSensor.startTimer. case_bool_decide; [|done]. by rewrite Hsame. }
  split; [|split; [|split]].
  - intros Hf Ho. split; [|intros Ht].
    + rewrite (process_quiet e i f s Hs);
        unfold process_sensor; rewrite Ho, Hf, Hm, Hstart; done.
    + rewrite (process_quiet e i f s Hs);
        unfold process_sensor; rewrite Ho, Hf, Hm, Hstart, ?(Hsame _ Ht); [|done].
      by rewrite insert_same.
  - intros Hf Ho Ht. split; [|done].
    rewrite (process_quiet e i f s Hs);
      unfold process_sensor; rewrite Ho, Hf, Hm, Ht; done.
  - intros Hf Ho. split; [|intros Ht].
    + rewrite (process_quiet e i f s Hs);
        unfold process_sensor; rewrite Ho, Hf, Hm, Hstart; done.
    + rewrite (process_quiet e i f s Hs);
        unfold process_sensor; rewrite Ho, Hf, Hm, Hstart, ?(Hsame _ Ht); [|done].
      by rewrite insert_same.
  - intros Hf Ho. rewrite (process_quiet e i f s Hs);
      unfold process_sensor; rewrite Ho, Hf; [|done].
    by rewrite insert_same.
Qed.

Lemma process_timebased_witness :
  process (onBus true false) 0
    (fan0 [rotor "A" timebased 600 true 0 None] 2 true true true None) =
  (tt, fan0 [rotor "A" timebased 600 true 0 (Some nonfunc)] 2 true true true None, []).
Proof.
  destruct (process_timebased (onBus true false) 0
              (fan0 [rotor "A" timebased 600 true 0 None] 2 true true true None)
              (rotor "A" timebased 600 true 0 None) eq_refl eq_refl) as [H _].
  destruct (H eq_refl eq_refl) as [H1 _]. exact H1.
Defined.

(** * What the member functions do to the sensors

    Whatever relation [R] between the old and the new state of a sensor is
    kept by the operations of [TachSensor] that a member function applies
    holds between the sensors before and after that member function. *)

Section SensorRelation.
Variable R : TachSensor.t → TachSensor.t → Prop.
Hypothesis R_refl : ∀ x, R x x.
Hypothesis R_trans : ∀ x y z, R x y → R y z → R x z.
Variable e : Env.
Hypothesis R_toggle : isPowerOn e = true → ∀ x, R x (toggle x).
Hypothesis R_setCounter : ∀ b x, R x (TachSensor.setCounter b x).
Hypothesis R_startTimer : ∀ m x, R x (TachSensor.startTimer m x).
Hypothesis R_stopTimer : ∀ x, R x (TachSensor.stopTimer x).
Hypothesis R_setTachAndTarget : ∀ a b x, R x (TachSensor.setTachAndTarget a b x).
Hypothesis R_setFunctional_false :
  ∀ x, getProperty e (TachSensor.name x) = None → R x (TachSensor.setFunctional false x).
Hypothesis R_setFunctional_true :
  ∀ x, is_Some (getProperty e (TachSensor.name x)) → R x (TachSensor.setFunctional true x).
Hypothesis R_resetMethod : ∀ x, R x (TachSensor.resetMethod x).

Lemma rel_refl f : rel R (Fan.sensors f) f.
Proof using R_refl. by apply Forall_Forall2_diag, Forall_forall. Qed.

Lemma rel_alter l0 g i f :
  (∀ x, Fan.sensors f !! i = Some x → R x (g x)) →
  rel R l0 f → rel R l0 (Fan.set_sensors (alter g i (Fan.sensors f)) f).
Proof using R_trans.
  unfold rel. cbn. generalize (Fan.sensors f). clear f. intros l Hg H.
  revert i Hg. induction H as [|x y l0 l Hxy H IH]; intros [|i] Hg; cbn; try done.
  - constructor; [|done]. eapply R_trans; [exact Hxy|]. by apply Hg.
  - constructor; [done|]. apply IH. intros z Hz. by apply Hg.
Qed.

Lemma rel_updateInventory l0 b f :
  rel R l0 f → wp (updateInventory e b) (λ _ f' _, rel R l0 f') f.
Proof. intros H. by apply wp_updateInventory. Qed.

Lemma rel_updateState l0 i f :
  rel R l0 f → wp (updateState e i) (λ _ f' _, rel R l0 f') f.
Proof using R_toggle R_trans.
  intros H. unfold updateState. wp_step; [by wp_step|].
  wp_step. wp_step. wp_step. wp_step. wp_step.
  eapply wp_eq; [apply updateState_fan_eq|]. wp_step. wp_step. wp_step.
  unfold rel. rewrite sensors_aggregated. apply rel_alter; [|done].
  intros x _. apply R_toggle. by destruct (isPowerOn e).
Qed.

Lemma rel_process l0 i f :
  rel R l0 f → wp (process e i) (λ _ f' _, rel R l0 f') f.
Proof using R_toggle R_trans R_setCounter R_startTimer R_stopTimer.
  intros H. unfold process. wp_steps.
  all: try (apply rel_alter; [by auto|done]); try done.
  all: eapply wp_mono; [apply rel_updateState; apply rel_alter; [by auto|done]|done].
Qed.

Lemma rel_tachChanged l0 i f :
  rel R l0 f → wp (tachChanged e i) (λ _ f' _, rel R l0 f') f.
Proof using R_toggle R_trans R_setCounter R_startTimer R_stopTimer.
  intros H. unfold tachChanged. wp_steps; try done.
  eapply wp_mono; [by apply rel_process|done].
Qed.

Lemma rel_for_each_sensor l0 body f :
  (∀ i f', rel R l0 f' → wp (body i) (λ _ f'' _, rel R l0 f'') f') →
  rel R l0 f → wp (for_each_sensor body) (λ _ f' _, rel R l0 f') f.
Proof.
  intros Hbody H.
  apply (wp_for_each_sensor (λ f' _, rel R l0 f')); [|done].
  intros i f' o _ H'. by apply Hbody.
Qed.

Lemma rel_countTimerExpired l0 f :
  rel R l0 f → wp (countTimerExpired e) (λ _ f' _, rel R l0 f') f.
Proof using R_toggle R_trans R_setCounter R_startTimer R_stopTimer.
  intros H. unfold countTimerExpired. apply rel_for_each_sensor; [|done].
  intros i f' H'. unfold countTimerExpired_each. wp_steps; [done|].
  eapply wp_mono; [by apply rel_process|done].
Qed.

Lemma rel_startMonitor l0 f :
  rel R l0 f → wp (startMonitor e) (λ _ f' _, rel R l0 f') f.
Proof using R_toggle R_trans R_setCounter R_startTimer R_stopTimer
  R_setTachAndTarget R_setFunctional_false.
  intros H. unfold startMonitor. wp_steps.
  all: apply rel_for_each_sensor; [|done].
  all: intros i f' H'; unfold startMonitor_each;
    wp_step; wp_step; wp_step; [|done]; wp_step; wp_step.
  all: destruct (getProperty e (TachSensor.name (Fan.sensors f' !!! i)))
         as [[a b]|] eqn:Hp.
  all: wp_steps; try (apply wp_updateInventory; intros _).
  all: try (eapply wp_mono; [apply rel_tachChanged; apply rel_alter; [by auto|done]|done]).
  all: apply rel_alter; [|done].
  all: intros x Hx; apply R_setFunctional_false;
    by rewrite <- (lookup_total_Some _ _ _ Hx).
Qed.

Lemma rel_powerOn l0 f :
  rel R l0 f → wp (powerStateChanged e true) (λ _ f' _, rel R l0 f') f.
Proof using R_trans R_setTachAndTarget R_setFunctional_true R_resetMethod.
  intros H. unfold powerStateChanged.
  wp_step. wp_step. wp_step. wp_step. wp_step; [|by wp_steps].
  wp_step.
  apply (wp_mono _ (λ _ f' _, rel R l0 f')).
  - apply rel_for_each_sensor; [|done].
    intros i f' H'. unfold powerOn_each. wp_step. wp_step. wp_step. wp_step.
    destruct (getProperty e (TachSensor.name (Fan.sensors f' !!! i))) as [[a b]|] eqn:Hp;
      [|by wp_step].
    assert (∀ x, Fan.sensors f' !! i = Some x →
                 is_Some (getProperty e (TachSensor.name x))) as Hsome.
    { intros x Hx. rewrite <- (lookup_total_Some _ _ _ Hx), Hp. eauto. }
    wp_steps.
    all: repeat (apply rel_alter;
                 [intros x Hx; cbn in Hx; auto|]); try done.
    all: apply R_setFunctional_true.
    all: rewrite list_lookup_alter_eq in Hx.
    all: destruct (Fan.sensors f' !! i) as [y|] eqn:Hy; [|done].
    all: injection Hx as <-; cbn; by apply Hsome.
  - intros _ f1 _ H1. wp_steps; try done. by apply wp_updateInventory.
Qed.

Lemma rel_powerOff l0 f :
  rel R l0 f → wp (powerStateChanged e false) (λ _ f' _, rel R l0 f') f.
Proof using R_trans R_stopTimer.
  intros H. unfold powerStateChanged. wp_steps.
  all: eapply wp_mono;
    [apply rel_for_each_sensor; [|done]|by intros; wp_steps].
  all: intros i f' H'; unfold powerOff_each; wp_steps; [|done];
    apply rel_alter; [by auto|done].
Qed.

Lemma rel_handle l0 ev f :
  rel R l0 f → wp (handle e ev) (λ _ f' _, rel R l0 f') f.
Proof using All.
  intros H. destruct ev; cbn [handle].
  - wp_step. wp_step.
    eapply wp_mono; [apply rel_tachChanged; apply rel_alter; [by auto|done]|done].
  - by apply rel_countTimerExpired.
  - wp_step. wp_step.
    eapply wp_mono; [apply rel_updateState; apply rel_alter; [by auto|done]|done].
  - wp_step. wp_step. eapply wp_mono; [by apply rel_startMonitor|done].
  - unfold presenceChanged. destruct presentProp; by wp_steps.
  - unfold presenceIfaceAdded. destruct presentProp; by wp_steps.
  - unfold sensorErrorTimerExpired. by wp_steps.
  - destruct powerStateOn; [by apply rel_powerOn|by apply rel_powerOff].
Qed.
End SensorRelation.

(** * What evaluation does to the fan itself

    A property [I] of the fan that does not depend on the sensors, and that
    a successful inventory update keeps whenever one can happen, is kept by
    the evaluation of sensors. *)

Section FanInvariant.
Variable I : Fan.t → Prop.
Variable e : Env.
Hypothesis I_sensors : ∀ l f, I f → I (Fan.set_sensors l f).
Hypothesis I_functional :
  isPowerOn e = true → notifyError e = false →
  ∀ b f, Fan.numSensorFailsForNonFunc f ≠ 0 → I f → I (Fan.set_functional b f).

Lemma inv_updateState i f :
  I f → wp (updateState e i) (λ _ f' _, I f') f.
Proof using I_sensors I_functional.
  intros H. unfold updateState. wp_step; [by wp_step|].
  wp_step. wp_step. wp_step. wp_step. wp_step.
  eapply wp_eq; [apply updateState_fan_eq|]. wp_step. wp_step. wp_step.
  unfold aggregated. destruct (crossing _ && _) eqn:Hc; [|by apply I_sensors].
  apply andb_prop in Hc as [Hc He].
  apply I_functional; [by destruct (isPowerOn e)|by destruct (notifyError e)| |by apply I_sensors].
  unfold crossing in Hc. apply andb_prop in Hc as [Hc _].
  by apply bool_decide_eq_true in Hc.
Qed.

Lemma inv_process i f :
  I f → wp (process e i) (λ _ f' _, I f') f.
Proof using I_sensors I_functional.
  intros H. unfold process. wp_steps.
  all: try (by apply I_sensors); try done.
  all: eapply wp_mono; [apply inv_updateState; by apply I_sensors|done].
Qed.

Lemma inv_tachChanged i f :
  I f → wp (tachChanged e i) (λ _ f' _, I f') f.
Proof using I_sensors I_functional.
  intros H. unfold tachChanged. wp_steps; try done.
  eapply wp_mono; [by apply inv_process|done].
Qed.

Lemma inv_countTimerExpired f :
  I f → wp (countTimerExpired e) (λ _ f' _, I f') f.
Proof using I_sensors I_functional.
  intros H. unfold countTimerExpired.
  apply (wp_for_each_sensor (λ f' _, I f')); [|done].
  intros i f' o _ H'. unfold countTimerExpired_each. wp_steps; [done|].
  eapply wp_mono; [by apply inv_process|done].
Qed.

Hypothesis I_functional_present :
  notifyError e = false →
  ∀ b f, Fan.numSensorFailsForNonFunc f ≠ 0 → Fan.present f = true →
         I f → I (Fan.set_functional b f).
Hypothesis I_fanMissingErrorTimer :
  ∀ c f, Fan.present f = false → I f → I (Fan.set_fanMissingErrorTimer c f).

Lemma inv_updateInventory_present b f :
  Fan.numSensorFailsForNonFunc f ≠ 0 → Fan.present f = true →
  I f → wp (updateInventory e b) (λ _ f' _, I f') f.
Proof using I_functional_present.
  intros Hthr Hp H. apply wp_updateInventory; [done|].
  intros He. by apply I_functional_present.
Qed.

Lemma inv_startMonitor f :
  I (startMonitor_armed f) → wp (startMonitor e) (λ _ f' _, I f') f.
Proof using I_sensors I_functional I_functional_present.
  intros H. unfold startMonitor, startMonitor_armed in *. cbv zeta in H.
  wp_step. wp_step. wp_step. wp_step. wp_step.
  apply (wp_mono _ (λ _ f' _, I f')).
  { wp_step; [wp_step|]; cbn in *;
      match goal with Hc : bool_decide _ = _ |- _ => by rewrite Hc in H end. }
  intros _ f1 _ H1.
  apply (wp_for_each_sensor (λ f' _, I f')); [|done].
  intros i f' o _ H'. unfold startMonitor_each.
  wp_step. wp_step. wp_step; [|done]. wp_step. wp_step.
  destruct (getProperty e (TachSensor.name (Fan.sensors f' !!! i))) as [[a b]|] eqn:Hp.
  - wp_step. wp_step.
    eapply wp_mono; [apply inv_tachChanged; by apply I_sensors|done].
  - wp_step. wp_step. wp_step. wp_step. wp_step. wp_step. wp_step.
    apply (wp_mono _ (λ _ f' _, I f')); [|by intros; wp_steps].
    wp_step; [|by apply I_sensors]. wp_step; [|by apply I_sensors].
    apply inv_updateInventory_present; [|done|by apply I_sensors].
    by eapply bool_decide_eq_true_1.
Qed.

Lemma inv_powerOn f :
  I (Fan.set_monitorTimer true f) →
  wp (powerStateChanged e true) (λ _ f' _, I f') f.
Proof using I_sensors I_functional_present I_fanMissingErrorTimer.
  intros H. unfold powerStateChanged.
  wp_step. wp_step. wp_step. wp_step. wp_step.
  - wp_step.
    apply (wp_mono _ (λ _ f' _, I f' ∧ Fan.present f' = true)).
    + apply (wp_for_each_sensor (λ f' _, I f' ∧ Fan.present f' = true)); [|done].
      intros i f' o _ [H' Hpr]. unfold powerOn_each. wp_step. wp_step. wp_step. wp_step.
      destruct (getProperty e (TachSensor.name (Fan.sensors f' !!! i))) as [[a b]|];
        wp_steps; (split; [|done]); repeat apply I_sensors; done.
    + intros _ f1 _ [H1 Hpr]. wp_steps; try done.
      apply inv_updateInventory_present; [|done|done].
      by eapply bool_decide_eq_true_1.
  - wp_steps; [|done]. apply I_fanMissingErrorTimer; [|done].
    cbn in *. done.
Qed.
End FanInvariant.

(** * The count method *)

Lemma keepsBound_handle e ev f :
  rel keepsBound (Fan.sensors f) (exec (handle e ev) f).
Proof.
  apply (rel_handle keepsBound); unfold keepsBound, bounded; try done; try (by auto).
  - intros b x. cbn. destruct b.
    + destruct (N.ltb_spec (TachSensor.counter x) (TachSensor.threshold x)); lia.
    + destruct (N.ltb_spec 0 (TachSensor.counter x)); lia.
  - intros m x. unfold TachSensor.startTimer. by case_bool_decide.
  - intros x. unfold TachSensor.resetMethod. destruct (TachSensor.method x); cbn; lia.
  - by apply Forall_Forall2_diag, Forall_forall.
Qed.

Lemma bounded_step w x :
  Forall bounded (Fan.sensors (fan w)) → Forall bounded (Fan.sensors (fan (step w x))).
Proof.
  intros H. destruct x as [e ev]. unfold step.
  destruct (deliverable (fan w) ev); [|done]. cbn [fan].
  pose proof (keepsBound_handle
    (withPower (match ev with PowerStateChanged on => on | _ => power w end) e)
    ev (fan w)) as Hrel.
  unfold rel in Hrel. revert H. induction Hrel; [done|].
  intros HF. apply Forall_cons in HF as [H1 H2]. constructor; auto.
Qed.

Lemma bounded_run evs w :
  Forall bounded (Fan.sensors (fan w)) → Forall bounded (Fan.sensors (fan (run w evs))).
Proof.
  revert w. induction evs as [|x evs IH]; intros w H; [done|].
  cbn. apply IH. by apply bounded_step.
Qed.

Lemma lookup_process e i f s :
  Fan.sensors f !! i = Some s →
  Fan.sensors (exec (process e i) f) !! i = Some (process_sensor e f s).
Proof.
  intros Hs. rewrite (sensors_process e i f s Hs), list_lookup_alter_eq. by rewrite Hs.
Qed.

(** C6 (as amended): over every sequence of events (ticks and anything else)
    the fault counter of a sensor stays within [0, threshold].  A tick
    ([Fan::countTimerExpired]) leaves a count-method sensor that an active
    trust manager rejects as it is, counter included.  For a count-method
    sensor that the trust gate lets through: out of range and functional,
    the tick increments the counter, saturating at the threshold, and when
    the counter is then at or above the threshold the sensor becomes
    non-functional, with chassis power on; out of range and non-functional,
    the sensor is left as it is; in range, the counter is decremented toward
    0, and a non-functional sensor whose counter is then 0 becomes
    functional, with chassis power on. *)
Theorem count_method :
  (∀ w evs, Forall bounded (Fan.sensors (fan w)) →
            Forall bounded (Fan.sensors (fan (run w evs)))) ∧
  (∀ e f i s,
     Fan.sensors f !! i = Some s → TachSensor.method s = count →
     ∃ s', Fan.sensors (exec (countTimerExpired e) f) !! i = Some s' ∧
       (trustActive e && negb (checkTrust e s) = true → s' = s) ∧
       (trustActive e && negb (checkTrust e s) = false →
          (outOfRange e f s = true → TachSensor.functional s = true →
             TachSensor.counter s' =
               (if TachSensor.counter s <? TachSensor.threshold s
                then TachSensor.counter s + 1 else TachSensor.counter s) ∧
             TachSensor.functional s' =
               negb ((TachSensor.threshold s <=? TachSensor.counter s') && isPowerOn e)) ∧
          (outOfRange e f s = true → TachSensor.functional s = false → s' = s) ∧
          (outOfRange e f s = false →
             TachSensor.counter s' = TachSensor.counter s - 1 ∧
             TachSensor.functional s' =
               TachSensor.functional s ||
               ((TachSensor.counter s' =? 0) && isPowerOn e)))).
Proof.
  split; [intros w evs; apply bounded_run|].
  intros e f i s Hs Hm. exists (tick_sensor e f s).
  split; [by rewrite sensors_countTimerExpired, list_lookup_fmap, Hs|].
  unfold tick_sensor. split; [by intros ->|]. intros ->.
  unfold process_sensor. rewrite Hm. cbv zeta.
  split; [|split].
  - intros Ho Hf. rewrite Ho, Hf.
    set (s1 := TachSensor.setCounter true s).
    assert (TachSensor.functional s1 = true) as Hf1 by done.
    assert (TachSensor.threshold s1 = TachSensor.threshold s) as Ht1 by done.
    destruct (TachSensor.threshold s1 <=? TachSensor.counter s1) eqn:Hc;
      destruct (isPowerOn e); cbn [andb]; (split; [done|]);
      unfold toggle; cbn [TachSensor.functional TachSensor.counter TachSensor.setFunctional];
      rewrite <- Ht1, ?Hc, ?Hf1; done.
  - intros Ho Hf. by rewrite Ho, Hf.
  - intros Ho. rewrite Ho.
    set (s1 := TachSensor.setCounter false s).
    assert (TachSensor.functional s1 = TachSensor.functional s) as Hf1 by done.
    assert (TachSensor.counter s1 = TachSensor.counter s - 1) as Hc1.
    { cbn. destruct (N.ltb_spec 0 (TachSensor.counter s)); lia. }
    destruct (TachSensor.functional s) eqn:Hf; rewrite Hf1; cbn [negb andb orb].
    + by rewrite Hf1.
    + destruct (TachSensor.counter s1 =? 0) eqn:Hc; destruct (isPowerOn e); cbn [andb];
        (split; [done|]);
        unfold toggle; cbn [TachSensor.functional TachSensor.counter TachSensor.setFunctional];
        rewrite ?Hc, ?Hf1; done.
Qed.

Lemma count_method_witness :
  ∃ s', Fan.sensors (exec (countTimerExpired (onBus true false))
          (fan0 [rotor "A" count 600 true 2 None] 2 true true true (Some true))) !! 0%nat
        = Some s' ∧
        TachSensor.counter s' = 3 ∧ TachSensor.functional s' = false.
Proof.
  destruct (proj2 count_method (onBus true false)
              (fan0 [rotor "A" count 600 true 2 None] 2 true true true (Some true))
              0%nat (rotor "A" count 600 true 2 None) eq_refl eq_refl)
    as (s' & H1 & _ & H2).
  exists s'. destruct (H2 eq_refl) as (H3 & _). destruct (H3 eq_refl eq_refl) as [Hc Hf].
  split; [exact H1|]. split; [exact Hc|]. rewrite Hf, Hc. reflexivity.
Defined.

(** The claim C6 as stated fails.  A non-functional sensor with counter 1
    below its threshold 3 reads 600 against a range of 900 to 1100, and the
    tick leaves the counter at 1.  A functional sensor with the same reading
    that an active trust manager rejects keeps its counter 0 over the tick.
    And with power off: the expiry of the monitor-start timer is delivered
    and enables the count timer, the tick that follows takes the counter of
    a functional sensor from 2 to the threshold 3, and the sensor stays
    functional. *)
Lemma count_method_counterexample :
  outOfRange (onBus true false)
    (fan0 [rotor "A" count 600 false 1 None] 2 true true true (Some true))
    (rotor "A" count 600 false 1 None) = true ∧
  Fan.sensors (exec (countTimerExpired (onBus true false))
      (fan0 [rotor "A" count 600 false 1 None] 2 true true true (Some true))) =
    [rotor "A" count 600 false 1 None] ∧
  Fan.sensors (exec (countTimerExpired (distrusting true))
      (fan0 [rotor "A" count 600 true 0 None] 2 true true true (Some true))) =
    [rotor "A" count 600 true 0 None] ∧
  power (run {| power := false;
                fan := fan0 [rotor "A" count 600 true 2 None]
                            2 true true false (Some false) |}
             [(lowBus false false, MonitorTimerExpired);
              (lowBus false false, CountTimerExpired)]) = false ∧
  Fan.sensors (fan (run {| power := false;
                           fan := fan0 [rotor "A" count 600 true 2 None]
                                       2 true true false (Some false) |}
                        [(lowBus false false, MonitorTimerExpired);
                         (lowBus false false, CountTimerExpired)])) =
    [rotor "A" count 600 true 3 None].
Proof. by vm_compute. Qed.

(** * The count tick *)

(** C4 (as amended): an expiry of the count timer ([Fan::countTimerExpired])
    evaluates every sensor that the trust gate lets through (trust manager
    inactive, or the sensor trusted), whether or not its value changed: the
    sensor ends as [Fan::process] alone leaves it; a sensor that an active
    trust manager rejects is skipped and stays as it was.  The callback is
    delivered only while the shared count timer exists and is enabled. *)
Theorem countTimerExpired_evaluates e f :
  Fan.sensors (exec (countTimerExpired e) f) = tick_sensor e f <$> Fan.sensors f ∧
  (∀ i s, Fan.sensors f !! i = Some s →
     Fan.sensors (exec (countTimerExpired e) f) !! i =
       if trustActive e && negb (checkTrust e s) then Some s
       else Fan.sensors (exec (process e i) f) !! i) ∧
  (deliverable f CountTimerExpired = true ↔ Fan.countTimer f = Some true) ∧
  (∀ p, Fan.countTimer f ≠ Some true →
     step {| power := p; fan := f |} (e, CountTimerExpired) = {| power := p; fan := f |}).
Proof.
  split; [apply sensors_countTimerExpired|]. split; [|split].
  - intros i s Hs. rewrite sensors_countTimerExpired, list_lookup_fmap, Hs. cbn.
    unfold tick_sensor. destruct (trustActive e && negb (checkTrust e s)); [done|].
    by rewrite (lookup_process e i f s Hs).
  - cbn. unfold isEnabled. apply bool_decide_eq_true.
  - intros p Hne. unfold step. cbn [fan deliverable]. unfold isEnabled.
    by rewrite bool_decide_eq_false_2.
Qed.

Lemma countTimerExpired_evaluates_witness :
  Fan.sensors (exec (countTimerExpired (onBus true false))
    (fan0 [rotor "A" count 600 true 0 None; rotor "B" count 1000 true 1 None]
          2 true true true (Some true))) !! 1%nat =
  Some (rotor "B" count 1000 true 0 None).
Proof.
  destruct (countTimerExpired_evaluates (onBus true false)
    (fan0 [rotor "A" count 600 true 0 None; rotor "B" count 1000 true 1 None]
          2 true true true (Some true))) as (_ & H & _).
  rewrite (H 1%nat (rotor "B" count 1000 true 1 None) eq_refl). reflexivity.
Defined.

(** The claim C4 as stated fails: with an active trust manager that rejects
    the sensor, the expiry does not evaluate it: the sensor reads 600
    against a range of 900 to 1100 and its counter stays 0, where
    [Fan::process] would have made it 1. *)
Lemma countTimerExpired_counterexample :
  Fan.sensors (exec (countTimerExpired (distrusting true))
    (fan0 [rotor "A" count 600 true 0 None] 2 true true true (Some true))) =
    [rotor "A" count 600 true 0 None] ∧
  Fan.sensors (exec (process (distrusting true) 0)
    (fan0 [rotor "A" count 600 true 0 None] 2 true true true (Some true))) =
    [rotor "A" count 600 true 1 None].
Proof. by vm_compute. Qed.

(** * Inventory notifications *)

Lemma trace_updateState_fan e f : trace (updateState_fan e) f = aggregated_calls e f.
Proof. unfold trace. by rewrite updateState_fan_eq. Qed.

Lemma exec_updateState_fan e f : exec (updateState_fan e) f = aggregated e f.
Proof. unfold exec. by rewrite updateState_fan_eq. Qed.

Lemma notifications_aggregated_calls e f :
  notifications (aggregated_calls e f) =
    if crossing f then [Notify (Fan.name f) (negb (Fan.functional f))] else [].
Proof.
  unfold aggregated_calls. destruct (crossing f); [|done].
  by destruct (notifyError e).
Qed.

Lemma notifications_app o1 o2 :
  notifications (o1 ++ o2) = notifications o1 ++ notifications o2.
Proof. apply List.filter_app. Qed.

Lemma exec_updateState e i f :
  isPowerOn e = true →
  exec (updateState e i) f = aggregated e (alterSensor toggle i f).
Proof. intros Hp. unfold exec. by rewrite updateState_on. Qed.

Lemma notifications_updateState e i f :
  isPowerOn e = true →
  notifications (trace (updateState e i) f) =
    notifications (aggregated_calls e (alterSensor toggle i f)).
Proof.
  intros Hp. unfold trace. rewrite updateState_on by done. cbn [snd].
  change (LogEvent :: ?l) with ([LogEvent] ++ l).
  rewrite !notifications_app. cbn. by rewrite app_nil_r.
Qed.

(** C7 (as amended): the aggregate update of [Fan::updateState], run after a
    sensor transition, recomputes the number of non-functional sensors and
    acts only when the fan-level flag and that number are on different sides
    of the threshold: it then issues exactly one inventory notification,
    with the opposite of the flag, and otherwise none; the flag changes only
    in that case.  When the notification is delivered, running the aggregate
    update again with no sensor transition in between issues no further
    notification.  When the Notify call fails, the aggregate update leaves
    the fan as it was, the flag included, and running it again issues the
    same notification again. *)
Theorem aggregate_update e e' i f :
  notifications (trace (updateState_fan e) f) =
    (if crossing f then [Notify (Fan.name f) (negb (Fan.functional f))] else []) ∧
  (Fan.functional (exec (updateState_fan e) f) ≠ Fan.functional f → crossing f = true) ∧
  (notifyError e = false →
     notifications (trace (updateState_fan e') (exec (updateState_fan e) f)) = []) ∧
  (isPowerOn e = true →
     exec (updateState e i) f = exec (updateState_fan e) (alterSensor toggle i f) ∧
     notifications (trace (updateState e i) f) =
       notifications (trace (updateState_fan e) (alterSensor toggle i f))) ∧
  (notifyError e = true →
     exec (updateState_fan e) f = f ∧
     notifications (trace (updateState_fan e') (exec (updateState_fan e) f)) =
       notifications (trace (updateState_fan e) f)).
Proof.
  split; [|split; [|split; [|split]]].
  - by rewrite trace_updateState_fan, notifications_aggregated_calls.
  - rewrite exec_updateState_fan. unfold aggregated.
    destruct (crossing f); [done|]. cbn. congruence.
  - intros He. rewrite trace_updateState_fan, exec_updateState_fan.
    rewrite notifications_aggregated_calls.
    by rewrite aggregated_delivered.
  - intros Hp. rewrite exec_updateState_fan, trace_updateState_fan.
    by rewrite exec_updateState, notifications_updateState.
  - intros He.
    assert (exec (updateState_fan e) f = f) as Hf.
    { rewrite exec_updateState_fan. unfold aggregated.
      by rewrite He, andb_false_r. }
    split; [done|]. rewrite Hf, !trace_updateState_fan.
    by rewrite !notifications_aggregated_calls.
Qed.

Lemma aggregate_update_witness :
  notifications (trace (updateState_fan (onBus true false))
    (exec (updateState_fan (onBus true false))
      (fan0 [rotor "A" timebased 600 false 0 None; rotor "B" timebased 600 false 0 None]
            2 true true true None))) = [] ∧
  exec (updateState_fan (onBus true true))
    (fan0 [rotor "A" timebased 600 false 0 None; rotor "B" timebased 600 false 0 None]
          2 true true true None) =
  fan0 [rotor "A" timebased 600 false 0 None; rotor "B" timebased 600 false 0 None]
       2 true true true None.
Proof.
  split.
  - destruct (aggregate_update (onBus true false) (onBus true false) 0%nat
      (fan0 [rotor "A" timebased 600 false 0 None; rotor "B" timebased 600 false 0 None]
            2 true true true None)) as (_ & _ & H & _).
    exact (H eq_refl).
  - destruct (aggregate_update (onBus true true) (onBus true true) 0%nat
      (fan0 [rotor "A" timebased 600 false 0 None; rotor "B" timebased 600 false 0 None]
            2 true true true None)) as (_ & _ & _ & _ & H).
    destruct (H eq_refl) as [H1 _]. exact H1.
Defined.

(** The claim C7 as stated fails: when the Notify call returns a method
    error the flag stays, and the aggregate update run again with no sensor
    transition in between issues the notification again. *)
Lemma aggregate_update_counterexample :
  notifications (trace (updateState_fan (onBus true true))
    (fan0 [rotor "A" timebased 600 false 0 None; rotor "B" timebased 600 false 0 None]
          2 true true true None)) = [Notify "fan0" false] ∧
  notifications (trace (updateState_fan (onBus true true))
    (exec (updateState_fan (onBus true true))
      (fan0 [rotor "A" timebased 600 false 0 None; rotor "B" timebased 600 false 0 None]
            2 true true true None))) = [Notify "fan0" false].
Proof. by vm_compute. Qed.

(** C3 (as amended): when the inventory notification issued by
    [Fan::updateInventory] fails, the failure is logged and swallowed: the
    function returns normally.  The fan-level functional flag is left as it
    was, it does not take the newly computed state.  Because the flag still
    disagrees with the sensors, the next sensor transition after which the
    count is on the same side of the threshold issues the notification
    again. *)
Theorem updateInventory_failure e b f :
  notifyError e = true →
  updateInventory e b f = (tt, f, [Notify (Fan.name f) b; LogErr]) ∧
  exec (updateState_fan e) f = f ∧
  (isPowerOn e = true → ∀ i, exec (updateState e i) f = alterSensor toggle i f) ∧
  (∀ e' i, isPowerOn e' = true → crossing (alterSensor toggle i f) = true →
     notifications (trace (updateState e' i) (exec (updateState_fan e) f)) =
       [Notify (Fan.name f) (negb (Fan.functional f))]).
Proof.
  intros He. split; [|split; [|split]].
  - by rewrite updateInventory_eq, He.
  - rewrite exec_updateState_fan. unfold aggregated. rewrite He.
    by rewrite andb_false_r.
  - intros Hp i. rewrite exec_updateState by done. unfold aggregated.
    rewrite He. by rewrite andb_false_r.
  - intros e' i Hp Hc. rewrite exec_updateState_fan.
    assert (aggregated e f = f) as ->.
    { unfold aggregated. rewrite He. by rewrite andb_false_r. }
    rewrite notifications_updateState by done.
    by rewrite notifications_aggregated_calls, Hc.
Qed.

Lemma updateInventory_failure_witness :
  updateInventory (onBus true true) false
    (fan0 [rotor "A" timebased 600 false 0 None] 1 true true true None) =
  (tt, fan0 [rotor "A" timebased 600 false 0 None] 1 true true true None,
   [Notify "fan0" false; LogErr]).
Proof.
  destruct (updateInventory_failure (onBus true true) false
    (fan0 [rotor "A" timebased 600 false 0 None] 1 true true true None) eq_refl)
    as [H _].
  exact H.
Defined.

(** The claim C3 as stated fails: the fan is recorded functional, its only
    sensor is non-functional and the threshold is 1, so the newly computed
    state is non-functional; the Notify call returns a method error, and the
    flag still says functional. *)
Lemma updateInventory_counterexample :
  crossing (fan0 [rotor "A" timebased 600 false 0 None] 1 true true true None) = true ∧
  Fan.functional (exec (updateInventory (onBus true true) false)
    (fan0 [rotor "A" timebased 600 false 0 None] 1 true true true None)) = true ∧
  Fan.functional (exec (updateInventory (onBus true false) false)
    (fan0 [rotor "A" timebased 600 false 0 None] 1 true true true None)) = false.
Proof. by vm_compute. Qed.

(** * Power off *)

Lemma shell_eq f f' : shell f' = shell f → f' = Fan.set_sensors (Fan.sensors f') f.
Proof. destruct f, f'. cbn. by intros [= -> -> -> -> -> -> -> -> -> ->]. Qed.

Lemma stopTimer_idle s : TachSensor.timerRunning s = false → TachSensor.stopTimer s = s.
Proof.
  unfold TachSensor.timerRunning. intros H. apply bool_decide_eq_false in H.
  destruct s as [? ? ? ? ? ? ? ? [m|]]; [|done]. exfalso. apply H. by eexists.
Qed.

Lemma powerOff_loop f :
  for_each_sensor powerOff_each f =
  (tt, Fan.set_sensors (TachSensor.stopTimer <$> Fan.sensors f) f, []).
Proof.
  set (body := powerOff_each).
  assert (∀ i f' x, Fan.sensors f' !! i = Some x →
            body i f' = (tt, alterSensor TachSensor.stopTimer i f', [])) as Hbody.
  { intros i f' x Hx. unfold body, powerOff_each.
    cbv [mbind M_bind sensor get mret M_ret fst snd].
    rewrite (lookup_total_Some _ _ _ Hx).
    destruct (TachSensor.timerRunning x) eqn:Ht; cbn; [done|].
    rewrite alterSensor_id; [done|]. intros y Hy.
    assert (y = x) as -> by congruence. by apply stopTimer_idle. }
  rewrite (run_eq (for_each_sensor body) f).
  destruct (for_each_sensor_fmap (λ f', shell f' = shell f) TachSensor.stopTimer body f)
    as [Hs Hsh]; [|done|].
  { intros i f' x Hsh Hx. unfold exec. rewrite (Hbody i f' x Hx). by cbn. }
  assert (trace (for_each_sensor body) f = []) as ->.
  { apply (wp_for_each_sensor
      (λ f' o, length (Fan.sensors f') = length (Fan.sensors f) ∧ o = []));
      [|done].
    intros i f' o Hi [Hlen ->].
    destruct (lookup_lt_is_Some_2 (Fan.sensors f') i ltac:(lia)) as [x Hx].
    eapply wp_eq; [by apply (Hbody i f' x)|].
    split; [|done]. cbn. by rewrite length_alter. }
  by rewrite (shell_eq _ _ Hsh), Hs.
Qed.

Lemma wp_run_eq (m : M unit) f f' o :
  wp m (λ _ f1 o1, f1 = f' ∧ o1 = o) f → m f = (tt, f', o).
Proof. unfold wp. intros [<- <-]. apply run_eq. Qed.

Lemma powerOff_eq e f : powerStateChanged e false f = (tt, poweredOff f, []).
Proof.
  apply wp_run_eq. unfold powerStateChanged.
  wp_step. wp_step. wp_step. wp_step. wp_step.
  apply (wp_mono _ (λ _ f' o, f' = Fan.set_monitorTimer false (Fan.set_monitorReady false f)
                              ∧ o = [])).
  { wp_step; [wp_step|]; (split; [|done]).
    - done.
    - destruct f; cbn in *. by subst. }
  intros _ f1 o1 [-> ->]. wp_step.
  apply (wp_mono _ (λ _ f' o,
     f' = Fan.set_fanMissingErrorTimer (disable (Fan.fanMissingErrorTimer f))
            (Fan.set_monitorTimer false (Fan.set_monitorReady false f)) ∧ o = [])).
  { wp_step; [wp_step|]; (split; [|done]); [done|].
    destruct f as [? ? ? ? ? ? ? ? ? ? [[]|]]; cbn in *; done. }
  intros _ f2 o2 [-> ->]. wp_step.
  eapply wp_eq; [apply powerOff_loop|]. cbn [Fan.sensors Fan.set_fanMissingErrorTimer
    Fan.set_monitorTimer Fan.set_monitorReady].
  wp_step; [wp_step|]; unfold poweredOff; cbn.
  - destruct f as [? ? ? ? ? ? ? ? [c|] ? ?]; cbn in *; done.
  - destruct f as [? ? ? ? ? ? ? ? [c|] ? ?]; cbn in *; done.
Qed.

Lemma keepsFlag_sensorFlags l0 f :
  rel keepsFlag l0 f → sensorFlags f = TachSensor.functional <$> l0.
Proof.
  unfold rel, sensorFlags. induction 1 as [|x y l l' Hxy H IH]; [done|].
  cbn. by rewrite IH, Hxy.
Qed.

Lemma keepsFlag_refl f : rel keepsFlag (Fan.sensors f) f.
Proof. by apply Forall_Forall2_diag, Forall_forall. Qed.

Lemma keepsFlag_startTimer m x : keepsFlag x (TachSensor.startTimer m x).
Proof. unfold keepsFlag, TachSensor.startTimer. by case_bool_decide. Qed.

Lemma keepsFlag_trans x y z : keepsFlag x y → keepsFlag y z → keepsFlag x z.
Proof. unfold keepsFlag. congruence. Qed.

Lemma frozen_tachChanged e i f :
  isPowerOn e = false ∨ Fan.monitorReady f = false → tachChanged e i f = (tt, f, []).
Proof.
  intros H. unfold tachChanged. cbv [mbind M_bind get fst snd].
  by destruct H as [-> | ->]; rewrite ?orb_true_r.
Qed.

Lemma frozen_countTimerExpired e f :
  isPowerOn e = false → sameFlags f (exec (countTimerExpired e) f).
Proof.
  intros Hp. split.
  - apply keepsFlag_sensorFlags.
    apply (rel_countTimerExpired keepsFlag keepsFlag_trans e); try done.
    + congruence.
    + apply keepsFlag_startTimer.
    + apply keepsFlag_refl.
  - apply (inv_countTimerExpired (λ f', Fan.functional f' = Fan.functional f) e); try done.
    congruence.
Qed.


(** ** The shared timers run only with power on *)

Lemma timers_handle e ev f :
  ev ≠ MonitorTimerExpired → (∀ on, ev ≠ PowerStateChanged on) →
  timers (exec (handle e ev) f) = timers f.
Proof.
  intros Hm Ho. destruct ev as [i a b| |i| |p|p|i|on]; try done; cbn [handle].
  - rewrite exec_bind.
    by apply (inv_tachChanged (λ f', timers f' = timers f) e).
  - by apply (inv_countTimerExpired (λ f', timers f' = timers f) e).
  - rewrite exec_bind.
    by apply (inv_updateState (λ f', timers f' = timers f) e).
  - unfold presenceChanged. destruct p as [p|]; [|done].
    apply (wp_exec _ (λ f', timers f' = timers f)). by wp_steps.
  - unfold presenceIfaceAdded. destruct p as [p|]; [|done].
    apply (wp_exec _ (λ f', timers f' = timers f)). by wp_steps.
  - unfold sensorErrorTimerExpired.
    apply (wp_exec _ (λ f', timers f' = timers f)). by wp_steps.
  - by destruct (Ho on).
Qed.

Lemma timers_monitorTimerExpired e f :
  Fan.monitorReady (exec (handle e MonitorTimerExpired) f) = true ∧
  Fan.monitorTimer (exec (handle e MonitorTimerExpired) f) = false.
Proof.
  cbn [handle]. rewrite exec_bind.
  apply (inv_startMonitor
    (λ f', Fan.monitorReady f' = true ∧ Fan.monitorTimer f' = false) e); try done.
  unfold startMonitor_armed. cbv zeta. by case_bool_decide.
Qed.

Lemma timers_powerOn e f :
  Fan.monitorReady (exec (powerStateChanged e true) f) = Fan.monitorReady f ∧
  Fan.countTimer (exec (powerStateChanged e true) f) = Fan.countTimer f.
Proof.
  by apply (inv_powerOn
    (λ f', Fan.monitorReady f' = Fan.monitorReady f ∧
           Fan.countTimer f' = Fan.countTimer f) e).
Qed.

Lemma gated_step w x :
  gated w → (x.2 = MonitorTimerExpired → power w = true) → gated (step w x).
Proof.
  intros [Hc Hm] Hx. destruct x as [e ev]. cbn [snd] in Hx. unfold step.
  destruct (deliverable (fan w) ev) eqn:Hd; [|done].
  destruct ev as [i a b| |i| |p|p|i|[|]].
  all: try (match goal with
            | |- gated {| power := _; fan := exec (handle ?e' ?ev') _ |} =>
                assert (timers (exec (handle e' ev') (fan w)) = timers (fan w)) as Ht
                  by (by apply timers_handle)
            end;
            unfold timers in Ht; injection Ht as Ht1 Ht2 Ht3;
            split; cbn [fan power handle]; rewrite ?Ht1, ?Ht2, ?Ht3;
            first [exact Hc|exact Hm]).
  - specialize (Hx eq_refl).
    destruct (timers_monitorTimerExpired (withPower (power w) e) (fan w)) as [H1 H2].
    split; cbn [fan power]; [by rewrite H1|by rewrite H2].
  - destruct (timers_powerOn (withPower true e) (fan w)) as [H1 H2].
    split; cbn [fan power handle]; [|done]. rewrite H1, H2. intros H. split; [done|].
    by apply Hc.
  - split; cbn [fan power handle]; unfold exec; rewrite powerOff_eq; cbn.
    + by destruct (Fan.countTimer (fan w)).
    + done.
Qed.

Lemma gated_run evs w : gated w → startsPowered w evs = true → gated (run w evs).
Proof.
  revert w. induction evs as [|x evs IH]; intros w H Hs; [done|].
  cbn [startsPowered] in Hs. apply andb_prop in Hs as [Hx Hs].
  cbn. apply IH; [|done]. apply gated_step; [done|].
  intros Hev. by rewrite Hev in Hx.
Qed.





Lemma sameFlags_poweredOff f : sameFlags f (poweredOff f).
Proof.
  split; [|done]. unfold sensorFlags, poweredOff. cbn.
  rewrite <- list_fmap_compose. by apply list_fmap_ext.
Qed.

Lemma gated_poweredOff f : gated {| power := false; fan := poweredOff f |}.
Proof. split; cbn; [by destruct (Fan.countTimer f)|done]. Qed.

(** * The evaluation gate *)

Lemma startMonitor_enables e f :
  is_Some (Fan.countTimer f) →
  Fan.countTimer (exec (startMonitor e) f) = Some true ∧
  Fan.monitorReady (exec (startMonitor e) f) = true.
Proof.
  intros Hc.
  apply (inv_startMonitor
    (λ f', Fan.countTimer f' = Some true ∧ Fan.monitorReady f' = true) e); try done.
  unfold startMonitor_armed. cbv zeta. cbn [Fan.countTimer Fan.set_monitorReady].
  by rewrite bool_decide_eq_true_2.
Qed.

Lemma tick_presence e f p r :
  Fan.sensors (exec (countTimerExpired e)
                 (Fan.set_present p (Fan.set_monitorReady r f))) =
  Fan.sensors (exec (countTimerExpired e) f).
Proof.
  rewrite !sensors_countTimerExpired. cbn [Fan.sensors Fan.set_present Fan.set_monitorReady].
  apply list_fmap_ext. intros j s _. unfold tick_sensor.
  destruct (trustActive e && negb (checkTrust e s)); [done|].
  by apply process_sensor_deviation.
Qed.

(** C1 (as amended): [Fan::tachChanged] evaluates the sensor only if
    chassis power is on and the fan is monitor-ready; with power off or
    before monitor-ready it leaves the sensors and the fan unchanged and
    makes no call.  Whether the fan is present is not looked at: with power
    on and monitor-ready a trusted time-based sensor is handed to
    [Fan::process] whatever the presence.  [Fan::countTimerExpired] has no
    guard of its own: a tick hands every sensor that the trust gate lets
    through to [Fan::process], whatever the presence, the power and the
    monitor-ready state, and what it makes of the sensors does not depend on
    the presence or on monitor-ready; with power off a tick changes no
    functional flag of a sensor or of the fan.  Ticks are confined by the
    shared count timer only: a tick is delivered only while that timer is
    enabled, [Fan::startMonitor] enables it without looking at the power
    state, and it is enabled only while power is on and the fan is
    monitor-ready as long as every expiry of the monitor-start timer is
    delivered while power is on. *)
Theorem evaluation_gate :
  (∀ e f i, isPowerOn e = false ∨ Fan.monitorReady f = false →
     tachChanged e i f = (tt, f, [])) ∧
  (∀ e f i s, isPowerOn e = true → Fan.monitorReady f = true →
     Fan.sensors f !! i = Some s →
     trustActive e && negb (checkTrust e s) = false →
     TachSensor.method s = timebased →
     tachChanged e i f = process e i f) ∧
  (∀ e f i s, Fan.sensors f !! i = Some s →
     trustActive e && negb (checkTrust e s) = false →
     Fan.sensors (exec (countTimerExpired e) f) !! i =
       Fan.sensors (exec (process e i) f) !! i) ∧
  (∀ e f p r,
     Fan.sensors (exec (countTimerExpired e)
                    (Fan.set_present p (Fan.set_monitorReady r f))) =
     Fan.sensors (exec (countTimerExpired e) f)) ∧
  (∀ e f, isPowerOn e = false → sameFlags f (exec (countTimerExpired e) f)) ∧
  (∀ e f, is_Some (Fan.countTimer f) →
     Fan.countTimer (exec (startMonitor e) f) = Some true ∧
     Fan.monitorReady (exec (startMonitor e) f) = true) ∧
  (∀ w evs, gated w → startsPowered w evs = true → gated (run w evs)) ∧
  (∀ w, gated w → deliverable (fan w) CountTimerExpired = true →
     power w = true ∧ Fan.monitorReady (fan w) = true) ∧
  (∀ f, deliverable f CountTimerExpired = true ↔ Fan.countTimer f = Some true).
Proof.
  split; [|split; [|split; [|split; [|split; [|split; [|split; [|split]]]]]]].
  - intros e f i. apply frozen_tachChanged.
  - intros e f i s Hp Hr Hs Ht Hm. unfold tachChanged.
    cbv [mbind M_bind get fst snd]. rewrite Hp, Hr. cbn [negb orb].
    cbv [mbind M_bind get sensor mret M_ret fst snd].
    rewrite (lookup_total_Some _ _ _ Hs), Ht.
    unfold TachSensor.getMethod. rewrite Hm, bool_decide_eq_true_2 by done.
    unfold when. by destruct (process e i f) as [[[] ?] ?].
  - intros e f i s Hs Ht.
    rewrite sensors_countTimerExpired, list_lookup_fmap, Hs. cbn.
    unfold tick_sensor. rewrite Ht. by rewrite (lookup_process e i f s Hs).
  - apply tick_presence.
  - apply frozen_countTimerExpired.
  - apply startMonitor_enables.
  - intros w evs. apply gated_run.
  - intros w [Hc _] Hd. apply Hc. cbn in Hd. by apply bool_decide_eq_true in Hd.
  - intros f. cbn. unfold isEnabled. apply bool_decide_eq_true.
Qed.

Lemma evaluation_gate_witness :
  tachChanged (onBus false false) 0
    (fan0 [rotor "A" timebased 600 true 0 None] 2 true true true None) =
  (tt, fan0 [rotor "A" timebased 600 true 0 None] 2 true true true None, []) ∧
  gated (run {| power := false;
                fan := fan0 [rotor "A" count 600 true 0 None]
                            2 true true false (Some false) |}
             [(onBus false false, PowerStateChanged true);
              (onBus true false, MonitorTimerExpired);
              (lowBus true false, CountTimerExpired);
              (onBus true false, PowerStateChanged false)]).
Proof.
  destruct evaluation_gate as (H1 & _ & _ & _ & _ & _ & H2 & _). split.
  - apply H1. left. reflexivity.
  - apply H2; [|by vm_compute]. split; cbn; discriminate.
Defined.

(** The claim C1 as stated fails: with the fan absent (power on,
    monitor-ready, count timer enabled) [Fan::tachChanged] evaluates the
    sensor and starts its non-functional timer, and [Fan::countTimerExpired]
    evaluates the sensor and increments its fault counter; the latter does
    so as well with power off and before monitor-ready. *)
Lemma evaluation_gate_counterexample :
  Fan.sensors (exec (tachChanged (onBus true false) 0)
    (fan0 [rotor "A" timebased 600 true 0 None] 2 false true true None)) =
    [rotor "A" timebased 600 true 0 (Some nonfunc)] ∧
  Fan.sensors (exec (countTimerExpired (onBus true false))
    (fan0 [rotor "A" count 600 true 0 None] 2 false true true (Some true))) =
    [rotor "A" count 600 true 1 None] ∧
  Fan.sensors (exec (countTimerExpired (onBus false false))
    (fan0 [rotor "A" count 600 true 0 None] 2 true true false (Some false))) =
    [rotor "A" count 600 true 1 None].
Proof. by vm_compute. Qed.

(** * Monitor start and power on, sensor by sensor *)

Lemma functional_process_sensor_timebased e f s :
  TachSensor.method s = timebased →
  TachSensor.functional (process_sensor e f s) = TachSensor.functional s.
Proof.
  intros Hm. unfold process_sensor. rewrite Hm.
  destruct (outOfRange e f s), (TachSensor.functional s) eqn:Hf; try done.
  - unfold TachSensor.startTimer. by case_bool_decide.
  - by destruct (TachSensor.timerRunning s).
  - unfold TachSensor.startTimer. by case_bool_decide.
Qed.

Lemma functional_tachChanged_sensor e f s :
  TachSensor.functional (tachChanged_sensor e f s) = TachSensor.functional s.
Proof.
  unfold tachChanged_sensor.
  destruct (_ || _); [done|]. destruct (_ && _); [done|].
  case_bool_decide; [|done]. by apply functional_process_sensor_timebased.
Qed.

Lemma tachChanged_eq e i f x :
  Fan.sensors f !! i = Some x →
  tachChanged e i f = (tt, alterSensor (tachChanged_sensor e f) i f, []).
Proof.
  intros Hx.
  assert (∀ g, g x = tachChanged_sensor e f x →
               alterSensor g i f = alterSensor (tachChanged_sensor e f) i f) as Hf1.
  { intros g Hg. apply alterSensor_ext. intros y Hy. congruence. }
  pose proof (eq_refl (tachChanged_sensor e f x)) as Hts.
  unfold tachChanged_sensor at 1 in Hts.
  apply wp_run_eq. unfold tachChanged. wp_step. wp_step.
  destruct (negb (isPowerOn e) || negb (Fan.monitorReady f)) eqn:Hg.
  { wp_step. by rewrite <- (Hf1 id Hts), alterSensor_id. }
  wp_step. wp_step. rewrite (lookup_total_Some _ _ _ Hx).
  destruct (trustActive e && negb (checkTrust e x)) eqn:Ht.
  { wp_step. by rewrite <- (Hf1 id Hts), alterSensor_id. }
  unfold TachSensor.getMethod. case_bool_decide as Hm; unfold when.
  - eapply wp_eq; [apply (process_quiet e i f x Hx)|].
    + by apply functional_process_sensor_timebased.
    + rewrite <- (alterSensor_insert _ _ _ _ Hx). by rewrite (Hf1 _ Hts).
  - wp_step. by rewrite <- (Hf1 id Hts), alterSensor_id.
Qed.

Lemma tachChanged_sensor_ext e f f' s :
  Fan.monitorReady f' = Fan.monitorReady f → Fan.deviation f' = Fan.deviation f →
  tachChanged_sensor e f' s = tachChanged_sensor e f s.
Proof.
  intros Hr Hd. unfold tachChanged_sensor. rewrite Hr.
  by rewrite (process_sensor_deviation e f' f s Hd).
Qed.

(** The lambda of [Fan::startMonitor] in closed form. *)
Lemma startMonitor_each_eq e i f x :
  Fan.sensors f !! i = Some x →
  startMonitor_each e i f =
    if Fan.present f then
      match getProperty e (TachSensor.name x) with
      | Some _ => (tt, alterSensor (startMonitor_sensor e f) i f, [])
      | None =>
          let f2 := alterSensor (startMonitor_sensor e f) i f in
          (tt,
           (if startMonitor_fires f2 && negb (notifyError e)
            then Fan.set_functional false f2 else f2),
           LogEvent ::
           (if startMonitor_fires f2
            then Notify (Fan.name f) false :: (if notifyError e then [LogErr] else [])
            else []) ++
           [FanStatusChange (Fan.name f) false])
      end
    else (tt, f, []).
Proof.
  intros Hx.
  assert (∀ g, g x = startMonitor_sensor e f x →
               alterSensor g i f = alterSensor (startMonitor_sensor e f) i f) as Hf1.
  { intros g Hg. apply alterSensor_ext. intros y Hy. congruence. }
  pose proof (eq_refl (startMonitor_sensor e f x)) as Hss.
  unfold startMonitor_sensor at 1 in Hss.
  destruct (Fan.present f) eqn:Hp;
    [destruct (getProperty e (TachSensor.name x)) as [[a b]|] eqn:Hg|];
    cbv zeta; apply wp_run_eq; unfold startMonitor_each; wp_step; wp_step;
    rewrite Hp; unfold when; [| |by wp_step].
  - wp_step. wp_step. rewrite (lookup_total_Some _ _ _ Hx), Hg.
    wp_step. wp_step. fold (alterSensor (TachSensor.setTachAndTarget a b) i f).
    eapply wp_eq; [apply (tachChanged_eq e i _ (TachSensor.setTachAndTarget a b x))|].
    { cbn. by rewrite list_lookup_alter_eq, Hx. }
    rewrite alterSensor_alterSensor. split; [|done]. apply Hf1. cbn.
    rewrite <- Hss. by apply tachChanged_sensor_ext.
  - wp_step. wp_step. rewrite (lookup_total_Some _ _ _ Hx), Hg.
    wp_step. wp_step. wp_step. wp_step.
    fold (alterSensor (TachSensor.setFunctional false) i f).
    rewrite (Hf1 _ Hss).
    set (f2 := alterSensor (startMonitor_sensor e f) i f).
    wp_step. wp_step. wp_step.
    unfold startMonitor_fires.
    destruct (bool_decide (Fan.numSensorFailsForNonFunc f2 ≠ 0)) eqn:Hthr;
      unfold when; cbn [andb];
      [destruct (Fan.functional f2 &&
                 (Fan.numSensorFailsForNonFunc f2 <=? countNonFunctionalSensors f2)) eqn:Hc|].
    + apply wp_updateInventory; intros He; rewrite He; by wp_step.
    + wp_step. by wp_step.
    + wp_step. by wp_step.
Qed.

Lemma startMonitor_eq e f :
  startMonitor e f = for_each_sensor (startMonitor_each e) (startMonitor_armed f).
Proof.
  unfold startMonitor, startMonitor_armed.
  cbv [mbind M_bind modify get when mret M_ret fst snd]. cbn [Fan.countTimer Fan.set_monitorReady].
  case_bool_decide; cbn [fst snd app];
    by destruct (for_each_sensor (startMonitor_each e) _) as [[[] ?] ?].
Qed.

Lemma startMonitor_sensor_ext e f f' s :
  Fan.monitorReady f' = Fan.monitorReady f → Fan.deviation f' = Fan.deviation f →
  startMonitor_sensor e f' s = startMonitor_sensor e f s.
Proof.
  intros Hr Hd. unfold startMonitor_sensor.
  destruct (getProperty e (TachSensor.name s)) as [[a b]|]; [|done].
  by apply tachChanged_sensor_ext.
Qed.

(** The force-evaluation, sensor by sensor, for a fan that is present. *)
Lemma sensors_startMonitor e f :
  Fan.present f = true →
  Fan.sensors (exec (startMonitor e) f) =
    startMonitor_sensor e (startMonitor_armed f) <$> Fan.sensors f.
Proof.
  intros Hp. unfold exec. rewrite startMonitor_eq.
  set (f1 := startMonitor_armed f).
  assert (Fan.sensors f = Fan.sensors f1) as ->.
  { unfold f1, startMonitor_armed. cbv zeta. by case_bool_decide. }
  assert (Fan.present f1 = true) as Hp1.
  { unfold f1, startMonitor_armed. cbv zeta. by case_bool_decide. }
  apply (for_each_sensor_fmap
    (λ f', Fan.present f' = true ∧ Fan.monitorReady f' = Fan.monitorReady f1 ∧
           Fan.deviation f' = Fan.deviation f1)); [|done].
  intros i f' x (Hpr & Hr & Hd) Hx. unfold exec.
  rewrite (startMonitor_each_eq e i f' x Hx), Hpr.
  assert (alter (startMonitor_sensor e f') i (Fan.sensors f') =
          alter (startMonitor_sensor e f1) i (Fan.sensors f')) as Halt.
  { apply list_alter_ext; [|done]. intros y _. by apply startMonitor_sensor_ext. }
  destruct (getProperty e (TachSensor.name x)) as [[a b]|]; cbn [fst snd].
  - by rewrite <- Halt.
  - cbv zeta. destruct (_ && _); by rewrite <- Halt.
Qed.

(** What a loop calls when one of its turns is sure to make the call. *)
Lemma for_each_seq_trace (Q : Fan.t → Prop) body (z : Output) i L :
  (∀ j f, Q f → j ≠ i → (j < L)%nat → Q (exec (body j) f)) →
  (∀ f, Q f → z ∈ trace (body i) f) →
  ∀ n k f, (k ≤ i < k + n)%nat → (k + n ≤ L)%nat → Q f →
           z ∈ trace (for_each (seq k n) body) f.
Proof.
  intros Hother Hi. induction n as [|n IH]; intros k f Hk HL HQ; [lia|].
  cbn [seq for_each]. rewrite trace_bind. apply elem_of_app.
  destruct (decide (k = i)) as [->|Hne]; [left; by apply Hi|].
  right. apply IH; [lia|lia|]. apply Hother; [done|done|lia].
Qed.

Lemma count_set_functional b f :
  countNonFunctionalSensors (Fan.set_functional b f) = countNonFunctionalSensors f.
Proof. done. Qed.

Lemma sensorFlags_alterSensor_at (g : TachSensor.t → TachSensor.t) i f :
  (∀ x, Fan.sensors f !! i = Some x → TachSensor.functional (g x) = TachSensor.functional x) →
  sensorFlags (alterSensor g i f) = sensorFlags f.
Proof.
  intros Hg. destruct (Fan.sensors f !! i) as [x|] eqn:Hx.
  - rewrite (alterSensor_insert g i f x Hx). unfold sensorFlags. cbn.
    rewrite list_fmap_insert, (Hg x eq_refl). apply list_insert_id.
    by rewrite list_lookup_fmap, Hx.
  - rewrite alterSensor_id; [done|]. intros y Hy. congruence.
Qed.

Lemma functional_startMonitor_sensor_readable e f s :
  is_Some (getProperty e (TachSensor.name s)) →
  TachSensor.functional (startMonitor_sensor e f s) = TachSensor.functional s.
Proof.
  intros [[a b] H]. unfold startMonitor_sensor. rewrite H.
  by rewrite functional_tachChanged_sensor.
Qed.

(** * Power-off freeze *)




Lemma startMonitor_each_absent e i f :
  Fan.present f = false → startMonitor_each e i f = (tt, f, []).
Proof.
  intros Hp. apply wp_run_eq. unfold startMonitor_each. wp_step. wp_step.
  rewrite Hp. unfold when. by wp_step.
Qed.

Lemma startMonitor_absent_eq e f :
  Fan.present f = false → startMonitor e f = (tt, startMonitor_armed f, []).
Proof.
  intros Hp. rewrite startMonitor_eq. apply wp_run_eq.
  apply (wp_for_each_sensor (λ f' o, f' = startMonitor_armed f ∧ o = [])); [|done].
  intros i f' o _ [-> ->]. eapply wp_eq; [apply startMonitor_each_absent|done].
  unfold startMonitor_armed. cbv zeta. by case_bool_decide.
Qed.

(** * Fail-safe at monitor start *)

(** The force-evaluation of a present fan at a sensor whose reading is not
    available. *)
Lemma startMonitor_present_unreadable e i f s :
  Fan.present f = true →
  Fan.sensors f !! i = Some s →
  getProperty e (TachSensor.name s) = None →
  Fan.sensors (exec (startMonitor e) f) !! i = Some (TachSensor.setFunctional false s) ∧
  FanStatusChange (Fan.name f) false ∈ trace (startMonitor e) f ∧
  (Fan.numSensorFailsForNonFunc f ≠ 0 → notifyError e = false →
   Fan.numSensorFailsForNonFunc f ≤ countNonFunctionalSensors (exec (startMonitor e) f) →
   Fan.functional (exec (startMonitor e) f) = false).
Proof.
  intros Hp Hs Hg.
  assert (Fan.sensors (startMonitor_armed f) = Fan.sensors f ∧
          Fan.present (startMonitor_armed f) = true ∧
          Fan.name (startMonitor_armed f) = Fan.name f ∧
          Fan.numSensorFailsForNonFunc (startMonitor_armed f) =
            Fan.numSensorFailsForNonFunc f) as (Hs1 & Hp1 & Hn1 & Ht1).
  { unfold startMonitor_armed. cbv zeta. by case_bool_decide. }
  assert (FanStatusChange (Fan.name f) false ∈ trace (startMonitor e) f) as Hin.
  { unfold trace. rewrite startMonitor_eq.
    change ((for_each_sensor (startMonitor_each e) (startMonitor_armed f)).2)
      with (trace (for_each (seq 0 (length (Fan.sensors (startMonitor_armed f))))
                     (startMonitor_each e)) (startMonitor_armed f)).
    apply (for_each_seq_trace
      (λ f', Fan.sensors f' !! i = Some s ∧ Fan.present f' = true ∧
             Fan.name f' = Fan.name f ∧
             length (Fan.sensors f') = length (Fan.sensors f))
      _ _ i (length (Fan.sensors f))).
    - intros j f' (Hi & Hpr & Hn & Hl) Hne Hj.
      destruct (lookup_lt_is_Some_2 (Fan.sensors f') j ltac:(lia)) as [x Hx].
      unfold exec. rewrite (startMonitor_each_eq e j f' x Hx), Hpr.
      destruct (getProperty e (TachSensor.name x)) as [[a b]|]; cbv zeta;
        [|destruct (_ && _)]; cbn; rewrite list_lookup_alter_ne, length_alter by done;
        done.
    - intros f' (Hi & Hpr & Hn & Hl). unfold trace.
      rewrite (startMonitor_each_eq e i f' s Hi), Hpr, Hg. cbn [snd].
      rewrite Hn. apply elem_of_cons. right. apply elem_of_app. right.
      by apply list_elem_of_singleton.
    - rewrite Hs1. split; [lia|]. apply lookup_lt_Some in Hs. lia.
    - rewrite Hs1. lia.
    - by rewrite Hs1, Hp1, Hn1. }
  split; [|split; [done|]].
  - rewrite (sensors_startMonitor e f Hp), list_lookup_fmap, Hs. cbn.
    unfold startMonitor_sensor. by rewrite Hg.
  - intros Hthr He Hcount.
    enough (wp (startMonitor e) (λ _ f' o,
      (FanStatusChange (Fan.name f) false ∈ o →
       Fan.numSensorFailsForNonFunc f ≤ countNonFunctionalSensors f' →
       Fan.functional f' = false) ∧
      Fan.numSensorFailsForNonFunc f' = Fan.numSensorFailsForNonFunc f ∧
      Fan.name f' = Fan.name f ∧
      length (Fan.sensors f') = length (Fan.sensors f)) f) as Hwp.
    { destruct Hwp as [H _]. by apply H. }
    unfold wp, result, exec, trace. rewrite startMonitor_eq.
    apply (wp_for_each_sensor (λ f' o,
      (FanStatusChange (Fan.name f) false ∈ o →
       Fan.numSensorFailsForNonFunc f ≤ countNonFunctionalSensors f' →
       Fan.functional f' = false) ∧
      Fan.numSensorFailsForNonFunc f' = Fan.numSensorFailsForNonFunc f ∧
      Fan.name f' = Fan.name f ∧
      length (Fan.sensors f') = length (Fan.sensors f))).
    2:{ rewrite Hs1, Hn1, Ht1. split; [|done]. intros H. by apply elem_of_nil in H. }
    intros j f' o Hj (HI & Ht & Hn & Hl). rewrite Hs1 in Hj.
    destruct (lookup_lt_is_Some_2 (Fan.sensors f') j ltac:(lia)) as [x Hx].
    eapply wp_eq_run; [apply (startMonitor_each_eq e j f' x Hx)|].
    destruct (Fan.present f') eqn:Hpr; cbn [fst snd]; [|by rewrite app_nil_r].
    destruct (getProperty e (TachSensor.name x)) as [[a b]|] eqn:Hgx; cbn [fst snd].
    + rewrite app_nil_r. split; [|by cbn; rewrite length_alter].
      intros Ho Hc. cbn [Fan.functional alterSensor Fan.set_sensors]. apply HI; [done|].
      rewrite <- (count_flags (alterSensor (startMonitor_sensor e f') j f') f'); [done|].
      apply sensorFlags_alterSensor_at. intros y Hy.
      assert (y = x) as -> by congruence.
      apply functional_startMonitor_sensor_readable. by rewrite Hgx.
    + cbv zeta. set (f2 := alterSensor (startMonitor_sensor e f') j f').
      assert (Fan.numSensorFailsForNonFunc f2 = Fan.numSensorFailsForNonFunc f) as Ht2
        by done.
      split.
      * intros _. unfold startMonitor_fires. rewrite Ht2, He.
        rewrite bool_decide_eq_true_2 by done. cbn [andb negb].
        destruct (Fan.functional f2) eqn:Hf2; cbn [andb]; [|done].
        destruct (N.leb_spec (Fan.numSensorFailsForNonFunc f)
                    (countNonFunctionalSensors f2)); cbn; [done|].
        intros Hc. change (countNonFunctionalSensors f2) with
          (countNonFunctionalSensors f2) in *. lia.
      * destruct (_ && _); cbn; by rewrite length_alter.
Qed.

(** C9 (as amended): if the fan is present and the reading of a sensor
    cannot be obtained during the force-evaluation of [Fan::startMonitor],
    that sensor ends non-functional, and the coordinator is notified of the
    status change.  When the fan-level threshold is configured (not 0) and
    is met by the sensors after the force-evaluation, the fan is marked
    non-functional, provided the inventory accepts the notification.  When
    the fan is absent the force-evaluation is skipped: no call is made, and
    every sensor and the fan-level flag are left as they were. *)
Theorem startMonitor_unreadable e f :
  (∀ i s, Fan.present f = true →
     Fan.sensors f !! i = Some s →
     getProperty e (TachSensor.name s) = None →
     Fan.sensors (exec (startMonitor e) f) !! i =
       Some (TachSensor.setFunctional false s) ∧
     FanStatusChange (Fan.name f) false ∈ trace (startMonitor e) f ∧
     (Fan.numSensorFailsForNonFunc f ≠ 0 → notifyError e = false →
      Fan.numSensorFailsForNonFunc f ≤
        countNonFunctionalSensors (exec (startMonitor e) f) →
      Fan.functional (exec (startMonitor e) f) = false)) ∧
  (Fan.present f = false →
     trace (startMonitor e) f = [] ∧
     Fan.sensors (exec (startMonitor e) f) = Fan.sensors f ∧
     Fan.functional (exec (startMonitor e) f) = Fan.functional f).
Proof.
  split.
  - intros i s. apply startMonitor_present_unreadable.
  - intros Hp. unfold exec, trace. rewrite (startMonitor_absent_eq e f Hp).
    cbn [fst snd]. split; [done|].
    unfold startMonitor_armed. cbv zeta. by case_bool_decide.
Qed.

Lemma startMonitor_unreadable_witness :
  Fan.sensors (exec (startMonitor (offBus true false))
    (fan0 [rotor "A" timebased 1000 true 0 None; rotor "B" timebased 1000 true 0 None]
          2 true true false None)) !! 0%nat =
  Some (rotor "A" timebased 1000 false 0 None) ∧
  Fan.sensors (exec (startMonitor (offBus true false))
    (fan0 [rotor "A" timebased 1000 true 0 None; rotor "B" timebased 1000 true 0 None]
          2 false true false None)) =
  [rotor "A" timebased 1000 true 0 None; rotor "B" timebased 1000 true 0 None].
Proof.
  split.
  - destruct (startMonitor_unreadable (offBus true false)
      (fan0 [rotor "A" timebased 1000 true 0 None; rotor "B" timebased 1000 true 0 None]
            2 true true false None)) as [H _].
    destruct (H 0%nat (rotor "A" timebased 1000 true 0 None) eq_refl eq_refl eq_refl)
      as [H1 _].
    exact H1.
  - destruct (startMonitor_unreadable (offBus true false)
      (fan0 [rotor "A" timebased 1000 true 0 None; rotor "B" timebased 1000 true 0 None]
            2 false true false None)) as [_ H].
    destruct (H eq_refl) as (_ & H2 & _). exact H2.
Defined.

(** The claim C9 as stated fails: when the fan is absent,
    [Fan::startMonitor] skips the force-evaluation, so a sensor that is not
    on D-Bus stays functional, the fan stays functional and the coordinator
    is not notified; and when the fan is present but the Notify call returns
    a method error, the sensor ends non-functional and meets the threshold
    of 1 while the fan is still recorded functional. *)
Lemma startMonitor_counterexample :
  startMonitor (offBus true false)
    (fan0 [rotor "A" timebased 1000 true 0 None] 1 false true false None) =
  (tt, fan0 [rotor "A" timebased 1000 true 0 None] 1 false true true None, []) ∧
  exec (startMonitor (offBus true true))
    (fan0 [rotor "A" timebased 1000 true 0 None] 1 true true false None) =
  fan0 [rotor "A" timebased 1000 false 0 None] 1 true true true None.
Proof. by vm_compute. Qed.

(** * Power on *)

Lemma powerOn_sensor_reset e s a b :
  getProperty e (TachSensor.name s) = Some (a, b) → reset_sensor e s = powerOn_sensor a b s.
Proof. unfold reset_sensor. by intros ->. Qed.

(** The lambda of the power-on reset in closed form. *)
Lemma powerOn_each_eq e i f x :
  Fan.sensors f !! i = Some x →
  powerOn_each e i f =
    (tt, alterSensor (reset_sensor e) i f,
     match getProperty e (TachSensor.name x) with
     | Some _ => if TachSensor.functional x then [] else [FanStatusChange (Fan.name f) true]
     | None => [LogEvent]
     end).
Proof.
  intros Hx.
  assert (∀ g, g x = reset_sensor e x →
               alterSensor g i f = alterSensor (reset_sensor e) i f) as Hf1.
  { intros g Hg. apply alterSensor_ext. intros y Hy. congruence. }
  pose proof (eq_refl (reset_sensor e x)) as Hrs. unfold reset_sensor at 1 in Hrs.
  apply wp_run_eq. unfold powerOn_each. wp_step. wp_step. wp_step. wp_step.
  rewrite (lookup_total_Some _ _ _ Hx).
  destruct (getProperty e (TachSensor.name x)) as [[a b]|] eqn:Hg.
  2:{ wp_step. by rewrite <- (Hf1 id Hrs), alterSensor_id. }
  unfold powerOn_sensor in Hrs. cbv zeta in Hrs.
  cbn [TachSensor.functional TachSensor.method TachSensor.setTachAndTarget
       TachSensor.setFunctional] in Hrs.
  destruct (TachSensor.functional x) eqn:Hfx;
    destruct (bool_decide (TachSensor.method x = count)) eqn:Hm.
  all: wp_steps.
  all: repeat change (Fan.set_sensors (alter ?g i (Fan.sensors ?F)) ?F)
         with (alterSensor g i F) in *.
  all: rewrite ?alterSensor_alterSensor in *.
  all: rewrite ?(lookup_alterSensor _ _ _ _ Hx) in *.
  all: cbn [compose TachSensor.functional TachSensor.method TachSensor.getMethod
            TachSensor.setTachAndTarget TachSensor.setFunctional] in *.
  all: rewrite ?Hfx, ?Hm in *; try discriminate.
  all: split; [|done]; apply Hf1; cbn [compose]; by rewrite <- Hrs.
Qed.

Lemma powerOn_loop e f :
  exec (for_each_sensor (powerOn_each e)) f =
    Fan.set_sensors (reset_sensor e <$> Fan.sensors f) f.
Proof.
  destruct (for_each_sensor_fmap (λ f', shell f' = shell f) (reset_sensor e)
              (powerOn_each e) f) as [Hs Hsh]; [|done|].
  { intros i f' x Hsh Hx. unfold exec. by rewrite (powerOn_each_eq e i f' x Hx). }
  by rewrite (shell_eq _ _ Hsh), Hs.
Qed.

(** The power-on reset of a fan that is present, in closed form. *)
Lemma powerOn_eq e f :
  Fan.present f = true →
  exec (powerStateChanged e true) f =
    (if powerOn_fires (poweredOn e f) && negb (notifyError e)
     then Fan.set_functional true (poweredOn e f) else poweredOn e f) ∧
  trace (powerStateChanged e true) f =
    trace (for_each_sensor (powerOn_each e)) (Fan.set_monitorTimer true f) ++
    (if powerOn_fires (poweredOn e f)
     then Notify (Fan.name f) true :: (if notifyError e then [LogErr] else [])
     else []).
Proof.
  intros Hp.
  enough (wp (powerStateChanged e true) (λ _ f' o,
    f' = (if powerOn_fires (poweredOn e f) && negb (notifyError e)
          then Fan.set_functional true (poweredOn e f) else poweredOn e f) ∧
    o = trace (for_each_sensor (powerOn_each e)) (Fan.set_monitorTimer true f) ++
        (if powerOn_fires (poweredOn e f)
         then Notify (Fan.name f) true :: (if notifyError e then [LogErr] else [])
         else [])) f) as H by exact H.
  unfold powerStateChanged. wp_step. wp_step. wp_step. wp_step.
  cbn [Fan.present Fan.set_monitorTimer]. rewrite Hp.
  wp_step. apply wp_unit. rewrite powerOn_loop.
  change (Fan.set_sensors _ (Fan.set_monitorTimer true f)) with (poweredOn e f).
  wp_step. wp_step. unfold powerOn_fires.
  destruct (bool_decide (Fan.numSensorFailsForNonFunc (poweredOn e f) ≠ 0)) eqn:Hthr;
    unfold when at 1; cbn [andb];
    [destruct (negb (Fan.functional (poweredOn e f)) &&
               (countNonFunctionalSensors (poweredOn e f) <?
                Fan.numSensorFailsForNonFunc (poweredOn e f))) eqn:Hc; unfold when|].
  - apply wp_updateInventory; intros He; rewrite He; by cbn.
  - wp_step. by rewrite !app_nil_r.
  - wp_step. by rewrite !app_nil_r.
Qed.

Lemma reset_sensor_readable e s a b :
  getProperty e (TachSensor.name s) = Some (a, b) →
  TachSensor.functional (reset_sensor e s) = true ∧
  TachSensor.tachInput (reset_sensor e s) = a ∧
  TachSensor.tachTarget (reset_sensor e s) = b ∧
  (TachSensor.method s = count → TachSensor.counter (reset_sensor e s) = 0).
Proof.
  intros Hg. rewrite (powerOn_sensor_reset e s a b Hg). unfold powerOn_sensor.
  cbv zeta. cbn [TachSensor.functional TachSensor.setTachAndTarget].
  destruct (TachSensor.functional s) eqn:Hf;
    cbn [TachSensor.method TachSensor.setTachAndTarget TachSensor.setFunctional];
    case_bool_decide as Hm; unfold TachSensor.resetMethod; cbn; rewrite ?Hm; cbn;
    repeat split; try done; congruence.
Qed.

(** * The power-on reset *)

(** C10 (as amended): on a power-on event while the fan is present, the
    monitor-start timer is armed again and, before it expires, every sensor
    whose reading is available on D-Bus is reset: it takes the reading, a
    non-functional sensor is set functional, with a status-change
    notification to the coordinator, and the fault counter of a count-method
    sensor is reset to 0; a sensor whose reading is not available is left as
    it is.  When the fan-level threshold is configured, the fan is recorded
    non-functional and the number of non-functional sensors is then below
    the threshold, an inventory notification restores the fan to functional,
    and the fan-level flag becomes functional when that notification is
    delivered. *)
Theorem powerOn_reset e f :
  Fan.present f = true →
  Fan.monitorTimer (exec (powerStateChanged e true) f) = true ∧
  Fan.monitorReady (exec (powerStateChanged e true) f) = Fan.monitorReady f ∧
  Fan.sensors (exec (powerStateChanged e true) f) = reset_sensor e <$> Fan.sensors f ∧
  (∀ i s, Fan.sensors f !! i = Some s →
     match getProperty e (TachSensor.name s) with
     | Some (input, target) =>
         TachSensor.functional (reset_sensor e s) = true ∧
         TachSensor.tachInput (reset_sensor e s) = input ∧
         TachSensor.tachTarget (reset_sensor e s) = target ∧
         (TachSensor.method s = count → TachSensor.counter (reset_sensor e s) = 0) ∧
         (TachSensor.functional s = false →
            FanStatusChange (Fan.name f) true ∈ trace (powerStateChanged e true) f)
     | None => reset_sensor e s = s
     end) ∧
  (Fan.numSensorFailsForNonFunc f ≠ 0 → Fan.functional f = false →
   countNonFunctionalSensors (exec (powerStateChanged e true) f) <
     Fan.numSensorFailsForNonFunc f →
   Notify (Fan.name f) true ∈ trace (powerStateChanged e true) f ∧
   (notifyError e = false → Fan.functional (exec (powerStateChanged e true) f) = true)).
Proof.
  intros Hp. destruct (powerOn_eq e f Hp) as [Hexec Htrace].
  assert (∃ b, exec (powerStateChanged e true) f = Fan.set_functional b (poweredOn e f))
    as [b Hb].
  { rewrite Hexec. destruct (powerOn_fires (poweredOn e f) && negb (notifyError e)).
    - by eexists.
    - exists (Fan.functional (poweredOn e f)). by rewrite set_functional_id. }
  split; [by rewrite Hb|]. split; [by rewrite Hb|]. split; [by rewrite Hb|].
  split.
  - intros i s Hs. destruct (getProperty e (TachSensor.name s)) as [[a c]|] eqn:Hg.
    + destruct (reset_sensor_readable e s a c Hg) as (H1 & H2 & H3 & H4).
      repeat (split; [done|]). intros Hf. rewrite Htrace. apply elem_of_app. left.
      change (trace (for_each_sensor (powerOn_each e)) (Fan.set_monitorTimer true f))
        with (trace (for_each (seq 0 (length (Fan.sensors f))) (powerOn_each e))
                (Fan.set_monitorTimer true f)).
      apply (for_each_seq_trace
        (λ f', Fan.sensors f' !! i = Some s ∧ Fan.name f' = Fan.name f ∧
               length (Fan.sensors f') = length (Fan.sensors f))
        _ _ i (length (Fan.sensors f))).
      * intros j f' (Hi & Hn & Hl) Hne Hj.
        destruct (lookup_lt_is_Some_2 (Fan.sensors f') j ltac:(lia)) as [x Hx].
        unfold exec. rewrite (powerOn_each_eq e j f' x Hx). cbn.
        by rewrite list_lookup_alter_ne, length_alter.
      * intros f' (Hi & Hn & Hl). unfold trace.
        rewrite (powerOn_each_eq e i f' s Hi), Hg, Hf, Hn. cbn.
        by apply list_elem_of_singleton.
      * split; [lia|]. apply lookup_lt_Some in Hs. lia.
      * lia.
      * done.
    + unfold reset_sensor. by rewrite Hg.
  - intros Hthr Hf Hc.
    assert (powerOn_fires (poweredOn e f) = true) as Hfire.
    { unfold powerOn_fires. rewrite Hb in Hc.
      rewrite count_set_functional in Hc.
      change (Fan.numSensorFailsForNonFunc (poweredOn e f))
        with (Fan.numSensorFailsForNonFunc f).
      change (Fan.functional (poweredOn e f)) with (Fan.functional f).
      rewrite bool_decide_eq_true_2, Hf by done. cbn.
      by apply N.ltb_lt. }
    split.
    + rewrite Htrace, Hfire. apply elem_of_app. right. by left.
    + intros He. by rewrite Hexec, Hfire, He.
Qed.

Lemma powerOn_reset_witness :
  Fan.sensors (exec (powerStateChanged (onBus true false) true)
    (fan0 [rotor "A" count 600 false 3 None; rotor "B" timebased 600 false 0 (Some func)]
          2 true false true (Some false))) =
  [rotor "A" count 1000 true 0 None; rotor "B" timebased 1000 true 0 (Some func)].
Proof.
  destruct (powerOn_reset (onBus true false)
    (fan0 [rotor "A" count 600 false 3 None; rotor "B" timebased 600 false 0 (Some func)]
          2 true false true (Some false)) eq_refl) as (_ & _ & H & _).
  rewrite H. reflexivity.
Defined.

(** The claim C10 as stated fails: both sensors are reset to functional, so
    the number of non-functional sensors, 0, is below the threshold 2, but
    the Notify call returns a method error and the fan is still recorded
    non-functional. *)
Lemma powerOn_reset_counterexample :
  countNonFunctionalSensors (exec (powerStateChanged (onBus true true) true)
    (fan0 [rotor "A" count 600 false 3 None; rotor "B" timebased 600 false 0 (Some func)]
          2 true false true (Some false))) = 0 ∧
  Fan.functional (exec (powerStateChanged (onBus true true) true)
    (fan0 [rotor "A" count 600 false 3 None; rotor "B" timebased 600 false 0 (Some func)]
          2 true false true (Some false))) = false.
Proof. by vm_compute. Qed.

(** * The fan-level flag and the sensors *)

Lemma consistent_same f f' :
  sensorFlags f' = sensorFlags f → Fan.functional f' = Fan.functional f →
  Fan.numSensorFailsForNonFunc f' = Fan.numSensorFailsForNonFunc f →
  consistent f → consistent f'.
Proof.
  intros Hs Hf Ht. unfold consistent. by rewrite Hf, Ht, (count_flags f' f Hs).
Qed.

Lemma flips_false_flag e f x :
  flips e f x = false →
  TachSensor.functional (process_sensor e f x) = TachSensor.functional x.
Proof.
  unfold flips. intros H. apply negb_false_iff, eqb_prop in H. done.
Qed.

Lemma consistent_process e i f x :
  notifyError e = false → Fan.numSensorFailsForNonFunc f ≠ 0 →
  Fan.sensors f !! i = Some x →
  consistent f → consistent (exec (process e i) f).
Proof.
  intros He Hthr Hx Hc. rewrite (exec_process e i f x Hx).
  destruct (flips e f x) eqn:Hfl.
  - by apply aggregated_consistent.
  - apply (consistent_same f); try done.
    apply sensorFlags_alterSensor_at. intros y Hy.
    assert (y = x) as -> by congruence. by apply flips_false_flag.
Qed.

Lemma threshold_process e i f x :
  Fan.sensors f !! i = Some x →
  Fan.numSensorFailsForNonFunc (exec (process e i) f) = Fan.numSensorFailsForNonFunc f ∧
  length (Fan.sensors (exec (process e i) f)) = length (Fan.sensors f).
Proof.
  intros Hx. rewrite (sensors_process e i f x Hx), length_alter.
  rewrite (exec_process e i f x Hx). split; [|done].
  destruct (flips e f x); [|done].
  by destruct (aggregated_cases e (alterSensor (process_sensor e f) i f)) as [b ->].
Qed.

Lemma consistent_countTimerExpired e f :
  notifyError e = false → Fan.numSensorFailsForNonFunc f ≠ 0 →
  consistent f → consistent (exec (countTimerExpired e) f).
Proof.
  intros He Hthr Hc. unfold countTimerExpired.
  enough (wp (for_each_sensor (countTimerExpired_each e)) (λ _ f' _,
    consistent f' ∧
    Fan.numSensorFailsForNonFunc f' = Fan.numSensorFailsForNonFunc f ∧
    length (Fan.sensors f') = length (Fan.sensors f)) f) as [H _] by exact H.
  apply (wp_for_each_sensor (λ f' _,
    consistent f' ∧
    Fan.numSensorFailsForNonFunc f' = Fan.numSensorFailsForNonFunc f ∧
    length (Fan.sensors f') = length (Fan.sensors f))); [|done].
  intros i f' o Hi (Hc' & Ht & Hl).
  destruct (lookup_lt_is_Some_2 (Fan.sensors f') i ltac:(lia)) as [x Hx].
  unfold countTimerExpired_each. wp_step. wp_step. wp_step; [done|].
  apply wp_unit. destruct (threshold_process e i f' x Hx) as [Ht' Hl'].
  split; [|split; congruence].
  apply (consistent_process e i f' x); try done. congruence.
Qed.

Lemma consistent_tachChanged e i f x :
  Fan.sensors f !! i = Some x →
  consistent f → consistent (exec (tachChanged e i) f).
Proof.
  intros Hx Hc. unfold exec. rewrite (tachChanged_eq e i f x Hx). cbn [fst snd].
  apply (consistent_same f); try done.
  apply sensorFlags_alterSensor. intros y. apply functional_tachChanged_sensor.
Qed.

Lemma consistent_updateState e i f :
  notifyError e = false → Fan.numSensorFailsForNonFunc f ≠ 0 →
  consistent f → consistent (exec (updateState e i) f).
Proof.
  intros He Hthr Hc. destruct (isPowerOn e) eqn:Hp.
  - rewrite exec_updateState by done. by apply aggregated_consistent.
  - unfold exec. by rewrite updateState_off.
Qed.

Lemma consistent_startMonitor e f :
  notifyError e = false → Fan.numSensorFailsForNonFunc f ≠ 0 →
  consistent f → consistent (exec (startMonitor e) f).
Proof.
  intros He Hthr Hc. unfold exec. rewrite startMonitor_eq.
  assert (consistent (startMonitor_armed f) ∧
          Fan.numSensorFailsForNonFunc (startMonitor_armed f) =
            Fan.numSensorFailsForNonFunc f ∧
          length (Fan.sensors (startMonitor_armed f)) = length (Fan.sensors f))
    as (Hc1 & Ht1 & Hl1).
  { unfold startMonitor_armed. cbv zeta. by case_bool_decide. }
  enough (wp (for_each_sensor (startMonitor_each e)) (λ _ f' _,
    consistent f' ∧
    Fan.numSensorFailsForNonFunc f' = Fan.numSensorFailsForNonFunc f ∧
    length (Fan.sensors f') = length (Fan.sensors f)) (startMonitor_armed f))
    as [H _] by exact H.
  apply (wp_for_each_sensor (λ f' _,
    consistent f' ∧
    Fan.numSensorFailsForNonFunc f' = Fan.numSensorFailsForNonFunc f ∧
    length (Fan.sensors f') = length (Fan.sensors f))); [|done].
  intros i f' o Hi (Hc' & Ht & Hl).
  destruct (lookup_lt_is_Some_2 (Fan.sensors f') i ltac:(lia)) as [x Hx].
  eapply wp_eq_run; [apply (startMonitor_each_eq e i f' x Hx)|].
  destruct (Fan.present f') eqn:Hpr; cbn [fst snd]; [|done].
  destruct (getProperty e (TachSensor.name x)) as [[a b]|] eqn:Hg; cbn [fst snd].
  - split; [|by cbn; rewrite length_alter].
    apply (consistent_same f'); try done.
    apply sensorFlags_alterSensor_at. intros y Hy. assert (y = x) as -> by congruence.
    apply functional_startMonitor_sensor_readable. by rewrite Hg.
  - cbv zeta. set (f2 := alterSensor (startMonitor_sensor e f') i f').
    assert (countNonFunctionalSensors f' ≤ countNonFunctionalSensors f2) as Hle.
    { apply count_alter_ge. intros y Hy. unfold startMonitor_sensor.
      destruct (getProperty e (TachSensor.name y)) as [[a b]|]; [|done].
      by rewrite functional_tachChanged_sensor. }
    split; [|destruct (_ && _); cbn; by rewrite length_alter].
    unfold startMonitor_fires. rewrite He.
    change (Fan.numSensorFailsForNonFunc f2) with (Fan.numSensorFailsForNonFunc f').
    change (Fan.functional f2) with (Fan.functional f').
    rewrite Ht, bool_decide_eq_true_2 by done. cbn [andb negb]. rewrite andb_true_r.
    unfold consistent in *. rewrite Ht in Hc'.
    destruct (Fan.functional f') eqn:Hf; cbn [andb].
    + destruct (N.leb_spec (Fan.numSensorFailsForNonFunc f)
                  (countNonFunctionalSensors f2)); cbn.
      * rewrite Ht. change (countNonFunctionalSensors (Fan.set_functional false f2))
          with (countNonFunctionalSensors f2). done.
      * rewrite Ht, Hf. split; [done|lia].
    + cbn. rewrite Ht, Hf. split; [|done]. intros _. destruct Hc' as [Hc' _].
      specialize (Hc' eq_refl). lia.
Qed.

Lemma count_fmap_le (g : TachSensor.t → TachSensor.t) f f0 :
  (∀ x, TachSensor.functional (g x) = false → TachSensor.functional x = false) →
  countNonFunctionalSensors (Fan.set_sensors (g <$> Fan.sensors f) f0) ≤
  countNonFunctionalSensors f.
Proof.
  intros Hg. unfold countNonFunctionalSensors. cbn [Fan.sensors Fan.set_sensors].
  induction (Fan.sensors f) as [|x l IH]; [done|].
  rewrite fmap_cons, !filter_cons.
  destruct (decide (TachSensor.functional (g x) = false)) as [H|H];
    destruct (decide (TachSensor.functional x = false)) as [H'|H'];
    rewrite ?length_cons; try lia.
  by apply Hg in H.
Qed.

Lemma functional_reset_sensor e x :
  TachSensor.functional (reset_sensor e x) = false → TachSensor.functional x = false.
Proof.
  unfold reset_sensor.
  destruct (getProperty e (TachSensor.name x)) as [[a b]|] eqn:Hg; [|done].
  destruct (reset_sensor_readable e x a b Hg) as [H _].
  rewrite (powerOn_sensor_reset e x a b Hg) in H. congruence.
Qed.

Lemma exec_powerOn_absent e f :
  Fan.present f = false →
  wp (powerStateChanged e true) (λ _ f' _,
    Fan.sensors f' = Fan.sensors f ∧ Fan.functional f' = Fan.functional f ∧
    Fan.numSensorFailsForNonFunc f' = Fan.numSensorFailsForNonFunc f) f.
Proof.
  intros Hp. unfold powerStateChanged. wp_step. wp_step. wp_step. wp_step.
  cbn [Fan.present Fan.set_monitorTimer]. rewrite Hp. by wp_steps.
Qed.

Lemma consistent_powerOn e f :
  notifyError e = false → Fan.numSensorFailsForNonFunc f ≠ 0 →
  consistent f → consistent (exec (powerStateChanged e true) f).
Proof.
  intros He Hthr Hc. destruct (Fan.present f) eqn:Hp.
  - destruct (powerOn_eq e f Hp) as [-> _]. rewrite He. cbn [negb]. rewrite andb_true_r.
    pose proof (count_fmap_le (reset_sensor e) f (Fan.set_monitorTimer true f)
                  (functional_reset_sensor e)) as Hle.
    fold (poweredOn e f) in Hle.
    unfold powerOn_fires, consistent in *.
    change (Fan.numSensorFailsForNonFunc (poweredOn e f))
      with (Fan.numSensorFailsForNonFunc f).
    change (Fan.functional (poweredOn e f)) with (Fan.functional f).
    rewrite bool_decide_eq_true_2 by done. cbn [andb].
    destruct (Fan.functional f) eqn:Hf; cbn [negb andb].
    + change (Fan.numSensorFailsForNonFunc (poweredOn e f))
        with (Fan.numSensorFailsForNonFunc f).
      change (Fan.functional (poweredOn e f)) with (Fan.functional f). rewrite Hf.
      split; [done|]. intros H. destruct Hc as [_ Hc]. apply Hc. lia.
    + destruct (N.ltb_spec (countNonFunctionalSensors (poweredOn e f))
                  (Fan.numSensorFailsForNonFunc f)); cbn.
      * change (countNonFunctionalSensors (Fan.set_functional true (poweredOn e f)))
          with (countNonFunctionalSensors (poweredOn e f)). split; [done|lia].
      * rewrite Hf. done.
  - destruct (exec_powerOn_absent e f Hp) as (Hs & Hf & Ht).
    apply (consistent_same f); try done. unfold sensorFlags. by rewrite Hs.
Qed.

Lemma consistent_handle e ev f :
  Fan.numSensorFailsForNonFunc f ≠ 0 → notifyError e = false →
  deliverable f ev = true → consistent f → consistent (exec (handle e ev) f).
Proof.
  intros Hthr He Hd Hc. destruct ev as [i a b| |i| |p|p|i|[|]]; cbn [handle].
  - cbn in Hd. apply bool_decide_eq_true in Hd.
    destruct (lookup_lt_is_Some_2 (Fan.sensors f) i Hd) as [x Hx].
    rewrite exec_bind.
    apply (consistent_tachChanged e i _ (TachSensor.setTachAndTarget a b x)).
    + cbn. by rewrite list_lookup_alter_eq, Hx.
    + apply (consistent_same f); try done.
      by apply (sensorFlags_alterSensor (TachSensor.setTachAndTarget a b)).
  - by apply consistent_countTimerExpired.
  - rewrite exec_bind. apply consistent_updateState; try done.
    apply (consistent_same f); try done.
    by apply (sensorFlags_alterSensor TachSensor.stopTimer).
  - rewrite exec_bind. by apply consistent_startMonitor.
  - unfold presenceChanged. destruct p as [p|]; [|done].
    apply (wp_exec _ consistent). by wp_steps.
  - unfold presenceIfaceAdded. destruct p as [p|]; [|done].
    apply (wp_exec _ consistent). by wp_steps.
  - unfold sensorErrorTimerExpired. apply (wp_exec _ consistent). by wp_steps.
  - by apply consistent_powerOn.
  - unfold exec. rewrite powerOff_eq. cbn [fst snd].
    apply (consistent_same f); try done. apply sameFlags_poweredOff.
Qed.

Lemma functional_handle_zero e ev f :
  Fan.numSensorFailsForNonFunc f = 0 →
  Fan.functional (exec (handle e ev) f) = Fan.functional f.
Proof.
  intros Hz.
  set (I := λ f', Fan.numSensorFailsForNonFunc f' = 0 ∧
                  Fan.functional f' = Fan.functional f).
  enough (I (exec (handle e ev) f)) as [_ H] by exact H.
  assert (∀ l f', I f' → I (Fan.set_sensors l f')) as HIs by done.
  assert (∀ b f', Fan.numSensorFailsForNonFunc f' ≠ 0 → I f' → I (Fan.set_functional b f'))
    as HIf.
  { intros b f' Hne [Hz' _]. done. }
  destruct ev as [i a b| |i| |p|p|i|[|]]; cbn [handle].
  - rewrite exec_bind. apply (inv_tachChanged I e); auto. by split.
  - apply (inv_countTimerExpired I e); auto. by split.
  - rewrite exec_bind. apply (inv_updateState I e); auto. by split.
  - rewrite exec_bind. apply (inv_startMonitor I e); auto.
    unfold startMonitor_armed. cbv zeta. by case_bool_decide.
  - unfold presenceChanged. destruct p as [p|]; [|done].
    apply (wp_exec _ I). by wp_steps.
  - unfold presenceIfaceAdded. destruct p as [p|]; [|done].
    apply (wp_exec _ I). by wp_steps.
  - unfold sensorErrorTimerExpired. apply (wp_exec _ I). by wp_steps.
  - apply (inv_powerOn I e); auto. by split.
  - unfold exec. by rewrite powerOff_eq.
Qed.

Lemma functional_handle_failing e ev f :
  notifyError e = true →
  Fan.functional (exec (handle e ev) f) = Fan.functional f.
Proof.
  intros He.
  set (I := λ f', Fan.functional f' = Fan.functional f).
  change (I (exec (handle e ev) f)).
  assert (∀ l f', I f' → I (Fan.set_sensors l f')) as HIs by done.
  assert (notifyError e = false → ∀ b f', Fan.numSensorFailsForNonFunc f' ≠ 0 →
            I f' → I (Fan.set_functional b f')) as HIf by congruence.
  assert (notifyError e = false → ∀ b f', Fan.numSensorFailsForNonFunc f' ≠ 0 →
            Fan.present f' = true → I f' → I (Fan.set_functional b f')) as HIp
    by congruence.
  destruct ev as [i a b| |i| |p|p|i|[|]]; cbn [handle].
  - rewrite exec_bind. apply (inv_tachChanged I e); auto. done.
  - apply (inv_countTimerExpired I e); auto. done.
  - rewrite exec_bind. apply (inv_updateState I e); auto. done.
  - rewrite exec_bind. apply (inv_startMonitor I e); auto.
    unfold startMonitor_armed. cbv zeta. by case_bool_decide.
  - unfold presenceChanged. destruct p as [p|]; [|done].
    apply (wp_exec _ I). by wp_steps.
  - unfold presenceIfaceAdded. destruct p as [p|]; [|done].
    apply (wp_exec _ I). by wp_steps.
  - unfold sensorErrorTimerExpired. apply (wp_exec _ I). by wp_steps.
  - apply (inv_powerOn I e); auto. done.
  - unfold exec. by rewrite powerOff_eq.
Qed.

(** C2 (as amended): with a sensor-failure threshold greater than 0, the
    fan-level functional flag is false if and only if the number of
    non-functional sensors is at least the threshold, as long as the
    inventory accepts the notifications: a sensor transition
    ([Fan::updateState] with power on) establishes this from any state, and
    every callback keeps it.  When the Notify call fails, the flag keeps the
    value it had: no callback changes the fan-level functional flag while
    the inventory refuses the notifications.  With a threshold of 0 no
    callback changes the fan-level functional flag; at fan level only the
    presence follows the events. *)
Theorem fan_flag_consistent :
  (∀ e i f, Fan.numSensorFailsForNonFunc f ≠ 0 → isPowerOn e = true →
     notifyError e = false → consistent (exec (updateState e i) f)) ∧
  (∀ e ev f, Fan.numSensorFailsForNonFunc f ≠ 0 → notifyError e = false →
     deliverable f ev = true → consistent f → consistent (exec (handle e ev) f)) ∧
  (∀ e ev f, notifyError e = true →
     Fan.functional (exec (handle e ev) f) = Fan.functional f) ∧
  (∀ e ev f, Fan.numSensorFailsForNonFunc f = 0 →
     Fan.functional (exec (handle e ev) f) = Fan.functional f) ∧
  (∀ e p f, Fan.present (exec (presenceChanged e (Some p)) f) = p).
Proof.
  split; [|split; [|split; [|split]]].
  - intros e i f Hthr Hp He. rewrite exec_updateState by done.
    by apply aggregated_consistent.
  - apply consistent_handle.
  - apply functional_handle_failing.
  - apply functional_handle_zero.
  - intros e p f. unfold presenceChanged.
    apply (wp_exec _ (λ f', Fan.present f' = p)). by wp_steps.
Qed.

Lemma fan_flag_consistent_witness :
  consistent (exec (updateState (onBus true false) 1)
    (fan0 [rotor "A" timebased 600 false 0 None; rotor "B" timebased 600 true 0 None]
          2 true true true None)) ∧
  Fan.functional (exec (handle (onBus true true) (SensorTimerExpired 1))
    (fan0 [rotor "A" timebased 600 false 0 None;
           rotor "B" timebased 600 true 0 (Some nonfunc)]
          2 true true true None)) = true.
Proof.
  destruct fan_flag_consistent as (H1 & _ & H2 & _). split.
  - apply H1; [discriminate|reflexivity|reflexivity].
  - apply (H2 (onBus true true) (SensorTimerExpired 1)). reflexivity.
Defined.

(** The claim C2 as stated fails: the second sensor becomes non-functional,
    the number of non-functional sensors reaches the threshold 2, the Notify
    call returns a method error, and the fan-level flag is still true. *)
Lemma fan_flag_counterexample :
  countNonFunctionalSensors (exec (updateState (onBus true true) 1)
    (fan0 [rotor "A" timebased 600 false 0 None; rotor "B" timebased 600 true 0 None]
          2 true true true None)) = 2 ∧
  Fan.functional (exec (updateState (onBus true true) 1)
    (fan0 [rotor "A" timebased 600 false 0 None; rotor "B" timebased 600 true 0 None]
          2 true true true None)) = true.
Proof. by vm_compute. Qed.

(** * Scenarios of the specification, run on the embedding *)

(** Scenario A: fan0 with threshold 2 and two time-based rotors.  The
    reading of A drops to 600 and its timer expires: A is non-functional and
    the fan stays functional.  The same happens to B: the fan becomes
    non-functional, and that last callback makes exactly one Notify call. *)
Example scenario_A :
  let w0 := {| power := true;
               fan := fan0 [rotor "A" timebased 1000 true 0 None;
                            rotor "B" timebased 1000 true 0 None]
                           2 true true true None |} in
  let w1 := run w0 [(onBus true false, TachChanged 0 600 1000);
                    (onBus true false, SensorTimerExpired 0)] in
  let w2 := run w1 [(onBus true false, TachChanged 1 600 1000)] in
  sensorFlags (fan w1) = [false; true] ∧ Fan.functional (fan w1) = true ∧
  notifications (trace (handle (onBus true false) (SensorTimerExpired 1)) (fan w2)) =
    [Notify "fan0" false] ∧
  sensorFlags (fan (step w2 (onBus true false, SensorTimerExpired 1))) = [false; false] ∧
  Fan.functional (fan (step w2 (onBus true false, SensorTimerExpired 1))) = false.
Proof. by vm_compute. Qed.

(** Scenario C: readings delivered while the power is off are ignored; the
    expiry of the monitor-start timer after power on evaluates the
    sensors. *)
Example scenario_C :
  let w0 := {| power := true;
               fan := fan0 [rotor "A" timebased 1000 true 0 None]
                           2 true true true None |} in
  let w1 := run w0 [(onBus true false, PowerStateChanged false);
                    (onBus true false, TachChanged 0 600 1000)] in
  let w2 := run w1 [(onBus true false, PowerStateChanged true)] in
  TachSensor.timer <$> Fan.sensors (fan w1) = [None] ∧
  Fan.monitorReady (fan w2) = false ∧ Fan.monitorTimer (fan w2) = true ∧
  Fan.monitorReady (fan (step w2 (offBus true false, MonitorTimerExpired))) = true ∧
  sensorFlags (fan (step w2 (offBus true false, MonitorTimerExpired))) = [false].
Proof. by vm_compute. Qed.

(** * Further properties of the member functions *)

Lemma set_timer_id s : TachSensor.set_timer (TachSensor.timer s) s = s.
Proof. by destruct s. Qed.

Lemma startTimer_set_timer m s :
  TachSensor.startTimer m s = TachSensor.set_timer (Some m) s.
Proof.
  unfold TachSensor.startTimer. case_bool_decide as H; [|done].
  by rewrite <- H, set_timer_id.
Qed.

Lemma process_sensor_timebased e f s :
  TachSensor.method s = timebased →
  ∃ tm, process_sensor e f s = TachSensor.set_timer tm s.
Proof.
  intros Hm. unfold process_sensor. rewrite Hm.
  destruct (outOfRange e f s), (TachSensor.functional s).
  - eexists. apply startTimer_set_timer.
  - exists (TachSensor.timer s). by rewrite set_timer_id.
  - destruct (TachSensor.timerRunning s); [by exists None|].
    exists (TachSensor.timer s). by rewrite set_timer_id.
  - eexists. apply startTimer_set_timer.
Qed.

(** X1: a change of a sensor's value, handed to [Fan::tachChanged], never
    makes a transition by itself: no call is made (no inventory update, no
    status change, no log), and of the whole fan only the debounce timer of
    that sensor can change; functional flags and fault counters stay.  A
    count-method sensor is left entirely alone (its evaluation is the count
    timer's), and so is a sensor that an active trust manager rejects. *)
Theorem tachChanged_only_timer e i f s :
  Fan.sensors f !! i = Some s →
  ∃ tm,
    tachChanged e i f =
      (tt, Fan.set_sensors (<[i:=TachSensor.set_timer tm s]> (Fan.sensors f)) f, []) ∧
    (TachSensor.method s = count → tm = TachSensor.timer s) ∧
    (trustActive e = true → checkTrust e s = false → tm = TachSensor.timer s).
Proof.
  intros Hs. rewrite (tachChanged_eq e i f s Hs), (alterSensor_insert _ _ _ _ Hs).
  unfold tachChanged_sensor.
  destruct (negb (isPowerOn e) || negb (Fan.monitorReady f)).
  { exists (TachSensor.timer s). by rewrite set_timer_id. }
  destruct (trustActive e && negb (checkTrust e s)) eqn:Ht.
  { exists (TachSensor.timer s). by rewrite set_timer_id. }
  case_bool_decide as Hm.
  - destruct (process_sensor_timebased e f s Hm) as [tm ->]. exists tm.
    split; [done|]. split; [congruence|].
    intros Ha Hc. by rewrite Ha, Hc in Ht.
  - exists (TachSensor.timer s). by rewrite set_timer_id.
Qed.

Lemma tachChanged_only_timer_witness :
  ∃ tm,
    tachChanged (onBus true false) 0
      (fan0 [rotor "A" count 600 true 0 None] 2 true true true (Some true)) =
      (tt, Fan.set_sensors
             (<[0%nat:=TachSensor.set_timer tm (rotor "A" count 600 true 0 None)]>
                [rotor "A" count 600 true 0 None])
             (fan0 [rotor "A" count 600 true 0 None] 2 true true true (Some true)), []) ∧
    tm = None.
Proof.
  destruct (tachChanged_only_timer (onBus true false) 0
    (fan0 [rotor "A" count 600 true 0 None] 2 true true true (Some true))
    (rotor "A" count 600 true 0 None) eq_refl) as (tm & H1 & H2 & _).
  exists tm. split; [exact H1|]. exact (H2 eq_refl).
Defined.

Lemma shell_alterSensor g i f : shell (alterSensor g i f) = shell f.
Proof. done. Qed.

Lemma tachChanged_all_loop e f :
  for_each_sensor (tachChanged e) f =
    (tt, Fan.set_sensors (tachChanged_sensor e f <$> Fan.sensors f) f, []).
Proof.
  rewrite (run_eq (for_each_sensor (tachChanged e)) f).
  destruct (for_each_sensor_fmap (λ f', shell f' = shell f) (tachChanged_sensor e f)
              (tachChanged e) f) as [Hs Hsh]; [|done|].
  { intros i f' x Hsh Hx. unfold exec. rewrite (tachChanged_eq e i f' x Hx). cbn [fst snd].
    split; [|done]. cbn. apply list_alter_ext; [|done]. intros y _.
    apply tachChanged_sensor_ext; by rewrite (shell_eq _ _ Hsh). }
  assert (trace (for_each_sensor (tachChanged e)) f = []) as ->.
  { apply (wp_for_each_sensor
      (λ f' o, length (Fan.sensors f') = length (Fan.sensors f) ∧ o = [])); [|done].
    intros i f' o Hi [Hlen ->].
    destruct (lookup_lt_is_Some_2 (Fan.sensors f') i ltac:(lia)) as [x Hx].
    eapply wp_eq; [by apply (tachChanged_eq e i f' x)|].
    split; [|done]. cbn. by rewrite length_alter. }
  by rewrite (shell_eq _ _ Hsh), Hs.
Qed.

(** X2: [Fan::tachChanged()], the check of all sensors, does nothing before
    the fan is monitor-ready.  Otherwise it makes no call and changes nothing
    of the fan but its sensors, whose functional flags and fault counters
    stay; every sensor ends as [Fan::tachChanged(TachSensor&)] alone leaves
    it, so the order of the sensors does not matter. *)
Theorem tachChanged_all_sensors e f :
  (Fan.monitorReady f = false → tachChanged_all e f = (tt, f, [])) ∧
  trace (tachChanged_all e) f = [] ∧
  shell (exec (tachChanged_all e) f) = shell f ∧
  sensorFlags (exec (tachChanged_all e) f) = sensorFlags f ∧
  TachSensor.counter <$> Fan.sensors (exec (tachChanged_all e) f) =
    TachSensor.counter <$> Fan.sensors f ∧
  (∀ i s, Fan.sensors f !! i = Some s →
     Fan.sensors (exec (tachChanged_all e) f) !! i =
     Fan.sensors (exec (tachChanged e i) f) !! i).
Proof.
  assert (tachChanged_all e f =
          if Fan.monitorReady f
          then (tt, Fan.set_sensors (tachChanged_sensor e f <$> Fan.sensors f) f, [])
          else (tt, f, [])) as Heq.
  { unfold tachChanged_all. cbv [mbind M_bind get fst snd].
    destruct (Fan.monitorReady f); unfold when; [|done].
    by rewrite tachChanged_all_loop. }
  assert (∀ s, ∃ tm, tachChanged_sensor e f s = TachSensor.set_timer tm s) as Htm.
  { intros s. unfold tachChanged_sensor.
    destruct (_ || _); [exists (TachSensor.timer s); by rewrite set_timer_id|].
    destruct (_ && _); [exists (TachSensor.timer s); by rewrite set_timer_id|].
    case_bool_decide as Hm; [by apply process_sensor_timebased|].
    exists (TachSensor.timer s). by rewrite set_timer_id. }
  unfold exec, trace. rewrite Heq.
  split; [by intros ->|].
  destruct (Fan.monitorReady f) eqn:Hr; cbn [fst snd].
  - split; [done|]. split; [done|]. split; [|split].
    + unfold sensorFlags. cbn. rewrite <- list_fmap_compose. apply list_fmap_ext.
      intros j s _. cbn. by destruct (Htm s) as [tm ->].
    + cbn. rewrite <- list_fmap_compose. apply list_fmap_ext.
      intros j s _. cbn. by destruct (Htm s) as [tm ->].
    + intros i s Hs. rewrite (tachChanged_eq e i f s Hs). cbn.
      by rewrite list_lookup_fmap, list_lookup_alter_eq.
  - repeat (split; [done|]). intros i s Hs.
    rewrite (tachChanged_eq e i f s Hs). cbn. rewrite list_lookup_alter_eq, Hs. cbn.
    unfold tachChanged_sensor. by rewrite Hr, orb_true_r.
Qed.

Lemma tachChanged_all_sensors_witness :
  tachChanged_all (onBus true false)
    (fan0 [rotor "A" timebased 600 true 0 None] 2 true true false None) =
  (tt, fan0 [rotor "A" timebased 600 true 0 None] 2 true true false None, []).
Proof.
  destruct (tachChanged_all_sensors (onBus true false)
    (fan0 [rotor "A" timebased 600 true 0 None] 2 true true false None)) as [H _].
  exact (H eq_refl).
Defined.

Lemma statusChanges_app o1 o2 :
  statusChanges (o1 ++ o2) = statusChanges o1 ++ statusChanges o2.
Proof. apply List.filter_app. Qed.

Lemma statusChanges_aggregated_calls e f : statusChanges (aggregated_calls e f) = [].
Proof.
  unfold aggregated_calls. destruct (crossing f); [|done]. by destruct (notifyError e).
Qed.

(** X3: with power on, [Fan::updateState] flips the functional flag of the
    sensor it is given and of no other sensor, keeps the fault counters and
    timers, and reports the transition to the coordinator exactly once,
    whether or not the fan-level flag changes and whether or not the
    inventory accepts the notification.  Of the fan itself nothing but the
    fan-level functional flag can change. *)
Theorem updateState_reports e i f s :
  isPowerOn e = true →
  Fan.sensors f !! i = Some s →
  Fan.sensors (exec (updateState e i) f) =
    <[i:=TachSensor.setFunctional (negb (TachSensor.functional s)) s]> (Fan.sensors f) ∧
  statusChanges (trace (updateState e i) f) = [FanStatusChange (Fan.name f) false] ∧
  shell (Fan.set_functional (Fan.functional f) (exec (updateState e i) f)) = shell f.
Proof.
  intros Hp Hs. unfold exec, trace. rewrite updateState_on by done. cbv zeta. cbn [fst snd].
  change (Fan.set_sensors (alter toggle i (Fan.sensors f)) f) with (alterSensor toggle i f).
  split; [|split].
  - rewrite sensors_aggregated, (alterSensor_insert _ _ _ _ Hs). done.
  - change (LogEvent :: ?l) with ([LogEvent] ++ l).
    by rewrite !statusChanges_app, statusChanges_aggregated_calls.
  - by destruct (aggregated_cases e (alterSensor toggle i f)) as [b ->].
Qed.

Lemma updateState_reports_witness :
  statusChanges (trace (updateState (onBus true true) 0)
    (fan0 [rotor "A" timebased 600 true 0 None] 1 true true true None)) =
  [FanStatusChange "fan0" false].
Proof.
  destruct (updateState_reports (onBus true true) 0
    (fan0 [rotor "A" timebased 600 true 0 None] 1 true true true None)
    (rotor "A" timebased 600 true 0 None) eq_refl eq_refl) as (_ & H & _).
  exact H.
Defined.

(** ** Presence *)

Lemma set_fanMissingErrorTimer_id f :
  Fan.set_fanMissingErrorTimer (Fan.fanMissingErrorTimer f) f = f.
Proof. by destruct f. Qed.

Lemma presenceChanged_eq e p f :
  presenceChanged e (Some p) f =
    (tt,
     Fan.set_fanMissingErrorTimer
       (if bool_decide (is_Some (Fan.fanMissingErrorDelay f))
        then (if negb p && isPowerOn e then restartOnce (Fan.fanMissingErrorTimer f)
              else if p && isEnabled (Fan.fanMissingErrorTimer f)
                   then disable (Fan.fanMissingErrorTimer f)
                   else Fan.fanMissingErrorTimer f)
        else Fan.fanMissingErrorTimer f)
       (Fan.set_present p f),
     [LogEvent; FanStatusChange (Fan.name f) false]).
Proof.
  apply wp_run_eq. unfold presenceChanged.
  wp_step. wp_step. wp_step. wp_step. wp_step. wp_step. wp_step. wp_step.
  cbn [Fan.fanMissingErrorDelay Fan.set_present Fan.present Fan.fanMissingErrorTimer
       Fan.name].
  destruct (bool_decide (is_Some (Fan.fanMissingErrorDelay f))); unfold when at 1.
  - destruct (negb p && isPowerOn e); [by wp_step|].
    destruct (p && isEnabled (Fan.fanMissingErrorTimer f)); unfold when; wp_step;
      [done|].
    split; [|done].
    by rewrite <- (set_fanMissingErrorTimer_id (Fan.set_present p f)) at 1.
  - wp_step. split; [|done].
    by rewrite <- (set_fanMissingErrorTimer_id (Fan.set_present p f)) at 1.
Qed.

(** X4: [Fan::presenceChanged] ignores a message that has no Present
    property: nothing changes and no call is made.  With the property, the
    presence flag takes its value, the coordinator is notified of the change
    exactly once, and of the fan nothing else can change but the
    fan-missing timer: sensors, functional flags, monitor state and the
    other timers stay. *)
Theorem presenceChanged_effect e f :
  presenceChanged e None f = (tt, f, []) ∧
  (∀ p,
     Fan.present (exec (presenceChanged e (Some p)) f) = p ∧
     trace (presenceChanged e (Some p)) f = [LogEvent; FanStatusChange (Fan.name f) false] ∧
     Fan.set_fanMissingErrorTimer (Fan.fanMissingErrorTimer f)
       (Fan.set_present (Fan.present f) (exec (presenceChanged e (Some p)) f)) = f).
Proof.
  split; [done|]. intros p. unfold exec, trace. rewrite presenceChanged_eq. cbn [fst snd].
  split; [done|]. split; [done|]. by destruct f.
Qed.

Lemma isEnabled_restartOnce tm : isEnabled (restartOnce tm) = bool_decide (is_Some tm).
Proof. by destruct tm. Qed.

Lemma isEnabled_disable tm : isEnabled (disable tm) = false.
Proof. by destruct tm. Qed.

(** X5: when a fan-missing delay is configured, after
    [Fan::presenceChanged] the fan-missing timer is disarmed if the fan is
    now present; if the fan is now absent it is armed (again) with power on,
    and left as it was with power off.  So a fan that goes absent and comes
    back leaves no armed timer behind.  Without a configured delay the timer
    is never touched. *)
Theorem presenceChanged_missing_timer e p f :
  (is_Some (Fan.fanMissingErrorDelay f) →
     isEnabled (Fan.fanMissingErrorTimer (exec (presenceChanged e (Some p)) f)) =
       (if p then false
        else if isPowerOn e then bool_decide (is_Some (Fan.fanMissingErrorTimer f))
        else isEnabled (Fan.fanMissingErrorTimer f)) ∧
     ∀ e', isEnabled (Fan.fanMissingErrorTimer
             (exec (presenceChanged e' (Some true))
                (exec (presenceChanged e (Some false)) f))) = false) ∧
  (Fan.fanMissingErrorDelay f = None →
     Fan.fanMissingErrorTimer (exec (presenceChanged e (Some p)) f) =
       Fan.fanMissingErrorTimer f).
Proof.
  assert (∀ e p f, is_Some (Fan.fanMissingErrorDelay f) →
     isEnabled (Fan.fanMissingErrorTimer (exec (presenceChanged e (Some p)) f)) =
       (if p then false
        else if isPowerOn e then bool_decide (is_Some (Fan.fanMissingErrorTimer f))
        else isEnabled (Fan.fanMissingErrorTimer f))) as H.
  { clear. intros e p f Hd. unfold exec. rewrite presenceChanged_eq. cbn [fst snd].
    cbn [Fan.fanMissingErrorTimer Fan.set_fanMissingErrorTimer].
    rewrite bool_decide_eq_true_2 by done.
    destruct p, (isPowerOn e); cbn [negb andb].
    - destruct (isEnabled (Fan.fanMissingErrorTimer f)) eqn:He; [|done].
      apply isEnabled_disable.
    - destruct (isEnabled (Fan.fanMissingErrorTimer f)) eqn:He; [|done].
      apply isEnabled_disable.
    - apply isEnabled_restartOnce.
    - done. }
  split.
  - intros Hd. split; [by apply H|]. intros e'. rewrite H; [done|].
    unfold exec. by rewrite presenceChanged_eq.
  - intros Hd. unfold exec. rewrite presenceChanged_eq. cbn. by rewrite Hd.
Qed.

Lemma presenceChanged_missing_timer_witness :
  isEnabled (Fan.fanMissingErrorTimer
    (exec (presenceChanged (onBus true false) (Some false))
       (Fan.mk "fan0" 10 2 [] true true true false None (Some 60) (Some false)))) = true.
Proof.
  destruct (presenceChanged_missing_timer (onBus true false) false
    (Fan.mk "fan0" 10 2 [] true true true false None (Some 60) (Some false)))
    as [H _].
  destruct (H ltac:(by eexists)) as [H1 _]. exact H1.
Defined.

Lemma presenceIfaceAdded_eq e p f :
  presenceIfaceAdded e (Some p) f =
    (tt,
     Fan.set_fanMissingErrorTimer
       (if negb p && isPowerOn e then restartOnce (Fan.fanMissingErrorTimer f)
        else Fan.fanMissingErrorTimer f)
       (Fan.set_present p f),
     (if p then [] else [LogEvent]) ++ [FanStatusChange (Fan.name f) false]).
Proof.
  apply wp_run_eq. unfold presenceIfaceAdded.
  wp_step. wp_step. wp_step. wp_step. wp_step.
  cbn [Fan.set_present Fan.present Fan.fanMissingErrorTimer Fan.name].
  destruct p; unfold when at 1; cbn [negb andb].
  - wp_step. wp_step. split; [|done].
    by rewrite <- (set_fanMissingErrorTimer_id (Fan.set_present true f)) at 1.
  - wp_step. wp_step.
    destruct (isPowerOn e); cbn [andb].
    + destruct (Fan.fanMissingErrorTimer f) as [b|] eqn:Ht; unfold when.
      * rewrite bool_decide_eq_true_2 by (by eexists). wp_step. wp_step. done.
      * rewrite bool_decide_eq_false_2 by (by intros [? ?]). wp_step. wp_step.
        split; [|done]. cbn.
        by rewrite <- Ht, <- (set_fanMissingErrorTimer_id (Fan.set_present false f)) at 1.
    + unfold when. wp_step. wp_step. split; [|done].
      by rewrite <- (set_fanMissingErrorTimer_id (Fan.set_present false f)) at 1.
Qed.

(** X6: [Fan::presenceIfaceAdded] ignores a message without the Present
    property of the inventory item interface.  With it, the presence flag
    takes its value and the coordinator is notified exactly once.  With
    power on, a fan reported absent arms the fan-missing timer whenever that
    timer exists; unlike [Fan::presenceChanged], this callback never disarms
    the timer: an armed timer stays armed even when the fan is reported
    present.  Nothing else of the fan changes. *)
Theorem presenceIfaceAdded_effect e f :
  presenceIfaceAdded e None f = (tt, f, []) ∧
  (∀ p,
     Fan.present (exec (presenceIfaceAdded e (Some p)) f) = p ∧
     statusChanges (trace (presenceIfaceAdded e (Some p)) f) =
       [FanStatusChange (Fan.name f) false] ∧
     Fan.fanMissingErrorTimer (exec (presenceIfaceAdded e (Some p)) f) =
       (if negb p && isPowerOn e then restartOnce (Fan.fanMissingErrorTimer f)
        else Fan.fanMissingErrorTimer f) ∧
     (isEnabled (Fan.fanMissingErrorTimer f) = true →
      isEnabled (Fan.fanMissingErrorTimer (exec (presenceIfaceAdded e (Some p)) f)) = true) ∧
     Fan.set_fanMissingErrorTimer (Fan.fanMissingErrorTimer f)
       (Fan.set_present (Fan.present f) (exec (presenceIfaceAdded e (Some p)) f)) = f).
Proof.
  split; [done|]. intros p. unfold exec, trace. rewrite presenceIfaceAdded_eq.
  cbn [fst snd]. split; [done|]. split; [by destruct p|]. split; [done|].
  split; [|by destruct f].
  cbn. intros He. destruct (negb p && isPowerOn e); [|done].
  by destruct (Fan.fanMissingErrorTimer f).
Qed.

Lemma presenceIfaceAdded_effect_witness :
  isEnabled (Fan.fanMissingErrorTimer
    (exec (presenceIfaceAdded (onBus true false) (Some true))
       (Fan.mk "fan0" 10 2 [] false true true false None (Some 60) (Some true)))) = true.
Proof.
  destruct (presenceIfaceAdded_effect (onBus true false)
    (Fan.mk "fan0" 10 2 [] false true true false None (Some 60) (Some true)))
    as [_ H].
  destruct (H true) as (_ & _ & _ & H1 & _). exact (H1 eq_refl).
Defined.

(** ** A fan that is absent *)

Lemma powerOn_absent_eq e f :
  Fan.present f = false →
  powerStateChanged e true f =
    (tt,
     Fan.set_fanMissingErrorTimer (restartOnce (Fan.fanMissingErrorTimer f))
       (Fan.set_monitorTimer true f),
     [LogEvent]).
Proof.
  intros Hp. apply wp_run_eq. unfold powerStateChanged.
  wp_step. wp_step. wp_step. wp_step.
  cbn [Fan.present Fan.set_monitorTimer Fan.fanMissingErrorTimer]. rewrite Hp.
  wp_step. wp_step.
  destruct (Fan.fanMissingErrorTimer f) as [b|] eqn:Ht; unfold when.
  - rewrite bool_decide_eq_true_2 by (by eexists). by wp_step.
  - rewrite bool_decide_eq_false_2 by (by intros [? ?]). wp_step. split; [|done].
    cbn. by rewrite <- Ht, <- (set_fanMissingErrorTimer_id (Fan.set_monitorTimer true f)) at 1.
Qed.

(** X7: while the fan is absent, neither the monitor start nor the power-on
    reset looks at a sensor.  [Fan::startMonitor] only sets monitor-ready
    and enables the count timer if there is one: it makes no call, reads no
    sensor and marks none non-functional.  [Fan::powerStateChanged(true)]
    only arms the monitor-start timer and, if it exists, the fan-missing
    timer, and logs once: no sensor is reset.  Everything else of the fan,
    the sensors and the functional flags included, stays as it was. *)
Theorem absent_fan_lifecycle e f :
  Fan.present f = false →
  (trace (startMonitor e) f = [] ∧
   Fan.monitorReady (exec (startMonitor e) f) = true ∧
   isEnabled (Fan.countTimer (exec (startMonitor e) f)) =
     bool_decide (is_Some (Fan.countTimer f)) ∧
   Fan.set_countTimer (Fan.countTimer f)
     (Fan.set_monitorReady (Fan.monitorReady f) (exec (startMonitor e) f)) = f) ∧
  (trace (powerStateChanged e true) f = [LogEvent] ∧
   Fan.monitorTimer (exec (powerStateChanged e true) f) = true ∧
   isEnabled (Fan.fanMissingErrorTimer (exec (powerStateChanged e true) f)) =
     bool_decide (is_Some (Fan.fanMissingErrorTimer f)) ∧
   Fan.set_fanMissingErrorTimer (Fan.fanMissingErrorTimer f)
     (Fan.set_monitorTimer (Fan.monitorTimer f) (exec (powerStateChanged e true) f)) = f).
Proof.
  intros Hp. unfold exec, trace.
  rewrite (startMonitor_absent_eq e f Hp), (powerOn_absent_eq e f Hp). cbn [fst snd].
  split.
  - split; [done|]. unfold startMonitor_armed. cbv zeta.
    cbn [Fan.countTimer Fan.set_monitorReady].
    destruct f as [n d t l p fn mr mt [b|] dl tm]; cbn [Fan.countTimer].
    + rewrite bool_decide_eq_true_2 by (by eexists). by cbn.
    + rewrite bool_decide_eq_false_2 by (by intros [? ?]). by cbn.
  - split; [done|]. split; [done|]. split; [apply isEnabled_restartOnce|].
    by destruct f.
Qed.

Lemma absent_fan_lifecycle_witness :
  trace (startMonitor (offBus true false))
    (fan0 [rotor "A" timebased 600 true 0 None] 1 false true false None) = [].
Proof.
  destruct (absent_fan_lifecycle (offBus true false)
    (fan0 [rotor "A" timebased 600 true 0 None] 1 false true false None) eq_refl)
    as [[H _] _].
  exact H.
Defined.

(** ** What the monitor start and the power-on reset never do *)

Lemma sensorConfig_startTimer m s :
  sensorConfig (TachSensor.startTimer m s) = sensorConfig s.
Proof. unfold TachSensor.startTimer. by case_bool_decide. Qed.

Lemma sensorConfig_process_sensor e f s :
  sensorConfig (process_sensor e f s) = sensorConfig s.
Proof.
  unfold process_sensor. cbv zeta.
  destruct (outOfRange e f s), (TachSensor.functional s) eqn:Hf,
    (TachSensor.method s) eqn:Hm; try done.
  - apply sensorConfig_startTimer.
  - by destruct (_ && _).
  - by destruct (TachSensor.timerRunning s).
  - by destruct (_ && _).
  - apply sensorConfig_startTimer.
  - by destruct (_ && _).
Qed.

Lemma sensorConfig_tachChanged_sensor e f s :
  sensorConfig (tachChanged_sensor e f s) = sensorConfig s.
Proof.
  unfold tachChanged_sensor. destruct (_ || _); [done|]. destruct (_ && _); [done|].
  case_bool_decide; [|done]. apply sensorConfig_process_sensor.
Qed.

Lemma sensorConfig_startMonitor_sensor e f s :
  sensorConfig (startMonitor_sensor e f s) = sensorConfig s.
Proof.
  unfold startMonitor_sensor. destruct (getProperty e (TachSensor.name s)) as [[a b]|];
    [|done].
  by rewrite sensorConfig_tachChanged_sensor.
Qed.

Lemma name_startMonitor_sensor e f s :
  TachSensor.name (startMonitor_sensor e f s) = TachSensor.name s.
Proof.
  pose proof (sensorConfig_startMonitor_sensor e f s) as H.
  unfold sensorConfig in H. congruence.
Qed.

Lemma startMonitor_armed_fields f :
  Fan.sensors (startMonitor_armed f) = Fan.sensors f ∧
  Fan.present (startMonitor_armed f) = Fan.present f ∧
  Fan.functional (startMonitor_armed f) = Fan.functional f.
Proof. unfold startMonitor_armed. cbv zeta. by case_bool_decide. Qed.

Lemma staysFailed_startMonitor_sensor e f x : staysFailed x (startMonitor_sensor e f x).
Proof.
  unfold staysFailed, startMonitor_sensor.
  destruct (getProperty e (TachSensor.name x)) as [[a b]|]; [|done].
  by rewrite functional_tachChanged_sensor.
Qed.

Lemma startMonitor_keeps_nonfunctional e f :
  Fan.functional f = false → Fan.functional (exec (startMonitor e) f) = false.
Proof.
  intros Hf. unfold exec. rewrite startMonitor_eq.
  destruct (startMonitor_armed_fields f) as (Hs1 & _ & Hf1).
  enough (wp (for_each_sensor (startMonitor_each e)) (λ _ f' _,
    Fan.functional f' = false ∧
    length (Fan.sensors f') = length (Fan.sensors (startMonitor_armed f)))
    (startMonitor_armed f)) as [H _] by exact H.
  apply (wp_for_each_sensor (λ f' _,
    Fan.functional f' = false ∧
    length (Fan.sensors f') = length (Fan.sensors (startMonitor_armed f))));
    [|split; congruence].
  intros i f' o Hi [Hf' Hl].
  destruct (lookup_lt_is_Some_2 (Fan.sensors f') i ltac:(lia)) as [x Hx].
  apply wp_unit. unfold exec. rewrite (startMonitor_each_eq e i f' x Hx).
  destruct (Fan.present f'); [|done].
  destruct (getProperty e (TachSensor.name x)) as [[a b]|]; cbv zeta; cbn [fst snd].
  - cbn. by rewrite length_alter.
  - destruct (_ && _); cbn; by rewrite length_alter.
Qed.

Lemma startMonitor_readable e f :
  Forall (λ s, is_Some (getProperty e (TachSensor.name s))) (Fan.sensors f) →
  trace (startMonitor e) f = [] ∧
  Fan.functional (exec (startMonitor e) f) = Fan.functional f.
Proof.
  intros Hall. unfold exec, trace. rewrite startMonitor_eq.
  destruct (startMonitor_armed_fields f) as (Hs1 & _ & Hf1).
  enough (wp (for_each_sensor (startMonitor_each e)) (λ _ f' o,
    o = [] ∧ Fan.functional f' = Fan.functional f ∧
    length (Fan.sensors f') = length (Fan.sensors (startMonitor_armed f)) ∧
    Forall (λ s, is_Some (getProperty e (TachSensor.name s))) (Fan.sensors f'))
    (startMonitor_armed f)) as (H1 & H2 & _) by (split; [exact H1|exact H2]).
  apply (wp_for_each_sensor (λ f' o,
    o = [] ∧ Fan.functional f' = Fan.functional f ∧
    length (Fan.sensors f') = length (Fan.sensors (startMonitor_armed f)) ∧
    Forall (λ s, is_Some (getProperty e (TachSensor.name s))) (Fan.sensors f')));
    [|by rewrite Hs1].
  intros i f' o Hi (-> & Hf' & Hl & Hall').
  destruct (lookup_lt_is_Some_2 (Fan.sensors f') i ltac:(lia)) as [x Hx].
  pose proof (proj1 (Forall_lookup _ _) Hall' i x Hx) as [[a b] Hg].
  apply wp_unit. unfold exec, trace. rewrite (startMonitor_each_eq e i f' x Hx), Hg.
  destruct (Fan.present f'); cbn [fst snd]; [|done].
  split; [done|]. split; [done|]. cbn. rewrite length_alter. split; [done|].
  apply Forall_alter; [done|]. intros y Hy Hsome.
  by rewrite name_startMonitor_sensor.
Qed.

(** X8: [Fan::startMonitor] never makes anything functional: a sensor that
    was non-functional is non-functional after it, and so is the fan.  When
    the reading of every sensor is available on D-Bus, it makes no call at
    all (no inventory update, no status change) and changes no functional
    flag, of a sensor or of the fan. *)
Theorem startMonitor_monotone e f :
  rel staysFailed (Fan.sensors f) (exec (startMonitor e) f) ∧
  (Fan.functional f = false → Fan.functional (exec (startMonitor e) f) = false) ∧
  (Forall (λ s, is_Some (getProperty e (TachSensor.name s))) (Fan.sensors f) →
     trace (startMonitor e) f = [] ∧ sameFlags f (exec (startMonitor e) f)).
Proof.
  assert (∀ g : TachSensor.t → TachSensor.t, (∀ x, staysFailed x (g x)) →
            Forall2 staysFailed (Fan.sensors f) (g <$> Fan.sensors f)) as Hmap.
  { intros g Hg. apply Forall2_fmap_r, Forall_Forall2_diag, Forall_forall.
    intros x _. apply Hg. }
  split; [|split].
  - unfold rel. destruct (Fan.present f) eqn:Hp.
    + rewrite (sensors_startMonitor e f Hp). apply Hmap.
      intros x. apply staysFailed_startMonitor_sensor.
    + unfold exec. rewrite (startMonitor_absent_eq e f Hp). cbn [fst snd].
      destruct (startMonitor_armed_fields f) as (-> & _).
      apply Forall_Forall2_diag, Forall_forall. unfold staysFailed. by intros.
  - apply startMonitor_keeps_nonfunctional.
  - intros Hall. destruct (startMonitor_readable e f Hall) as [Ht Hf].
    split; [done|]. split; [|done].
    unfold sensorFlags. destruct (Fan.present f) eqn:Hp.
    + rewrite (sensors_startMonitor e f Hp), <- list_fmap_compose.
      apply Forall_fmap_ext_1. eapply Forall_impl; [exact Hall|].
      intros x Hx. cbn. by apply functional_startMonitor_sensor_readable.
    + unfold exec. rewrite (startMonitor_absent_eq e f Hp). cbn [fst snd].
      by destruct (startMonitor_armed_fields f) as (-> & _).
Qed.

Lemma startMonitor_monotone_witness :
  trace (startMonitor (onBus true false))
    (fan0 [rotor "A" timebased 600 false 0 None; rotor "B" count 1000 true 0 None]
          1 true false false (Some false)) = [].
Proof.
  destruct (startMonitor_monotone (onBus true false)
    (fan0 [rotor "A" timebased 600 false 0 None; rotor "B" count 1000 true 0 None]
          1 true false false (Some false))) as (_ & _ & H).
  destruct H as [H _]; [|exact H].
  repeat constructor; by eexists.
Defined.

Lemma powerOn_loop_quiet e f :
  notifications (trace (for_each_sensor (powerOn_each e)) f) = [].
Proof.
  enough (wp (for_each_sensor (powerOn_each e)) (λ _ f' o,
    notifications o = [] ∧ length (Fan.sensors f') = length (Fan.sensors f)) f)
    as [H _] by exact H.
  apply (wp_for_each_sensor (λ f' o,
    notifications o = [] ∧ length (Fan.sensors f') = length (Fan.sensors f)));
    [|done].
  intros i f' o Hi [Ho Hl].
  destruct (lookup_lt_is_Some_2 (Fan.sensors f') i ltac:(lia)) as [x Hx].
  eapply wp_eq; [apply (powerOn_each_eq e i f' x Hx)|].
  rewrite notifications_app, Ho. cbn. rewrite length_alter. split; [|done].
  destruct (getProperty e (TachSensor.name x)); [|done].
  by destruct (TachSensor.functional x).
Qed.

(** X9: [Fan::powerStateChanged(true)] never makes anything non-functional:
    a sensor that was functional is functional after it, the number of
    non-functional sensors does not grow, a functional fan stays functional,
    and the only inventory update it can make is the one that reports the
    fan functional. *)
Theorem powerOn_monotone e f :
  rel staysGood (Fan.sensors f) (exec (powerStateChanged e true) f) ∧
  countNonFunctionalSensors (exec (powerStateChanged e true) f) ≤
    countNonFunctionalSensors f ∧
  (Fan.functional f = true → Fan.functional (exec (powerStateChanged e true) f) = true) ∧
  (notifications (trace (powerStateChanged e true) f) = [] ∨
   notifications (trace (powerStateChanged e true) f) = [Notify (Fan.name f) true]).
Proof.
  destruct (Fan.present f) eqn:Hp.
  - destruct (powerOn_eq e f Hp) as [He Ht]. rewrite He, Ht.
    assert (∀ b : bool,
              Fan.sensors (if b then Fan.set_functional true (poweredOn e f)
                           else poweredOn e f) = reset_sensor e <$> Fan.sensors f) as Hs.
    { by intros []. }
    split; [|split; [|split]].
    + unfold rel. rewrite Hs.
      apply Forall2_fmap_r, Forall_Forall2_diag, Forall_forall. intros x _ Hx.
      destruct (TachSensor.functional (reset_sensor e x)) eqn:Hr; [done|].
      apply functional_reset_sensor in Hr. congruence.
    + pose proof (count_fmap_le (reset_sensor e) f (Fan.set_monitorTimer true f)
                    (functional_reset_sensor e)) as Hle.
      fold (poweredOn e f) in Hle.
      by destruct (powerOn_fires (poweredOn e f) && negb (notifyError e)).
    + intros Hf. by destruct (powerOn_fires (poweredOn e f) && negb (notifyError e)).
    + rewrite notifications_app, powerOn_loop_quiet. cbn [app].
      destruct (powerOn_fires (poweredOn e f)); [right|by left].
      by destruct (notifyError e).
  - unfold exec, trace. rewrite (powerOn_absent_eq e f Hp). cbn [fst snd].
    split; [|split; [|split]]; try done; [|by left].
    apply Forall_Forall2_diag, Forall_forall. unfold staysGood. by intros.
Qed.

Lemma powerOn_monotone_witness :
  Fan.functional (exec (powerStateChanged (offBus true true) true)
    (fan0 [rotor "A" timebased 600 false 0 None] 2 true true false None)) = true.
Proof.
  destruct (powerOn_monotone (offBus true true)
    (fan0 [rotor "A" timebased 600 false 0 None] 2 true true false None))
    as (_ & _ & H & _).
  exact (H eq_refl).
Defined.

(** ** What no callback changes *)

Lemma config_handle e ev f : config (exec (handle e ev) f) = config f.
Proof.
  set (I := λ f', config f' = config f).
  change (I (exec (handle e ev) f)).
  assert (∀ l f', I f' → I (Fan.set_sensors l f')) as HIs by done.
  assert (∀ b f', I f' → I (Fan.set_functional b f')) as HIf by done.
  destruct ev as [i a b| |i| |p|p|i|[|]]; cbn [handle].
  - rewrite exec_bind. apply (inv_tachChanged I e); auto. done.
  - apply (inv_countTimerExpired I e); auto. done.
  - rewrite exec_bind. apply (inv_updateState I e); auto. done.
  - rewrite exec_bind. apply (inv_startMonitor I e); auto.
    unfold startMonitor_armed. cbv zeta. by case_bool_decide.
  - unfold presenceChanged. destruct p as [p|]; [|done].
    apply (wp_exec _ I). by wp_steps.
  - unfold presenceIfaceAdded. destruct p as [p|]; [|done].
    apply (wp_exec _ I). by wp_steps.
  - unfold sensorErrorTimerExpired. apply (wp_exec _ I). by wp_steps.
  - apply (inv_powerOn I e); auto. done.
  - unfold exec. by rewrite powerOff_eq.
Qed.

Lemma keepsConfig_handle e ev f :
  rel keepsConfig (Fan.sensors f) (exec (handle e ev) f).
Proof.
  apply (rel_handle keepsConfig); unfold keepsConfig; try done.
  - intros x y z H1 H2. congruence.
  - intros m x. apply sensorConfig_startTimer.
  - intros x. unfold TachSensor.resetMethod, sensorConfig.
    destruct (TachSensor.method x) eqn:Hm; cbn; by rewrite ?Hm.
  - by apply Forall_Forall2_diag, Forall_forall.
Qed.

Lemma keepsConfig_fmap l0 f :
  rel keepsConfig l0 f → sensorConfig <$> Fan.sensors f = sensorConfig <$> l0.
Proof.
  unfold rel. induction 1 as [|x y l l' Hxy H IH]; [done|].
  rewrite !fmap_cons. unfold keepsConfig in Hxy. congruence.
Qed.

Lemma config_step w x :
  config (fan (step w x)) = config (fan w) ∧
  sensorConfig <$> Fan.sensors (fan (step w x)) = sensorConfig <$> Fan.sensors (fan w).
Proof.
  destruct x as [e ev]. unfold step.
  destruct (deliverable (fan w) ev); [|done]. cbn [fan].
  split; [apply config_handle|]. apply keepsConfig_fmap, keepsConfig_handle.
Qed.

(** X10: what the definition of the fan fixes is never changed by a
    callback.  Along every sequence of events the fan keeps its name, its
    deviation, its sensor-failure threshold and its fan-missing delay, it
    keeps the same number of sensors in the same order, and every sensor
    keeps its name, its method, its threshold and whether it has a
    target. *)
Theorem config_immutable w evs :
  config (fan (run w evs)) = config (fan w) ∧
  sensorConfig <$> Fan.sensors (fan (run w evs)) = sensorConfig <$> Fan.sensors (fan w).
Proof.
  revert w. induction evs as [|x evs IH]; intros w; [done|].
  cbn [run foldl]. destruct (IH (step w x)) as [H1 H2].
  destruct (config_step w x) as [H3 H4].
  unfold run in *. split; congruence.
Qed.

(** ** A threshold that the sensors cannot reach *)

Lemma count_le_length f :
  countNonFunctionalSensors f ≤ N.of_nat (length (Fan.sensors f)).
Proof.
  unfold countNonFunctionalSensors.
  pose proof (length_filter (λ s, TachSensor.functional s = false) (Fan.sensors f)).
  lia.
Qed.

Lemma aboveSensors_leb f :
  aboveSensors f →
  (Fan.numSensorFailsForNonFunc f <=? countNonFunctionalSensors f) = false.
Proof.
  intros [_ Hl]. pose proof (count_le_length f).
  destruct (N.leb_spec (Fan.numSensorFailsForNonFunc f) (countNonFunctionalSensors f));
    [lia|done].
Qed.

Lemma aboveSensors_aggregated e f : aboveSensors f → aggregated e f = f.
Proof.
  intros H. unfold aggregated, crossing.
  rewrite (aboveSensors_leb f H). destruct H as [-> _].
  by rewrite andb_false_r.
Qed.

Lemma aboveSensors_alter g i f : aboveSensors f → aboveSensors (alterSensor g i f).
Proof. unfold aboveSensors. cbn. by rewrite length_alter. Qed.

Lemma aboveSensors_fmap (g : TachSensor.t → TachSensor.t) f :
  aboveSensors f → aboveSensors (Fan.set_sensors (g <$> Fan.sensors f) f).
Proof. unfold aboveSensors. cbn. by rewrite length_fmap. Qed.

Lemma aboveSensors_process e i f x :
  Fan.sensors f !! i = Some x → aboveSensors f → aboveSensors (exec (process e i) f).
Proof.
  intros Hx H. rewrite (exec_process e i f x Hx).
  pose proof (aboveSensors_alter (process_sensor e f) i f H) as H'.
  destruct (flips e f x); [|done]. by rewrite aboveSensors_aggregated.
Qed.

Lemma aboveSensors_tachChanged e i f x :
  Fan.sensors f !! i = Some x → aboveSensors f → aboveSensors (exec (tachChanged e i) f).
Proof.
  intros Hx H. unfold exec. rewrite (tachChanged_eq e i f x Hx). cbn [fst snd].
  by apply aboveSensors_alter.
Qed.

Lemma aboveSensors_updateState e i f :
  aboveSensors f → aboveSensors (exec (updateState e i) f).
Proof.
  intros H. destruct (isPowerOn e) eqn:Hp.
  - rewrite exec_updateState by done.
    pose proof (aboveSensors_alter toggle i f H) as H'.
    by rewrite aboveSensors_aggregated.
  - unfold exec. by rewrite updateState_off.
Qed.

Lemma aboveSensors_loop body f :
  (∀ i f' x, Fan.sensors f' !! i = Some x → aboveSensors f' →
     aboveSensors (exec (body i) f') ∧
     length (Fan.sensors (exec (body i) f')) = length (Fan.sensors f')) →
  aboveSensors f → aboveSensors (exec (for_each_sensor body) f).
Proof.
  intros Hbody H.
  enough (wp (for_each_sensor body) (λ _ f' _,
    aboveSensors f' ∧ length (Fan.sensors f') = length (Fan.sensors f)) f)
    as [H' _] by exact H'.
  apply (wp_for_each_sensor (λ f' _,
    aboveSensors f' ∧ length (Fan.sensors f') = length (Fan.sensors f))); [|done].
  intros i f' o Hi [H' Hl].
  destruct (lookup_lt_is_Some_2 (Fan.sensors f') i ltac:(lia)) as [x Hx].
  apply wp_unit. destruct (Hbody i f' x Hx H') as [H1 H2]. split; [done|congruence].
Qed.

Lemma aboveSensors_countTimerExpired e f :
  aboveSensors f → aboveSensors (exec (countTimerExpired e) f).
Proof.
  apply aboveSensors_loop. intros i f' x Hx H.
  unfold countTimerExpired_each, exec. cbv [mbind M_bind sensor get mret M_ret fst snd].
  destruct (trustActive e && negb (checkTrust e (Fan.sensors f' !!! i))); [done|].
  fold (exec (process e i) f'). split; [by eapply aboveSensors_process|].
  by destruct (threshold_process e i f' x Hx).
Qed.

Lemma aboveSensors_startMonitor e f :
  aboveSensors f → aboveSensors (exec (startMonitor e) f).
Proof.
  intros H. unfold exec. rewrite startMonitor_eq.
  apply aboveSensors_loop.
  - intros i f' x Hx H'. unfold exec. rewrite (startMonitor_each_eq e i f' x Hx).
    pose proof (aboveSensors_alter (startMonitor_sensor e f') i f' H') as H2.
    destruct (Fan.present f'); [|done].
    destruct (getProperty e (TachSensor.name x)) as [[a b]|]; cbv zeta; cbn [fst snd].
    + split; [done|]. cbn. by rewrite length_alter.
    + unfold startMonitor_fires. rewrite (aboveSensors_leb _ H2), !andb_false_r.
      cbn [andb]. split; [done|]. cbn. by rewrite length_alter.
  - unfold startMonitor_armed. cbv zeta. by case_bool_decide.
Qed.

Lemma aboveSensors_powerOn e f :
  aboveSensors f → aboveSensors (exec (powerStateChanged e true) f).
Proof.
  intros H. destruct (Fan.present f) eqn:Hp.
  - destruct (powerOn_eq e f Hp) as [-> _].
    pose proof (aboveSensors_fmap (reset_sensor e) f H) as H'.
    assert (aboveSensors (poweredOn e f)) as H2 by exact H'.
    destruct (powerOn_fires (poweredOn e f) && negb (notifyError e)); [|done].
    destruct H2 as [H2 H3]. by split.
  - unfold exec. rewrite (powerOn_absent_eq e f Hp). exact H.
Qed.

Lemma aboveSensors_handle e ev f :
  deliverable f ev = true → aboveSensors f → aboveSensors (exec (handle e ev) f).
Proof.
  intros Hd H. destruct ev as [i a b| |i| |p|p|i|[|]]; cbn [handle].
  - cbn in Hd. apply bool_decide_eq_true in Hd.
    destruct (lookup_lt_is_Some_2 (Fan.sensors f) i Hd) as [x Hx].
    rewrite exec_bind.
    apply (aboveSensors_tachChanged e i _ (TachSensor.setTachAndTarget a b x)).
    + cbn. by rewrite list_lookup_alter_eq, Hx.
    + by apply (aboveSensors_alter (TachSensor.setTachAndTarget a b)).
  - by apply aboveSensors_countTimerExpired.
  - rewrite exec_bind. apply aboveSensors_updateState.
    by apply (aboveSensors_alter TachSensor.stopTimer).
  - rewrite exec_bind. by apply aboveSensors_startMonitor.
  - destruct p as [p|]; [|done]. unfold exec. by rewrite presenceChanged_eq.
  - destruct p as [p|]; [|done]. unfold exec. by rewrite presenceIfaceAdded_eq.
  - unfold sensorErrorTimerExpired. apply (wp_exec _ aboveSensors). by wp_steps.
  - by apply aboveSensors_powerOn.
  - unfold exec. rewrite powerOff_eq. cbn [fst snd].
    unfold aboveSensors, poweredOff in *. cbn. by rewrite length_fmap.
Qed.

(** X11: a fan whose sensor-failure threshold is greater than the number of
    its sensors can never be made non-functional: if it is functional, it is
    functional after every sequence of events, whatever the sensors read and
    however many of them are non-functional. *)
Theorem threshold_above_sensors w evs :
  N.of_nat (length (Fan.sensors (fan w))) < Fan.numSensorFailsForNonFunc (fan w) →
  Fan.functional (fan w) = true →
  Fan.functional (fan (run w evs)) = true.
Proof.
  intros Hl Hf.
  enough (aboveSensors (fan (run w evs))) as [H _] by exact H.
  assert (aboveSensors (fan w)) as H by (by split). clear Hl Hf.
  revert w H. induction evs as [|[e ev] evs IH]; intros w H; [done|].
  cbn [run foldl]. apply IH. unfold step.
  destruct (deliverable (fan w) ev) eqn:Hd; [|done].
  cbn [fan]. by apply aboveSensors_handle.
Qed.

Lemma threshold_above_sensors_witness :
  Fan.functional (fan (run
    {| power := true;
       fan := fan0 [rotor "A" timebased 600 true 0 (Some nonfunc)] 2 true true true None |}
    [(onBus true false, SensorTimerExpired 0)])) = true.
Proof.
  apply threshold_above_sensors; [by vm_compute|reflexivity].
Defined.

(** ** Construction *)

Lemma construct_sensors_eq l : ∀ b f,
  construct_sensors l b f =
    (b || usesCount l, Fan.set_sensors (Fan.sensors f ++ l) f, []).
Proof.
  induction l as [|s l IH]; intros b f.
  - cbn. rewrite orb_false_r, app_nil_r. by rewrite set_sensors_id.
  - cbn [construct_sensors]. cbv [mbind M_bind modify fst snd]. rewrite IH.
    cbn [fst snd app Fan.sensors Fan.set_sensors]. rewrite <- app_assoc. cbn [app].
    unfold usesCount, TachSensor.getMethod. cbn [existsb].
    assert (∀ (x x' : bool) (y y' : Fan.t), x = x' → y = y' →
              (x, y, @nil Output) = (x', y', [])) as Heq by (by intros; subst).
    apply Heq; [|by destruct f].
    case_bool_decide; cbn [orb]; [by rewrite orb_true_r|done].
Qed.

Lemma construct_eq e l pp n d t dl p0 fn0 mr0 :
  exec (construct e l pp) (initialised n d t dl p0 fn0 mr0) =
    Fan.mk n d t l (default p0 pp) (if notifyError e then fn0 else true) mr0
      (isPowerOn e) (if usesCount l then Some false else None) dl
      (if bool_decide (is_Some dl)
       then Some (isPowerOn e && bool_decide (pp = Some false)) else None).
Proof.
  unfold construct, initialised.
  apply (wp_exec _ (λ f', f' = _)).
  wp_step. apply wp_updateInventory; intros He; rewrite He; cbn beta.
  all: wp_step; eapply wp_eq; [apply construct_sensors_eq|]; cbn [orb app Fan.sensors].
  all: wp_step; wp_step.
  all: destruct (usesCount l), (isPowerOn e), dl as [dl|], pp as [[|]|];
    unfold when; cbn [negb andb]; wp_steps; cbn in *; try done;
    try (exfalso; by eauto); try (by case_bool_decide).
Qed.

Lemma usesCount_spec l :
  usesCount l = true ↔ ∃ s, s ∈ l ∧ TachSensor.method s = count.
Proof.
  unfold usesCount. rewrite existsb_exists. split.
  - intros (s & Hin & Hm). exists s. split; [by apply list_elem_of_In|].
    by apply bool_decide_eq_true in Hm.
  - intros (s & Hin & Hm). exists s. split; [by apply list_elem_of_In|].
    by apply bool_decide_eq_true.
Qed.

(** X12: what the constructor [Fan::Fan] leaves.  The fan has the name,
    deviation, threshold and fan-missing delay of its definition and the
    sensors in the order of the definition.  The shared count timer is
    created exactly when some sensor uses the count method, and it is left
    disabled.  The monitor-start timer is armed exactly when power is on,
    and construction does not touch monitor-ready.  The fan-missing timer is
    created exactly when a fan-missing delay is configured, and it is armed
    exactly when, in addition, the Present property was read as false and
    power is on.  When the Present property cannot be read, the presence
    flag keeps its default.  The fan is recorded functional as soon as the
    inventory accepts the initial update. *)
Theorem construct_effect e l pp n d t dl p0 fn0 mr0 :
  let f := exec (construct e l pp) (initialised n d t dl p0 fn0 mr0) in
  config f = (n, d, t, dl) ∧
  Fan.sensors f = l ∧
  (is_Some (Fan.countTimer f) ↔ ∃ s, s ∈ l ∧ TachSensor.method s = count) ∧
  isEnabled (Fan.countTimer f) = false ∧
  Fan.monitorTimer f = isPowerOn e ∧
  Fan.monitorReady f = mr0 ∧
  (is_Some (Fan.fanMissingErrorTimer f) ↔ is_Some dl) ∧
  (isEnabled (Fan.fanMissingErrorTimer f) = true ↔
     is_Some dl ∧ isPowerOn e = true ∧ pp = Some false) ∧
  Fan.present f = default p0 pp ∧
  (notifyError e = false → Fan.functional f = true).
Proof.
  cbv zeta. rewrite construct_eq. unfold config. cbn.
  split; [done|]. split; [done|]. split.
  { rewrite <- usesCount_spec. destruct (usesCount l); split; try done;
      try (by eexists); by intros [? ?]. }
  split; [by destruct (usesCount l)|]. split; [done|]. split; [done|]. split.
  { case_bool_decide as Hd; split; try done; by intros [? ?]. }
  split; [|split; [done|by intros ->]].
  unfold isEnabled. rewrite bool_decide_eq_true. case_bool_decide as Hd.
  - split.
    + intros [= H]. apply andb_prop in H as [H1 H2].
      by apply bool_decide_eq_true in H2.
    + intros (_ & -> & ->). done.
  - split; [done|]. by intros (? & _).
Qed.

Lemma construct_effect_witness :
  Fan.functional (exec (construct (onBus true false) [rotor "A" count 1000 true 0 None]
    (Some false)) (initialised "fan0" 10 1 (Some 60) true false false)) = true.
Proof.
  destruct (construct_effect (onBus true false) [rotor "A" count 1000 true 0 None]
    (Some false) "fan0" 10 1 (Some 60) true false false)
    as (_ & _ & _ & _ & _ & _ & _ & _ & _ & H).
  exact (H eq_refl).
Defined.

(** X13: from construction on, the shared timers run only while the chassis
    is powered, as long as no expiry of the monitor-start timer is delivered
    while power is off.  After the constructor and any sequence of events in
    which every expiry of the monitor-start timer comes with power on, the
    count timer is enabled only with power on and the fan monitor-ready, and
    the monitor-start timer is armed only with power on. *)
Theorem constructed_gated e l pp n d t dl p0 fn0 mr0 evs :
  startsPowered
    {| power := isPowerOn e;
       fan := exec (construct e l pp) (initialised n d t dl p0 fn0 mr0) |} evs = true →
  gated (run {| power := isPowerOn e;
                fan := exec (construct e l pp) (initialised n d t dl p0 fn0 mr0) |} evs).
Proof.
  apply gated_run. rewrite construct_eq. unfold gated. cbn. split.
  - by destruct (usesCount l).
  - done.
Qed.

Lemma constructed_gated_witness :
  gated (run {| power := false;
                fan := exec (construct (onBus false false)
                               [rotor "A" count 1000 true 0 None] (Some true))
                            (initialised "fan0" 10 1 None false true false) |}
             [(onBus false false, PowerStateChanged true);
              (onBus true false, MonitorTimerExpired);
              (lowBus true false, CountTimerExpired);
              (onBus true false, PowerStateChanged false)]).
Proof.
  apply (constructed_gated (onBus false false) [rotor "A" count 1000 true 0 None]
           (Some true) "fan0" 10 1 None false true false).
  by vm_compute.
Defined.

(** * Finding the configuration file *)

Module JsonConfigFacts.
Import JsonConfig.

Lemma find_if_find exists_ appName fileName values : ∀ confFile valid,
  match List.find (λ value, exists_ [confBasePath; appName; value; fileName]) values with
  | Some value =>
      find_if exists_ appName fileName values confFile valid =
        (true, [confBasePath; appName; value; fileName], value)
  | None => (find_if exists_ appName fileName values confFile valid).1.1 = false
  end.
Proof.
  induction values as [|v vs IH]; intros confFile valid; [done|].
  cbn [List.find find_if].
  destruct (exists_ [confBasePath; appName; v; fileName]); [done|]. apply IH.
Qed.

Lemma find_fmap {A B} (P : B → bool) (g : A → B) l :
  List.find P (g <$> l) = g <$> List.find (λ x, P (g x)) l.
Proof.
  induction l as [|x l IH]; [done|]. cbn. by destruct (P (g x)).
Qed.

Lemma getConfFile_values exists_ appName fileName isOptional c :
  confCompatValues (getConfFile exists_ appName fileName isOptional c).2 =
    confCompatValues c.
Proof.
  unfold getConfFile.
  destruct (exists_ [confOverridePath; appName; fileName]); [done|].
  destruct (exists_ [confBasePath; appName; fileName]); [done|].
  cbv zeta. by destruct (_ && _).
Qed.

Lemma getConfFile_result exists_ appName fileName isOptional c :
  (getConfFile exists_ appName fileName isOptional c).1 =
    match List.find exists_ (candidates appName fileName c) with
    | Some p => inl p
    | None => if isOptional then inl [] else inr (NoConfigFound appName fileName)
    end.
Proof.
  unfold getConfFile, candidates. cbn [List.find].
  destruct (exists_ [confOverridePath; appName; fileName]); [done|].
  destruct (exists_ [confBasePath; appName; fileName]); [done|].
  cbv zeta. rewrite find_fmap.
  pose proof (find_if_find exists_ appName fileName (confCompatValues c)
                [confBasePath; appName; fileName] (validCompatValue c)) as H.
  destruct (List.find _ (confCompatValues c)) as [v|].
  - rewrite H. cbn [fst snd fmap option_fmap option_map].
    rewrite bool_decide_eq_false_2 by done. done.
  - rewrite H. cbn [fmap option_fmap option_map].
    rewrite bool_decide_eq_true_2 by done. by destruct isOptional.
Qed.

Lemma getConfFile_valid exists_ appName fileName isOptional c :
  validCompatValue (getConfFile exists_ appName fileName isOptional c).2 =
    if exists_ [confOverridePath; appName; fileName] ||
       exists_ [confBasePath; appName; fileName]
    then validCompatValue c
    else default EmptyString
           (List.find (λ value, exists_ [confBasePath; appName; value; fileName])
                      (confCompatValues c)).
Proof.
  unfold getConfFile.
  destruct (exists_ [confOverridePath; appName; fileName]); [done|].
  destruct (exists_ [confBasePath; appName; fileName]); [done|].
  cbv zeta. cbn [orb].
  pose proof (find_if_find exists_ appName fileName (confCompatValues c)
                [confBasePath; appName; fileName] (validCompatValue c)) as H.
  destruct (List.find _ (confCompatValues c)) as [v|]; rewrite H.
  - cbn [fst snd]. by destruct (_ && _).
  - by destruct (_ && _).
Qed.

End JsonConfigFacts.

(** X14: [JsonConfig::getConfFile] returns the first candidate that exists,
    the candidates being the override location, the default location and
    then one location for each compatible value, in the order of the list.
    When no candidate exists it returns the empty path if the file is
    optional and throws [NoConfigFound] otherwise.  The list of compatible
    values is never changed. *)
Theorem getConfFile_first exists_ appName fileName isOptional c :
  (JsonConfig.getConfFile exists_ appName fileName isOptional c).1 =
    match List.find exists_ (JsonConfig.candidates appName fileName c) with
    | Some p => inl p
    | None =>
        if isOptional then inl []
        else inr (JsonConfig.NoConfigFound appName fileName)
    end ∧
  JsonConfig.confCompatValues
    (JsonConfig.getConfFile exists_ appName fileName isOptional c).2 =
    JsonConfig.confCompatValues c.
Proof.
  split;
    [apply JsonConfigFacts.getConfFile_result|apply JsonConfigFacts.getConfFile_values].
Qed.

(** X15: what [JsonConfig::getConfFile] remembers.  When the file is found
    at the override or at the default location, the remembered compatible
    value is left as it was, whatever it was.  Otherwise it becomes the
    first compatible value whose location has the file, and it is cleared
    when there is none.  So a file that the function returns from a
    compatible location is the one of the remembered value. *)
Theorem getConfFile_remembers exists_ appName fileName isOptional c :
  JsonConfig.validCompatValue
    (JsonConfig.getConfFile exists_ appName fileName isOptional c).2 =
    (if exists_ [JsonConfig.confOverridePath; appName; fileName] ||
        exists_ [JsonConfig.confBasePath; appName; fileName]
     then JsonConfig.validCompatValue c
     else default EmptyString
            (List.find (λ value,
               exists_ [JsonConfig.confBasePath; appName; value; fileName])
               (JsonConfig.confCompatValues c))) ∧
  (exists_ [JsonConfig.confOverridePath; appName; fileName] = false →
   exists_ [JsonConfig.confBasePath; appName; fileName] = false →
   ∀ p, (JsonConfig.getConfFile exists_ appName fileName isOptional c).1 = inl p →
        p ≠ [] →
        p = [JsonConfig.confBasePath; appName;
             JsonConfig.validCompatValue
               (JsonConfig.getConfFile exists_ appName fileName isOptional c).2;
             fileName] ∧
        exists_ p = true).
Proof.
  split; [apply JsonConfigFacts.getConfFile_valid|].
  intros Ho Hd p Hp Hne.
  rewrite JsonConfigFacts.getConfFile_valid, Ho, Hd. cbn [orb].
  rewrite JsonConfigFacts.getConfFile_result in Hp.
  unfold JsonConfig.candidates in Hp. cbn [List.find] in Hp. rewrite Ho, Hd in Hp.
  rewrite JsonConfigFacts.find_fmap in Hp.
  destruct (List.find _ (JsonConfig.confCompatValues c)) as [v|] eqn:Hf.
  - cbn in Hp. injection Hp as <-. split; [done|].
    by apply find_some in Hf as [_ Hf].
  - cbn in Hp. destruct isOptional; [|done]. by injection Hp as <-.
Qed.

Lemma getConfFile_remembers_witness :
  [JsonConfig.confBasePath; "monitor"; "bmc"; "config.json"] =
    [JsonConfig.confBasePath; "monitor";
     JsonConfig.validCompatValue
       (JsonConfig.getConfFile
          (λ p, bool_decide
                  (p = [JsonConfig.confBasePath; "monitor"; "bmc"; "config.json"]))
          "monitor" "config.json" false
          (JsonConfig.mk ["host"; "bmc"; "chassis"] "host")).2;
     "config.json"] ∧
  bool_decide ([JsonConfig.confBasePath; "monitor"; "bmc"; "config.json"] =
               [JsonConfig.confBasePath; "monitor"; "bmc"; "config.json"]) = true.
Proof.
  apply (proj2 (getConfFile_remembers
    (λ p, bool_decide (p = [JsonConfig.confBasePath; "monitor"; "bmc"; "config.json"]))
    "monitor" "config.json" false (JsonConfig.mk ["host"; "bmc"; "chassis"] "host")));
    [reflexivity|reflexivity|reflexivity|discriminate].
Defined.

(** X16: [JsonConfig::compatIntfAdded] and the remembered compatible value.
    While a compatible value is remembered, an interfaces-added message is
    ignored: nothing is recorded and the load function is not called.  When
    no configuration file was found ([getConfFile] threw and cleared the
    remembered value), a message that brings a compatible value whose
    location has the file is recorded, the load function finds that file,
    and the value is remembered; later messages are then ignored. *)
Theorem compatIntfAdded_late exists_ appName fileName c v :
  (∀ loadFunc intfProps c',
     JsonConfig.validCompatValue c' ≠ EmptyString →
     JsonConfig.compatIntfAdded loadFunc intfProps c' = (inl tt, c')) ∧
  (List.find exists_ (JsonConfig.candidates appName fileName c) = None →
   exists_ [JsonConfig.confBasePath; appName; v; fileName] = true →
   let r := JsonConfig.getConfFile exists_ appName fileName false c in
   r.1 = inr (JsonConfig.NoConfigFound appName fileName) ∧
   JsonConfig.compatIntfAdded (JsonConfig.loadWith exists_ appName fileName)
     (Some (Some v)) r.2 =
     (inl tt, JsonConfig.mk (JsonConfig.confCompatValues c ++ [v]) v)).
Proof.
  split.
  - intros loadFunc intfProps c' Hne. unfold JsonConfig.compatIntfAdded.
    by rewrite bool_decide_eq_false_2.
  - intros Hnone Hv. cbv zeta.
    pose proof (JsonConfigFacts.getConfFile_result exists_ appName fileName false c) as Hr.
    pose proof (JsonConfigFacts.getConfFile_valid exists_ appName fileName false c) as Hvd.
    pose proof (JsonConfigFacts.getConfFile_values exists_ appName fileName false c) as Hvs.
    rewrite Hnone in Hr. split; [done|].
    unfold JsonConfig.candidates in Hnone. cbn [List.find] in Hnone.
    destruct (exists_ [JsonConfig.confOverridePath; appName; fileName]) eqn:Ho; [done|].
    destruct (exists_ [JsonConfig.confBasePath; appName; fileName]) eqn:Hd; [done|].
    rewrite JsonConfigFacts.find_fmap in Hnone.
    destruct (List.find _ (JsonConfig.confCompatValues c)) as [v'|] eqn:Hf; [done|].
    cbn [orb default] in Hvd.
    destruct (JsonConfig.getConfFile exists_ appName fileName false c) as [r c1].
    cbn [fst snd] in *. destruct c1 as [vs vd]. cbn in Hvd, Hvs. subst vs vd.
    unfold JsonConfig.compatIntfAdded. rewrite bool_decide_eq_true_2 by done.
    cbn [negb JsonConfig.confCompatValues JsonConfig.validCompatValue].
    set (c2 := JsonConfig.mk (JsonConfig.confCompatValues c ++ [v]) EmptyString).
    assert (List.find (λ value,
              exists_ [JsonConfig.confBasePath; appName; value; fileName])
              (JsonConfig.confCompatValues c2) = Some v) as Hfind.
    { cbn. clear -Hf Hv. induction (JsonConfig.confCompatValues c) as [|x l IH].
      - cbn. by rewrite Hv.
      - cbn in *. destruct (exists_ [JsonConfig.confBasePath; appName; x; fileName]);
          [done|]. by apply IH. }
    pose proof (JsonConfigFacts.getConfFile_result exists_ appName fileName false c2) as Hr2.
    pose proof (JsonConfigFacts.getConfFile_valid exists_ appName fileName false c2) as Hvd2.
    pose proof (JsonConfigFacts.getConfFile_values exists_ appName fileName false c2) as Hvs2.
    unfold JsonConfig.candidates in Hr2. cbn [List.find] in Hr2.
    rewrite Ho, Hd, JsonConfigFacts.find_fmap, Hfind in Hr2.
    rewrite Ho, Hd, Hfind in Hvd2. cbn [orb default] in Hvd2.
    unfold JsonConfig.loadWith.
    destruct (JsonConfig.getConfFile exists_ appName fileName false c2) as [r2 c3].
    cbn [fst snd] in *. rewrite Hr2. cbn. destruct c3 as [vs vd].
    cbn in Hvd2, Hvs2. by subst.
Qed.

Lemma compatIntfAdded_late_witness :
  (JsonConfig.getConfFile
     (λ p, bool_decide (p = [JsonConfig.confBasePath; "monitor"; "bmc"; "config.json"]))
     "monitor" "config.json" false (JsonConfig.mk ["host"] "host")).1 =
    inr (JsonConfig.NoConfigFound "monitor" "config.json") ∧
  JsonConfig.compatIntfAdded
    (JsonConfig.loadWith
       (λ p, bool_decide (p = [JsonConfig.confBasePath; "monitor"; "bmc"; "config.json"]))
       "monitor" "config.json")
    (Some (Some "bmc"))
    (JsonConfig.getConfFile
       (λ p, bool_decide (p = [JsonConfig.confBasePath; "monitor"; "bmc"; "config.json"]))
       "monitor" "config.json" false (JsonConfig.mk ["host"] "host")).2 =
  (inl tt, JsonConfig.mk ["host"; "bmc"] "bmc").
Proof.
  apply (proj2 (compatIntfAdded_late
    (λ p, bool_decide (p = [JsonConfig.confBasePath; "monitor"; "bmc"; "config.json"]))
    "monitor" "config.json" (JsonConfig.mk ["host"] "host") "bmc"));
    reflexivity.
Defined.

(** X17: the constructor [JsonConfig::JsonConfig] never lets
    [NoConfigFound] escape, whatever the load function does.  With a load
    function that looks for a required file it returns normally whether or
    not the file is found, and the compatible values it collected are
    appended to the list in the order of the objects, the objects whose
    property cannot be read being skipped. *)
Theorem construct_waits exists_ appName fileName props c :
  (∀ loadFunc a f,
     (JsonConfig.construct loadFunc props c).1 ≠ inr (JsonConfig.NoConfigFound a f)) ∧
  (JsonConfig.construct (JsonConfig.loadWith exists_ appName fileName) props c).1 = inl tt ∧
  JsonConfig.confCompatValues
    (JsonConfig.construct (JsonConfig.loadWith exists_ appName fileName) props c).2 =
    JsonConfig.confCompatValues c ++ omap id props.
Proof.
  split.
  { intros loadFunc a f. unfold JsonConfig.construct. cbv zeta.
    destruct (loadFunc (JsonConfig.collect props c)) as [[[]|[a' f'|]] c1]; by cbn. }
  unfold JsonConfig.construct, JsonConfig.loadWith. cbv zeta. cbn [fst snd].
  pose proof (JsonConfigFacts.getConfFile_result exists_ appName fileName false
                (JsonConfig.collect props c)) as Hr.
  pose proof (JsonConfigFacts.getConfFile_values exists_ appName fileName false
                (JsonConfig.collect props c)) as Hvs.
  destruct (JsonConfig.getConfFile exists_ appName fileName false
              (JsonConfig.collect props c)) as [r c1].
  cbn [fst snd] in *. rewrite Hr.
  destruct (List.find exists_ _); cbn [fst snd]; by rewrite Hvs.
Qed.

(** * The fan control command line *)

Module FanCtlFacts.
Import FanCtl.
Local Open Scope char_scope.

Lemma rfind_lt c s i : rfind c s = Some i → (i < String.length s)%nat.
Proof.
  revert i. induction s as [|a s IH]; intros i; cbn; [done|].
  destruct (rfind c s) as [j|].
  - intros [= <-]. specialize (IH j eq_refl). lia.
  - destruct (Ascii.eqb a c); [|done]. intros [= <-]. lia.
Qed.

Lemma rfind_app c a b :
  rfind c b = None → rfind c (a +:+ String c b) = Some (String.length a).
Proof.
  intros Hb. induction a as [|x a IH].
  - change (EmptyString +:+ String c b) with (String c b). cbn [rfind].
    by rewrite Hb, Ascii.eqb_refl.
  - change (String x a +:+ String c b) with (String x (a +:+ String c b)).
    cbn [rfind]. by rewrite IH.
Qed.

Lemma rfind_split c s i :
  rfind c s = Some i →
  ∃ a b, s = a +:+ String c b ∧ String.length a = i ∧ rfind c b = None.
Proof.
  revert i. induction s as [|x s IH]; intros i; cbn; [done|].
  destruct (rfind c s) as [j|] eqn:Hr.
  - intros [= <-]. destruct (IH j eq_refl) as (a & b & -> & <- & Hb).
    by exists (String x a), b.
  - destruct (Ascii.eqb x c) eqn:Hx; [|done]. intros [= <-].
    apply Ascii.eqb_eq in Hx as ->. by exists EmptyString, s.
Qed.

Lemma substr_app a b : substr (String.length a) (a +:+ b) = Some b.
Proof. induction a as [|x a IH]; [done|]. exact IH. Qed.

Lemma length_app a b :
  String.length (a +:+ b) = (String.length a + String.length b)%nat.
Proof.
  induction a as [|x a IH]; [done|].
  change (String x a +:+ b) with (String x (a +:+ b)). cbn [String.length].
  by rewrite IH.
Qed.

Lemma substr_S_app dir c name :
  substr (S (String.length dir)) (dir +:+ String c name) = Some name.
Proof. induction dir as [|x a IH]; [done|]. exact IH. Qed.

Lemma justFanName_app dir name :
  rfind "/" name = None → justFanName (dir +:+ String "/" name) = Some name.
Proof.
  intros Hn. unfold justFanName. rewrite (rfind_app _ dir name Hn).
  rewrite length_app. cbn [String.length].
  destruct (Nat.ltb_spec (String.length dir)
              (String.length dir + S (String.length name))); [|lia].
  apply substr_S_app.
Qed.

Lemma justFanName_cases path :
  (rfind "/" path = None ∧ justFanName path = Some EmptyString) ∨
  (∃ dir name, path = dir +:+ String "/" name ∧ rfind "/" name = None ∧
               justFanName path = Some name).
Proof.
  destruct (rfind "/" path) as [i|] eqn:Hr.
  - right. destruct (rfind_split _ _ _ Hr) as (a & b & -> & _ & Hb).
    exists a, b. split; [done|]. split; [done|]. by apply justFanName_app.
  - left. split; [done|]. unfold justFanName. by rewrite Hr.
Qed.

Lemma entry_push_back fan fan' path dest :
  entry fan' (push_back fan path dest) =
    if bool_decide (fan' = fan) then Some (default [] (entry fan dest) ++ [path])
    else entry fan' dest.
Proof.
  unfold entry. destruct (decide (fan' = fan)) as [->|Hne].
  - rewrite bool_decide_eq_true_2 by done.
    induction dest as [|[k v] dest IH]; cbn [push_back List.find fst snd].
    + by rewrite bool_decide_eq_true_2.
    + destruct (decide (k = fan)) as [->|Hk].
      * rewrite !bool_decide_eq_true_2 by done. cbn [List.find fst].
        by rewrite bool_decide_eq_true_2.
      * rewrite !(bool_decide_eq_false_2 (k = fan)) by done. cbn [List.find fst].
        rewrite (bool_decide_eq_false_2 (k = fan)) by done. exact IH.
  - rewrite bool_decide_eq_false_2 by done.
    induction dest as [|[k v] dest IH]; cbn [push_back List.find fst snd].
    + by rewrite bool_decide_eq_false_2 by congruence.
    + destruct (decide (k = fan)) as [->|Hk].
      * rewrite bool_decide_eq_true_2 by done. cbn [List.find fst snd].
        by rewrite !(bool_decide_eq_false_2 (fan = fan')) by congruence.
      * rewrite (bool_decide_eq_false_2 (k = fan)) by done. cbn [List.find fst snd].
        destruct (bool_decide (k = fan')); [done|exact IH].
Qed.

Lemma elem_of_keys_push_back k fan path dest :
  k ∈ (push_back fan path dest).*1 → k = fan ∨ k ∈ dest.*1.
Proof.
  induction dest as [|[k0 v] dest IH]; cbn [push_back fmap list_fmap fst].
  - intros ->%list_elem_of_singleton. by left.
  - destruct (decide (k0 = fan)) as [->|Hk].
    + rewrite bool_decide_eq_true_2 by done. cbn [fmap list_fmap fst]. by right.
    + rewrite bool_decide_eq_false_2 by done. cbn [fmap list_fmap fst].
      intros [->|Hin]%elem_of_cons.
      * right. by left.
      * destruct (IH Hin) as [->|Hin']; [by left|]. right. by right.
Qed.

Lemma keys_push_back fan path dest :
  NoDup dest.*1 → NoDup (push_back fan path dest).*1.
Proof.
  induction dest as [|[k v] dest IH]; cbn [push_back fmap list_fmap fst].
  - intros _. apply NoDup_singleton.
  - intros Hnd. apply NoDup_cons in Hnd as [Hk Hnd].
    destruct (decide (k = fan)) as [->|Hkf].
    + rewrite bool_decide_eq_true_2 by done. cbn [fmap list_fmap fst].
      by apply NoDup_cons.
    + rewrite bool_decide_eq_false_2 by done. cbn [fmap list_fmap fst].
      apply NoDup_cons. split; [|by apply IH].
      intros [->|Hin]%elem_of_keys_push_back; done.
Qed.

(** The entries of the map are never empty vectors. *)
Lemma entry_push_back_nonempty fan path dest :
  (∀ k, entry k dest ≠ Some []) → ∀ k, entry k (push_back fan path dest) ≠ Some [].
Proof.
  intros H k. rewrite entry_push_back. case_bool_decide; [|apply H].
  intros [= Heq]. by apply app_nil in Heq as [_ ?].
Qed.

Lemma inner_spec shortPath path fans : ∀ dest,
  NoDup dest.*1 → (∀ k, entry k dest ≠ Some []) →
  NoDup (inner shortPath path fans dest).*1 ∧
  (∀ k, entry k (inner shortPath path fans dest) ≠ Some []) ∧
  ∀ fan, default [] (entry fan (inner shortPath path fans dest)) =
         default [] (entry fan dest) ++
         (if selects shortPath fan path
          then replicate (length (filter (λ x, x = fan) fans)) path else []).
Proof.
  unfold inner. induction fans as [|x fans IH]; intros dest Hnd Hne; cbn [foldl].
  - split; [done|]. split; [done|]. intros fan. rewrite filter_nil. cbn.
    destruct (selects shortPath fan path); by rewrite app_nil_r.
  - destruct (selects shortPath x path) eqn:Hx.
    + pose proof (keys_push_back x path dest Hnd) as Hnd'.
      destruct (IH _ Hnd' (entry_push_back_nonempty x path dest Hne)) as (H1 & H2 & H3).
      split; [done|]. split; [done|]. intros fan. rewrite H3, entry_push_back.
      rewrite filter_cons. case_bool_decide as Hf.
      * subst fan. rewrite Hx. rewrite decide_True by done.
        cbn [length replicate from_option id]. by rewrite <- app_assoc.
      * rewrite decide_False by congruence. done.
    + destruct (IH _ Hnd Hne) as (H1 & H2 & H3).
      split; [done|]. split; [done|]. intros fan. rewrite H3, filter_cons.
      destruct (decide (x = fan)) as [->|]; [|done]. by rewrite Hx.
Qed.

Lemma outer_spec shortPath fans paths : ∀ dest,
  NoDup dest.*1 → (∀ k, entry k dest ≠ Some []) →
  NoDup (foldl (λ dest path, inner shortPath path fans dest) dest paths).*1 ∧
  (∀ k, entry k (foldl (λ dest path, inner shortPath path fans dest) dest paths)
        ≠ Some []) ∧
  ∀ fan, default [] (entry fan (foldl (λ dest path, inner shortPath path fans dest)
                                      dest paths)) =
         default [] (entry fan dest) ++ pushed paths fans shortPath fan.
Proof.
  induction paths as [|p paths IH]; intros dest Hnd Hne; cbn [foldl].
  - split; [done|]. split; [done|]. intros fan. unfold pushed. cbn. by rewrite app_nil_r.
  - destruct (inner_spec shortPath p fans dest Hnd Hne) as (H1 & H2 & H3).
    destruct (IH _ H1 H2) as (H4 & H5 & H6).
    split; [done|]. split; [done|]. intros fan. rewrite H6, H3.
    unfold pushed. cbn [flat_map]. by rewrite <- app_assoc.
Qed.

Lemma filter_fan_notin fan (fans : list string) :
  fan ∉ fans → filter (λ x, x = fan) fans = [].
Proof.
  induction fans as [|x l IH]; [done|]. intros Hnot. rewrite filter_cons.
  rewrite decide_False.
  - apply IH. intros Hin. apply Hnot. by right.
  - intros ->. apply Hnot. by left.
Qed.

Lemma rfind_None_app c a b :
  rfind c a = None → rfind c b = None → rfind c (a +:+ b) = None.
Proof.
  intros Ha Hb. induction a as [|x a IH]; [done|].
  change (String x a +:+ b) with (String x (a +:+ b)).
  cbn [rfind] in *. destruct (rfind c a); [done|].
  destruct (Ascii.eqb x c); [done|]. by rewrite IH.
Qed.

Lemma substr0_app a b : substr0 (Some (String.length a)) (a +:+ b) = a.
Proof.
  induction a as [|x a IH]; [by destruct b|].
  change (String x a +:+ b) with (String x (a +:+ b)). cbn. by rewrite IH.
Qed.

Lemma startsWith_app p b : startsWith p (p +:+ b) = true.
Proof.
  induction p as [|x p IH]; [done|].
  change (String x p +:+ b) with (String x (p +:+ b)). cbn.
  by rewrite Ascii.eqb_refl, IH.
Qed.

Lemma find_app p a b : is_Some (find p (a +:+ (p +:+ b))).
Proof.
  induction a as [|x a IH].
  - change (EmptyString +:+ (p +:+ b)) with (p +:+ b).
    destruct (p +:+ b) eqn:Hs; cbn [find]; rewrite <- ?Hs, startsWith_app; by eexists.
  - change (String x a +:+ (p +:+ b)) with (String x (a +:+ (p +:+ b))).
    cbn [find]. destruct (startsWith p _); [by eexists|].
    destruct IH as [i ->]. by eexists.
Qed.

Lemma app_String a c b : (a +:+ String c EmptyString) +:+ b = a +:+ String c b.
Proof.
  induction a as [|x a IH]; [done|].
  change ((String x a +:+ String c EmptyString) +:+ b)
    with (String x ((a +:+ String c EmptyString) +:+ b)).
  by rewrite IH.
Qed.

Lemma elem_of_pushed paths fans shortPath fan path :
  path ∈ paths → fan ∈ fans → selects shortPath fan path = true →
  path ∈ pushed paths fans shortPath fan.
Proof.
  intros Hp Hf Hs. unfold pushed.
  assert (∃ n, length (filter (λ x, x = fan) fans) = S n) as [n ->].
  { clear -Hf. induction fans as [|x l IH]; [by apply elem_of_nil in Hf|].
    rewrite filter_cons. destruct (decide (x = fan)) as [->|Hx]; [by eexists|].
    apply IH. by apply elem_of_cons in Hf as [->|Hf]. }
  induction paths as [|p ps IH]; [by apply elem_of_nil in Hp|].
  cbn [flat_map]. apply elem_of_app. apply elem_of_cons in Hp as [<-|Hp].
  - left. rewrite Hs. by left.
  - right. by apply IH.
Qed.

End FanCtlFacts.

(** X18: [justFanName] returns the last token of a path: for a path that
    ends in a slash followed by a name without slash it returns that name
    (the empty name when the path ends in a slash).  For a path without any
    slash it returns the empty string, not the path.  It never throws: the
    position it hands to [substr] is within the string, and the name it
    returns contains no slash. *)
Theorem justFanName_token :
  (∀ dir name, FanCtl.rfind "/"%char name = None →
     FanCtl.justFanName (dir +:+ String "/"%char name) = Some name) ∧
  (∀ path, FanCtl.rfind "/"%char path = None → FanCtl.justFanName path = Some EmptyString) ∧
  (∀ path, ∃ name, FanCtl.justFanName path = Some name ∧ FanCtl.rfind "/"%char name = None).
Proof.
  split; [|split].
  - apply FanCtlFacts.justFanName_app.
  - intros path Hp. unfold FanCtl.justFanName. by rewrite Hp.
  - intros path. destruct (FanCtlFacts.justFanName_cases path)
      as [[_ H]|(dir & name & _ & Hn & H)]; eauto.
Qed.

Lemma justFanName_token_witness :
  FanCtl.justFanName "/xyz/openbmc_project/sensors/fan_tach/fan0_0" = Some "fan0_0".
Proof.
  apply (proj1 justFanName_token "/xyz/openbmc_project/sensors/fan_tach" "fan0_0").
  reflexivity.
Defined.

(** X19: what [getPathsFromIface] returns.  The entry of a fan holds the
    paths of the subtree that the test selects for the fan, in the order of
    the subtree, each one once for every occurrence of the fan in the list
    of fans; a fan for which no path is selected, or which is not in the
    list, has no entry, so no entry is an empty vector.  With a list of fans
    without duplicates the entry of a fan of the list is exactly the
    selected paths. *)
Theorem getPathsFromIface_entry subTreePaths fans shortPath fan :
  NoDup (FanCtl.getPathsFromIface subTreePaths fans shortPath).*1 ∧
  FanCtl.entry fan (FanCtl.getPathsFromIface subTreePaths fans shortPath) =
    (if bool_decide (FanCtl.pushed subTreePaths fans shortPath fan = []) then None
     else Some (FanCtl.pushed subTreePaths fans shortPath fan)) ∧
  (fan ∉ fans → FanCtl.pushed subTreePaths fans shortPath fan = []) ∧
  (NoDup fans → fan ∈ fans →
     FanCtl.pushed subTreePaths fans shortPath fan =
       filter (λ path, FanCtl.selects shortPath fan path = true) subTreePaths).
Proof.
  destruct (FanCtlFacts.outer_spec shortPath fans subTreePaths [])
    as (H1 & H2 & H3); [apply NoDup_nil_2|done|].
  change (foldl _ [] subTreePaths)
    with (FanCtl.getPathsFromIface subTreePaths fans shortPath) in *.
  split; [done|]. split; [|split].
  - specialize (H3 fan). specialize (H2 fan).
    change (default [] (FanCtl.entry fan []) ++ ?l) with l in H3.
    rewrite <- H3.
    destruct (FanCtl.entry fan _) as [l|]; cbn [from_option id] in *.
    + rewrite bool_decide_eq_false_2; [done|]. by intros ->.
    + by rewrite bool_decide_eq_true_2.
  - intros Hnot. clear H1 H2 H3. unfold FanCtl.pushed.
    rewrite (FanCtlFacts.filter_fan_notin fan fans Hnot).
    induction subTreePaths as [|p ps IH]; [done|]. cbn [flat_map]. rewrite IH.
    by destruct (FanCtl.selects shortPath fan p).
  - intros Hnd Hin. clear H1 H2 H3. unfold FanCtl.pushed.
    assert (length (filter (λ x, x = fan) fans) = 1%nat) as ->.
    { clear -Hnd Hin. induction Hnd as [|x l Hx Hnd IH]; [by apply elem_of_nil in Hin|].
      rewrite filter_cons. apply elem_of_cons in Hin as [->|Hin].
      - rewrite decide_True by done. cbn.
        by rewrite (FanCtlFacts.filter_fan_notin x l Hx).
      - rewrite decide_False by (intros ->; done). by apply IH. }
    induction subTreePaths as [|p ps IH]; [done|]. cbn [flat_map].
    rewrite filter_cons. destruct (FanCtl.selects shortPath fan p) eqn:Hs.
    + rewrite decide_True by done. by rewrite IH.
    + rewrite decide_False by done. by rewrite IH.
Qed.

Lemma getPathsFromIface_entry_witness :
  FanCtl.pushed ["/inv/fan0"; "/inv/fan1"; "/inv/fan0"] ["fan0"; "fan1"] true "fan0" =
  ["/inv/fan0"; "/inv/fan0"].
Proof.
  destruct (getPathsFromIface_entry ["/inv/fan0"; "/inv/fan1"; "/inv/fan0"]
              ["fan0"; "fan1"] true "fan0") as (_ & _ & _ & H).
  apply H; [|by left].
  apply NoDup_cons. split; [by intros [=]%list_elem_of_singleton|apply NoDup_singleton].
Defined.

(** X20: the fan name that [status] derives from a tach sensor path and the
    lookup of [getPathsFromIface] agree.  For a path whose last token is a
    name, an underscore and a suffix without underscore, [status] takes the
    name as the fan, and [getPathsFromIface] (matching on the fan name
    followed by an underscore) lists that path under this fan whenever the
    path is in the subtree and the fan in the list of fans. *)
Theorem tach_path_listed dir name suffix subTreePaths fans :
  FanCtl.rfind "/"%char name = None →
  FanCtl.rfind "/"%char suffix = None →
  FanCtl.rfind "_"%char suffix = None →
  let path := dir +:+ String "/"%char (name +:+ String "_"%char suffix) in
  FanCtl.fanOf path = Some name ∧
  (path ∈ subTreePaths → name ∈ fans →
   ∃ l, FanCtl.entry name (FanCtl.getPathsFromIface subTreePaths fans false) = Some l ∧
        path ∈ l).
Proof.
  intros Hn Hs Hu. cbv zeta.
  assert (FanCtl.rfind "/"%char (name +:+ String "_"%char suffix) = None) as Htok.
  { apply FanCtlFacts.rfind_None_app; [done|]. cbn. by rewrite Hs. }
  split.
  - unfold FanCtl.fanOf. rewrite (FanCtlFacts.justFanName_app dir _ Htok). cbn.
    rewrite (FanCtlFacts.rfind_app _ name suffix Hu).
    by rewrite FanCtlFacts.substr0_app.
  - intros Hp Hf.
    assert (FanCtl.selects false name
              (dir +:+ String "/"%char (name +:+ String "_"%char suffix)) = true) as Hsel.
    { unfold FanCtl.selects. apply bool_decide_eq_true.
      rewrite <- (FanCtlFacts.app_String name "_"%char suffix).
      rewrite <- (FanCtlFacts.app_String dir "/"%char).
      apply FanCtlFacts.find_app. }
    pose proof (FanCtlFacts.elem_of_pushed _ _ _ _ _ Hp Hf Hsel) as Hin.
    destruct (FanCtlFacts.outer_spec false fans subTreePaths [])
      as (_ & _ & H3); [apply NoDup_nil_2|done|].
    specialize (H3 name).
    change (default [] (FanCtl.entry name []) ++ ?l) with l in H3.
    change (foldl _ [] subTreePaths)
      with (FanCtl.getPathsFromIface subTreePaths fans false) in H3.
    destruct (FanCtl.entry name _) as [l|]; cbn [from_option id] in H3.
    + exists l. split; [done|]. by rewrite H3.
    + rewrite <- H3 in Hin. by apply elem_of_nil in Hin.
Qed.

Lemma tach_path_listed_witness :
  FanCtl.fanOf "/xyz/openbmc_project/sensors/fan_tach/fan0_1" = Some "fan0" ∧
  ∃ l, FanCtl.entry "fan0"
         (FanCtl.getPathsFromIface
            ["/xyz/openbmc_project/sensors/fan_tach/fan0_0";
             "/xyz/openbmc_project/sensors/fan_tach/fan0_1";
             "/xyz/openbmc_project/sensors/fan_tach/fan1_0"]
            ["fan0"; "fan1"] false) = Some l ∧
       "/xyz/openbmc_project/sensors/fan_tach/fan0_1" ∈ l.
Proof.
  destruct (tach_path_listed "/xyz/openbmc_project/sensors/fan_tach" "fan0" "1"
              ["/xyz/openbmc_project/sensors/fan_tach/fan0_0";
               "/xyz/openbmc_project/sensors/fan_tach/fan0_1";
               "/xyz/openbmc_project/sensors/fan_tach/fan1_0"]
              ["fan0"; "fan1"] eq_refl eq_refl eq_refl) as [H1 H2].
  split; [exact H1|]. apply H2.
  - right. left.
  - left.
Defined.

(** * The target of a sensor without target *)

(** X21: [Fan::findTargetSpeed] returns the target of the first sensor, in
    the order of the fan's sensors, that has a target of its own; sensors
    without target before it are passed over and later sensors are not
    looked at.  When no sensor has a target (in particular when the fan has
    no sensor) it returns 0. *)
Theorem findTargetSpeed_first f :
  (∀ l1 s l2, Fan.sensors f = l1 ++ s :: l2 →
     Forall (λ x, TachSensor.hasTarget x = false) l1 →
     TachSensor.hasTarget s = true →
     findTargetSpeed f = TachSensor.getTarget s) ∧
  (Forall (λ x, TachSensor.hasTarget x = false) (Fan.sensors f) →
   findTargetSpeed f = 0).
Proof.
  unfold findTargetSpeed. split.
  - intros l1 s l2 -> Hl1 Hs. induction Hl1 as [|x l Hx Hl IH]; cbn.
    + by rewrite Hs.
    + by rewrite Hx.
  - intros Hall. induction Hall as [|x l Hx Hl IH]; [done|]. cbn. by rewrite Hx.
Qed.

Lemma findTargetSpeed_first_witness :
  findTargetSpeed
    (fan0 [TachSensor.mk "A" timebased 3 false 0 0 true 0 None;
           TachSensor.mk "B" timebased 3 true 0 2000 true 0 None;
           TachSensor.mk "C" timebased 3 true 0 3000 true 0 None]
          1 true true true None) = 2000.
Proof.
  apply (proj1 (findTargetSpeed_first _)
           [TachSensor.mk "A" timebased 3 false 0 0 true 0 None]
           (TachSensor.mk "B" timebased 3 true 0 2000 true 0 None)
           [TachSensor.mk "C" timebased 3 true 0 3000 true 0 None]);
    [reflexivity|by repeat constructor|reflexivity].
Defined.

(** * The fan-missing timer and the power state *)

Lemma fanMissingErrorTimer_evaluation e ev f :
  match ev with
  | PresenceChanged _ | PresenceIfaceAdded _ | PowerStateChanged _ => True
  | _ => Fan.fanMissingErrorTimer (exec (handle e ev) f) = Fan.fanMissingErrorTimer f
  end.
Proof.
  set (I := λ f', Fan.fanMissingErrorTimer f' = Fan.fanMissingErrorTimer f).
  assert (∀ l f', I f' → I (Fan.set_sensors l f')) as HIs by done.
  assert (∀ b f', I f' → I (Fan.set_functional b f')) as HIf by done.
  destruct ev as [i a b| |i| |p|p|i|[|]]; cbn [handle]; try done; fold (I (exec (handle e MonitorTimerExpired) f)).
  - rewrite exec_bind. apply (inv_tachChanged I e); auto. done.
  - apply (inv_countTimerExpired I e); auto. done.
  - rewrite exec_bind. apply (inv_updateState I e); auto. done.
  - cbn [handle]. rewrite exec_bind. apply (inv_startMonitor I e); auto.
    unfold startMonitor_armed. cbv zeta. by case_bool_decide.
  - unfold sensorErrorTimerExpired. apply (wp_exec _ I). by wp_steps.
Qed.

Lemma missingGated_step w x : missingGated w → missingGated (step w x).
Proof.
  intros H. destruct x as [e ev]. unfold step.
  destruct (deliverable (fan w) ev); [|done].
  unfold missingGated in *. cbn [fan power].
  pose proof (fanMissingErrorTimer_evaluation
    (withPower (match ev with PowerStateChanged on => on | _ => power w end) e)
    ev (fan w)) as Hev.
  destruct ev as [i a b| |i| |p|p|i|[|]]; try (by rewrite Hev); try done.
  - destruct p as [p|]; [|done]. cbn [handle]. unfold exec. rewrite presenceChanged_eq.
    cbn [fst snd Fan.fanMissingErrorTimer Fan.set_fanMissingErrorTimer handle
         isPowerOn withPower].
    destruct (power w); [done|]. rewrite andb_false_r.
    case_bool_decide; [|done].
    destruct (p && isEnabled (Fan.fanMissingErrorTimer (fan w))); [|done].
    by rewrite isEnabled_disable.
  - destruct p as [p|]; [|done]. cbn [handle]. unfold exec.
    rewrite presenceIfaceAdded_eq.
    cbn [fst snd Fan.fanMissingErrorTimer Fan.set_fanMissingErrorTimer handle
         isPowerOn withPower].
    destruct (power w); [done|]. by rewrite andb_false_r.
  - cbn [handle]. unfold exec. rewrite powerOff_eq. cbn [fst snd].
    unfold poweredOff. cbn [Fan.fanMissingErrorTimer]. by rewrite isEnabled_disable.
Qed.

(** X22: the fan-missing timer is armed only while the chassis is powered.
    This holds after the constructor and is kept by every event: the timer
    is armed only by callbacks that see power on, and the power-off handler
    disarms it.  So after construction and any sequence of events, an armed
    fan-missing timer means that power is on. *)
Theorem missing_timer_gated :
  (∀ w evs, missingGated w → missingGated (run w evs)) ∧
  (∀ e l pp n d t dl p0 fn0 mr0 evs,
     missingGated
       (run {| power := isPowerOn e;
               fan := exec (construct e l pp) (initialised n d t dl p0 fn0 mr0) |} evs)).
Proof.
  assert (∀ evs w, missingGated w → missingGated (run w evs)) as Hrun.
  { induction evs as [|x evs IH]; intros w H; [done|].
    cbn [run foldl]. apply IH. by apply missingGated_step. }
  split; [intros w evs; apply Hrun|].
  intros e l pp n d t dl p0 fn0 mr0 evs. apply Hrun.
  unfold missingGated. rewrite construct_eq. cbn.
  case_bool_decide; [|done]. unfold isEnabled. rewrite bool_decide_eq_true.
  intros [= Hen]. by apply andb_prop in Hen as [Hen _].
Qed.

Lemma missing_timer_gated_witness :
  missingGated (run
    {| power := true; fan := Fan.mk "fan0" 10 1 [] false true false false None
                                    (Some 60) (Some true) |}
    [(onBus true false, PowerStateChanged false)]).
Proof.
  apply (proj1 missing_timer_gated). intros _. reflexivity.
Defined.
